(** * Findings reconciliation, job store and orchestrator of the ai-core service

    A shallow embedding of
    - [services/ai-core/models/findings.py] (normalizers, deduplication,
      summary, quality gate),
    - [services/ai-core/pr_agent/servers/job_manager.py] (the in-memory job
      store), and
    - [services/ai-core/pr_agent/algo/orchestrator.py] (the parallel
      analysis run),
    followed by the properties proved about them.

    Conventions.  A Python function that can raise returns an [option]:
    [None] stands for "an exception leaves the function".  Python values
    that come out of a JSON document are [pyval]s.  A string is a sequence
    of code points below 256 (Latin-1), one [ascii] each; the case and
    white-space functions follow Python on these code points. *)

From Stdlib Require Import ZArith String Ascii List Bool Lia.
From Stdlib Require Import SpecFloat.
From stdpp Require Import base option list gmap strings.

Import ListNotations.
Local Open Scope Z_scope.
Set Warnings "-register-all".

(* ===================================================================== *)
(** * Python values                                                       *)
(* ===================================================================== *)

Module Py.

(** ** Floats: IEEE 754 binary64, as Python's [float] *)

Definition prec : Z := 53.
Definition emax : Z := 1024.

Abbreviation float := spec_float.

Definition float_is_finite (x : float) : bool :=
  match x with
  | S754_zero _ | S754_finite _ _ _ => true
  | S754_infinity _ | S754_nan => false
  end.

(** [a > b] on two floats; false as soon as one of them is a NaN. *)
Definition float_gt (a b : float) : bool := SFltb b a.

(** [a == b] on two floats. *)
Definition float_eq (a b : float) : bool := SFeqb a b.

(** The float nearest to an integer (round half to even); Python raises
    OverflowError where IEEE arithmetic would give an infinity. *)
Definition float_of_Z (n : Z) : option float :=
  let x := binary_normalize prec emax n 0 false in
  if float_is_finite x then Some x else None.

(** [int(x)] for a float: truncation toward zero; ValueError on a NaN,
    OverflowError on an infinity. *)
Definition Z_of_float (x : float) : option Z :=
  match x with
  | S754_zero _ => Some 0
  | S754_finite s m e =>
      let a := if 0 <=? e then Z.shiftl (Z.pos m) e
               else Z.shiftr (Z.pos m) (- e) in
      Some (if s then - a else a)
  | S754_infinity _ | S754_nan => None
  end.

(** [a / b] on two integers with [b] nonzero: the correctly rounded
    quotient; OverflowError when it does not fit a float. *)
Definition int_true_div (a b : Z) : option float :=
  let as_float (n : Z) : float :=
    match n with
    | Z0 => S754_zero false
    | Zpos p => S754_finite false p 0
    | Zneg p => S754_finite true p 0
    end in
  if b =? 0 then None
  else
    let q := SFdiv prec emax (as_float a) (as_float b) in
    if float_is_finite q then Some q else None.

(** The literals [0.95], [0.75] and [100.0]. *)
Definition float_0_95 : float := S754_finite false 8556839292003942 (-53).
Definition float_0_75 : float := S754_finite false 6755399441055744 (-53).
Definition float_100 : float := S754_finite false 7036874417766400 (-46).

(** ** Strings *)

(** The code points [str.lower()] changes: A-Z, and the Latin-1 capitals
    192-222 without the multiplication sign 215; each moves up by 32. *)
Definition is_upper (c : ascii) : bool :=
  let n := nat_of_ascii c in
  (((65 <=? n) && (n <=? 90))
   || ((192 <=? n) && (n <=? 222) && negb (n =? 215)))%nat.

Definition lower_char (c : ascii) : ascii :=
  if is_upper c then ascii_of_nat (nat_of_ascii c + 32) else c.

(** [s.lower()] *)
Fixpoint str_lower (s : string) : string :=
  match s with
  | EmptyString => EmptyString
  | String c r => String (lower_char c) (str_lower r)
  end.

(** The code points [str.strip()] removes: tab, line feed, vertical tab,
    form feed, carriage return (9-13), the separators 28-31, space (32),
    next line (133) and no-break space (160). *)
Definition is_space (c : ascii) : bool :=
  let n := nat_of_ascii c in
  (((9 <=? n) && (n <=? 13)) || ((28 <=? n) && (n <=? 32))
   || (n =? 133) || (n =? 160))%nat.

Fixpoint str_lstrip (s : string) : string :=
  match s with
  | EmptyString => EmptyString
  | String c r => if is_space c then str_lstrip r else s
  end.

Fixpoint str_rstrip (s : string) : string :=
  match s with
  | EmptyString => EmptyString
  | String c r =>
      match str_rstrip r with
      | EmptyString => if is_space c then EmptyString else String c EmptyString
      | r' => String c r'
      end
  end.

(** [s.strip()] *)
Definition str_strip (s : string) : string := str_rstrip (str_lstrip s).

(** [s[:n]] for a non-negative [n] *)
Fixpoint str_take (n : nat) (s : string) : string :=
  match n, s with
  | O, _ => EmptyString
  | S _, EmptyString => EmptyString
  | S k, String c r => String c (str_take k r)
  end.

(** [c in s] for a one-character [c] *)
Fixpoint str_has_char (c : ascii) (s : string) : bool :=
  match s with
  | EmptyString => false
  | String d r => Ascii.eqb c d || str_has_char c r
  end.

(** [s.split(c)[-1]]: what follows the last occurrence of [c] *)
Fixpoint str_after_last (c : ascii) (s : string) : string :=
  match s with
  | EmptyString => EmptyString
  | String d r =>
      if str_has_char c r then str_after_last c r
      else if Ascii.eqb c d then r else s
  end.

(** [s.replace(a, b)] for one-character [a] and [b] *)
Fixpoint str_replace_char (a b : ascii) (s : string) : string :=
  match s with
  | EmptyString => EmptyString
  | String c r =>
      String (if Ascii.eqb c a then b else c) (str_replace_char a b r)
  end.

(** The characters of a string, each as a one-character string. *)
Fixpoint str_chars (s : string) : list string :=
  match s with
  | EmptyString => []
  | String c r => String c EmptyString :: str_chars r
  end.

Definition newline : string := String (ascii_of_nat 10) EmptyString.

(** ** Dynamic values: what [json.loads] can deliver *)

Inductive pyval : Type :=
  | PNone
  | PBool (b : bool)
  | PInt (n : Z)
  | PFloat (x : float)
  | PStr (s : string)
  | PList (l : list pyval)
  | PDict (d : list (string * pyval)).

(** A [dict] with string keys, as an association list; the first entry
    for a key is the live one. *)
Abbreviation pydict := (list (string * pyval)).

Fixpoint dict_lookup (k : string) (d : pydict) : option pyval :=
  match d with
  | [] => None
  | (k', v) :: r => if String.eqb k k' then Some v else dict_lookup k r
  end.

(** [d.get(k, default)] *)
Definition dict_get (d : pydict) (k : string) (default : pyval) : pyval :=
  match dict_lookup k d with
  | Some v => v
  | None => default
  end.

(** [k in d] *)
Definition dict_has (d : pydict) (k : string) : bool :=
  match dict_lookup k d with Some _ => true | None => false end.

(** Truth value of an object, as [if v:] and [or] test it. *)
Definition truthy (v : pyval) : bool :=
  match v with
  | PNone => false
  | PBool b => b
  | PInt n => negb (n =? 0)
  | PFloat (S754_zero _) => false
  | PFloat _ => true
  | PStr EmptyString => false
  | PStr _ => true
  | PList [] => false
  | PList _ => true
  | PDict [] => false
  | PDict _ => true
  end.

(** [a or b] *)
Definition py_or (a b : pyval) : pyval := if truthy a then a else b.

(** [v.get(k, default)]: AttributeError unless [v] is a dict. *)
Definition py_get (v : pyval) (k : string) (default : pyval) : option pyval :=
  match v with
  | PDict d => Some (dict_get d k default)
  | _ => None
  end.

(** [v.lower()]: AttributeError unless [v] is a string. *)
Definition py_lower (v : pyval) : option string :=
  match v with
  | PStr s => Some (str_lower s)
  | _ => None
  end.

(** [v[:n]]: strings and lists can be sliced, everything else raises. *)
Definition py_slice_to (n : nat) (v : pyval) : option pyval :=
  match v with
  | PStr s => Some (PStr (str_take n s))
  | PList l => Some (PList (take n l))
  | _ => None
  end.

(** [':' in v]: substring test on a string, membership on a list, key
    membership on a dict; TypeError on anything else. *)
Definition py_has_colon (v : pyval) : option bool :=
  match v with
  | PStr s => Some (str_has_char ":" s)
  | PList l =>
      Some (existsb (fun x => match x with
                              | PStr s => String.eqb s ":"
                              | _ => false
                              end) l)
  | PDict d => Some (dict_has d ":")
  | _ => None
  end.

(** [v.split(':')[-1]]: AttributeError unless [v] is a string. *)
Definition py_split_colon_last (v : pyval) : option pyval :=
  match v with
  | PStr s => Some (PStr (str_after_last ":" s))
  | _ => None
  end.

(** [v += t] for a string [t]: concatenation on a string, [extend] by the
    characters of [t] on a list, TypeError on anything else. *)
Definition py_iadd_str (v : pyval) (t : string) : option pyval :=
  match v with
  | PStr s => Some (PStr (s +:+ t))
  | PList l => Some (PList (l ++ map PStr (str_chars t)))
  | _ => None
  end.

(** [for x in v]: the items a loop sees; TypeError when [v] is not
    iterable. *)
Definition py_iter (v : pyval) : option (list pyval) :=
  match v with
  | PList l => Some l
  | PStr s => Some (map PStr (str_chars s))
  | PDict d => Some (map (fun kv => PStr (fst kv)) d)
  | _ => None
  end.


(** [table.get(v, default)] on a dict literal with string keys: TypeError
    on an unhashable [v]; only a string can equal a key. *)
Definition table_get (table : list (string * string)) (v : pyval)
    (default : string) : option string :=
  match v with
  | PStr s =>
      Some (match List.find (fun kv => String.eqb s (fst kv)) table with
            | Some kv => snd kv
            | None => default
            end)
  | PList _ | PDict _ => None
  | _ => Some default
  end.

(** ** The built-ins taken as given

    [str(v)] (as an f-string renders a value), the hexadecimal MD5 digest
    of a string, and the parsers behind [int(s)] and [float(s)] for a
    string [s] ([None]: ValueError). *)
Class Builtins := {
  py_str : pyval -> string;
  md5_hexdigest : string -> string;
  int_of_str : string -> option Z;
  float_of_str : string -> option float;
}.

(** An instance for the examples: it renders strings only, takes a text
    as its own digest, and its parsers accept nothing. *)
Definition sample_builtins : Builtins :=
  {| py_str := fun v => match v with PStr s => s | _ => EmptyString end;
     md5_hexdigest := fun s => s;
     int_of_str := fun _ => None;
     float_of_str := fun _ => None |}.

Section WithBuiltins.
Context `{Builtins}.

(** [int(v)] *)
Definition py_int (v : pyval) : option Z :=
  match v with
  | PInt n => Some n
  | PBool b => Some (if b then 1 else 0)
  | PFloat x => Z_of_float x
  | PStr s => int_of_str s
  | PNone | PList _ | PDict _ => None
  end.

(** [float(v)] *)
Definition py_float (v : pyval) : option float :=
  match v with
  | PFloat x => Some x
  | PInt n => float_of_Z n
  | PBool b => float_of_Z (if b then 1 else 0)
  | PStr s => float_of_str s
  | PNone | PList _ | PDict _ => None
  end.

End WithBuiltins.

(** ** Values as dictionary keys

    Two hashable values select the same dictionary entry when Python finds
    them equal: numbers (booleans included) by exact value, strings
    character by character, [None] only with itself.  [key_of] sends a
    value to the representative of its class; a NaN out of [json] is the
    one object [json.decoder.NaN], which a dictionary finds again by
    identity. *)
Inductive hval : Type :=
  | HNone
  | HStr (s : string)
  | HInt (n : Z)
  | HDyadic (neg : bool) (m : positive) (e : Z)
  | HInf (neg : bool)
  | HNaN.

Fixpoint dyadic_reduce (m : positive) (e : Z) : positive * Z :=
  match m with
  | xO p => if e <? 0 then dyadic_reduce p (e + 1) else (m, e)
  | _ => (m, e)
  end.

Definition hval_of_float (x : float) : hval :=
  match x with
  | S754_zero _ => HInt 0
  | S754_infinity s => HInf s
  | S754_nan => HNaN
  | S754_finite s m e =>
      let '(m', e') := dyadic_reduce m e in
      if 0 <=? e' then
        let a := Z.shiftl (Z.pos m') e' in HInt (if s then - a else a)
      else HDyadic s m' e'
  end.

(** [None]: the value is unhashable (TypeError). *)
Definition key_of (v : pyval) : option hval :=
  match v with
  | PNone => Some HNone
  | PBool b => Some (HInt (if b then 1 else 0))
  | PInt n => Some (HInt n)
  | PFloat x => Some (hval_of_float x)
  | PStr s => Some (HStr s)
  | PList _ | PDict _ => None
  end.

#[global] Instance hval_eq_dec : EqDecision hval.
Proof. solve_decision. Defined.

End Py.

(* ===================================================================== *)
(** * models/findings.py                                                  *)
(* ===================================================================== *)

Module Findings.
Import Py.

(** ** Enums (the [.value] strings) *)

Module FindingSource.
Definition PR_AGENT : string := "pr_agent".
Definition SONAR : string := "sonar".
Definition MANUAL : string := "manual".
End FindingSource.

Module FindingCategory.
Definition SECURITY : string := "security".
Definition BUG : string := "bug".
Definition LOGIC : string := "logic".
Definition STYLE : string := "style".
Definition PERFORMANCE : string := "performance".
Definition MAINTAINABILITY : string := "maintainability".
End FindingCategory.

Module FindingSeverity.
Definition CRITICAL : string := "critical".
Definition HIGH : string := "high".
Definition MEDIUM : string := "medium".
Definition LOW : string := "low".
Definition INFO : string := "info".
(** [[s.value for s in FindingSeverity]] *)
Definition values : list string := [CRITICAL; HIGH; MEDIUM; LOW; INFO].
End FindingSeverity.

(** ** Data classes

    A dataclass does not check its annotations: a field holds whatever the
    constructor call passes.  Fields the normalizers fill with a value they
    built themselves have that value's type; fields they copy from the raw
    issue are [pyval]s. *)

Record GeneratedFix := {
  original_code : pyval;
  fixed_code : pyval;
  explanation : pyval;
  applicable : bool;
}.

Record UnifiedFinding := {
  id : string;
  source : string;
  category : string;
  severity : string;
  file : pyval;
  start_line : pyval;
  end_line : pyval;
  title : pyval;
  description : pyval;
  code_snippet : pyval;
  fix_ : option GeneratedFix;
  sonar_rule_id : pyval;
  confidence : float;
  tags : list pyval;
  also_found_by : list string;
}.

(** [f.also_found_by.append(s)] *)
Definition append_also_found_by (s : string) (f : UnifiedFinding)
    : UnifiedFinding :=
  {| id := id f; source := source f; category := category f;
     severity := severity f; file := file f; start_line := start_line f;
     end_line := end_line f; title := title f;
     description := description f; code_snippet := code_snippet f;
     fix_ := fix_ f; sonar_rule_id := sonar_rule_id f;
     confidence := confidence f; tags := tags f;
     also_found_by := also_found_by f ++ [s] |}.

(** [f.fix = x] *)
Definition set_fix (x : option GeneratedFix) (f : UnifiedFinding)
    : UnifiedFinding :=
  {| id := id f; source := source f; category := category f;
     severity := severity f; file := file f; start_line := start_line f;
     end_line := end_line f; title := title f;
     description := description f; code_snippet := code_snippet f;
     fix_ := x; sonar_rule_id := sonar_rule_id f;
     confidence := confidence f; tags := tags f;
     also_found_by := also_found_by f |}.

(** ** Sonar converters *)

Definition SONAR_TYPE_MAP : list (string * string) :=
  [ ("BUG", FindingCategory.BUG);
    ("VULNERABILITY", FindingCategory.SECURITY);
    ("SECURITY_HOTSPOT", FindingCategory.SECURITY);
    ("CODE_SMELL", FindingCategory.MAINTAINABILITY) ].

Definition SONAR_SEVERITY_MAP : list (string * string) :=
  [ ("BLOCKER", FindingSeverity.CRITICAL);
    ("CRITICAL", FindingSeverity.CRITICAL);
    ("MAJOR", FindingSeverity.HIGH);
    ("MINOR", FindingSeverity.MEDIUM);
    ("INFO", FindingSeverity.LOW) ].

Section WithBuiltins.
Context `{Builtins}.

(** The description of a Sonar finding: the message, extended by the
    effort and the recommendation when the issue carries them.  On a
    string [+=] binds [description] to a new string; on a list it extends
    the list object itself, which is the object stored under [message];
    on anything else it raises. *)
Definition sonar_description (sonar_issue : pydict) : option pyval :=
  let description := dict_get sonar_issue "message" (PStr "") in
  description ←
    (if truthy (dict_get sonar_issue "effort" PNone)
     then py_iadd_str description
            (newline +:+ newline +:+ "Estimated effort: "
               +:+ py_str (dict_get sonar_issue "effort" PNone))
     else Some description);
  if truthy (dict_get sonar_issue "fix_recommendation" PNone)
  then py_iadd_str description
         (newline +:+ newline +:+ "Recommendation: "
            +:+ py_str (dict_get sonar_issue "fix_recommendation" PNone))
  else Some description.

(** What [sonar_issue.get('message', 'Sonar finding')] finds after
    [description] was built: a list under [message] is the object that
    [description +=] has extended in place, so it is [description]; a
    string is what it was.  The caller's list stays extended after the
    call.  (The entries of a raw issue are distinct objects, as
    [json.loads] builds them.) *)
Definition message_after (sonar_issue : pydict) (description : pyval) : pyval :=
  match dict_lookup "message" sonar_issue with
  | Some (PList _) => description
  | Some message => message
  | None => PStr "Sonar finding"
  end.

Definition sonar_to_unified (sonar_issue : pydict) : option UnifiedFinding :=
  let rule_id :=
    dict_get sonar_issue "rule_id" (dict_get sonar_issue "rule" (PStr "unknown")) in
  let line :=
    dict_get sonar_issue "line" (dict_get sonar_issue "start_line" (PInt 1)) in
  let end_line := dict_get sonar_issue "end_line" line in
  let finding_id :=
    "sonar-" +:+ py_str rule_id +:+ "-"
      +:+ py_str (dict_get sonar_issue "file" (PStr "unknown")) +:+ "-"
      +:+ py_str line in
  let finding_id := str_take 12 (md5_hexdigest finding_id) in
  let sonar_type := dict_get sonar_issue "type" (PStr "CODE_SMELL") in
  let sonar_severity := dict_get sonar_issue "severity" (PStr "MAJOR") in
  category ← table_get SONAR_TYPE_MAP sonar_type FindingCategory.BUG;
  severity ← table_get SONAR_SEVERITY_MAP sonar_severity FindingSeverity.MEDIUM;
  description ← sonar_description sonar_issue;
  title ← py_slice_to 100 (message_after sonar_issue description);
  type_tag ← py_lower sonar_type;
  Some {|
    id := "sonar-" +:+ finding_id;
    source := FindingSource.SONAR;
    category := category;
    severity := severity;
    file := dict_get sonar_issue "file" (PStr "");
    start_line := line;
    end_line := end_line;
    title := title;
    description := description;
    code_snippet :=
      dict_get sonar_issue "code_snippet" (dict_get sonar_issue "snippet" (PStr ""));
    fix_ := None;
    sonar_rule_id := rule_id;
    confidence := float_0_95;
    tags := [PStr type_tag; rule_id];
    also_found_by := []
  |}.

(** The body of the [try] in [sonar_response_to_unified]: one raw issue to
    one finding, [None] when anything in it raises. *)
Definition sonar_convert_issue (issue : pyval) : option UnifiedFinding :=
  rule ← py_get issue "rule_id" (PStr "unknown");
  rule ← py_get issue "rule" rule;
  line ← py_get issue "line" (PInt 1);
  file ← py_get issue "file" (PStr "");
  file ← py_get issue "component" file;
  message ← py_get issue "message" (PStr "");
  sev ← py_get issue "severity" (PStr "MAJOR");
  type ← py_get issue "issue_type" (PStr "CODE_SMELL");
  type ← py_get issue "type" type;
  has_colon ← py_has_colon file;
  file ← (if (has_colon : bool) then py_split_colon_last file else Some file);
  sonar_to_unified
    [ ("rule_id", rule); ("line", line); ("file", file);
      ("message", message); ("severity", sev); ("type", type) ].

(** The loop of both batch normalizers: a conversion that raises is
    reported and the loop goes on. *)
Definition convert_each (convert : pyval -> option UnifiedFinding)
    (issues : list pyval) : list UnifiedFinding :=
  omap convert issues.

(** The value bound to [issues]: the first true one of the three
    response formats, else the empty list. *)
Definition sonar_issues (sonar_response : pydict) : pyval :=
  py_or (dict_get sonar_response "vulnerabilities" (PList []))
    (py_or (dict_get sonar_response "issues" (PList []))
       (py_or (dict_get sonar_response "findings" (PList []))
          (PList []))).

Definition sonar_response_to_unified (sonar_response : pydict)
    : option (list UnifiedFinding) :=
  issues ← py_iter (sonar_issues sonar_response);
  Some (convert_each sonar_convert_issue issues).

(** ** AI review converters *)

Definition AI_TYPE_MAP : list (string * string) :=
  [ ("bug", FindingCategory.BUG);
    ("error", FindingCategory.BUG);
    ("logic", FindingCategory.LOGIC);
    ("logical_error", FindingCategory.LOGIC);
    ("security", FindingCategory.SECURITY);
    ("style", FindingCategory.STYLE);
    ("performance", FindingCategory.PERFORMANCE);
    ("possible_bug", FindingCategory.BUG);
    ("possible_issue", FindingCategory.BUG) ].

Definition ai_to_unified (ai_issue : pydict) : option UnifiedFinding :=
  let content_hash :=
    str_take 12
      (md5_hexdigest
         (py_str (dict_get ai_issue "file" (PStr "")) +:+ "-"
            +:+ py_str (dict_get ai_issue "start_line" (PInt 0)) +:+ "-"
            +:+ py_str (dict_get ai_issue "title" (PStr "")))) in
  ai_type ←
    py_lower (dict_get ai_issue "type" (dict_get ai_issue "issue_header" (PStr "issue")));
  let ai_type := str_replace_char " " "_" ai_type in
  category ← table_get AI_TYPE_MAP (PStr ai_type) FindingCategory.BUG;
  severity_str ← py_lower (dict_get ai_issue "severity" (PStr "medium"));
  let severity_str :=
    if bool_decide (severity_str ∈ FindingSeverity.values) then severity_str
    else FindingSeverity.MEDIUM in
  let fix_ :=
    if truthy (dict_get ai_issue "suggestion" PNone)
       || truthy (dict_get ai_issue "fixed_code" PNone)
    then Some {|
      original_code :=
        dict_get ai_issue "original_code" (dict_get ai_issue "code_snippet" (PStr ""));
      fixed_code :=
        dict_get ai_issue "fixed_code" (dict_get ai_issue "suggestion" (PStr ""));
      explanation :=
        dict_get ai_issue "explanation" (dict_get ai_issue "description" (PStr ""));
      applicable := true |}
    else None in
  start_line ←
    py_int (dict_get ai_issue "start_line" (dict_get ai_issue "line" (PInt 1)));
  end_line ←
    py_int (dict_get ai_issue "end_line"
              (dict_get ai_issue "start_line" (dict_get ai_issue "line" (PInt 1))));
  title ←
    py_slice_to 100
      (dict_get ai_issue "title" (dict_get ai_issue "issue_header" (PStr "Issue detected")));
  confidence ← py_float (dict_get ai_issue "confidence" (PFloat float_0_75));
  Some {|
    id := "ai-" +:+ content_hash;
    source := FindingSource.PR_AGENT;
    category := category;
    severity := severity_str;
    file := dict_get ai_issue "file" (dict_get ai_issue "relevant_file" (PStr ""));
    start_line := PInt start_line;
    end_line := PInt end_line;
    title := title;
    description :=
      dict_get ai_issue "description" (dict_get ai_issue "issue_content" (PStr ""));
    code_snippet := dict_get ai_issue "code_snippet" (PStr "");
    fix_ := fix_;
    sonar_rule_id := PNone;
    confidence := confidence;
    tags := [PStr category; PStr "ai-detected"];
    also_found_by := []
  |}.

(** The body of the [try] in [ai_response_to_unified]; the first [.get]
    of [ai_to_unified] raises on an issue that is not a dict. *)
Definition ai_convert_issue (issue : pyval) : option UnifiedFinding :=
  match issue with
  | PDict d => ai_to_unified d
  | _ => None
  end.

(** The value bound to [issues]; the [review] entry is read, and has to
    be a dict, only when [issues] is missing or empty. *)
Definition ai_issues (ai_response : pydict) : option pyval :=
  let a := dict_get ai_response "issues" (PList []) in
  if truthy a then Some a
  else
    b ← py_get (dict_get ai_response "review" (PDict []))
           "key_issues_to_review" (PList []);
    Some (py_or b (py_or (dict_get ai_response "code_feedback" (PList []))
                     (PList []))).

Definition ai_response_to_unified (ai_response : pydict)
    : option (list UnifiedFinding) :=
  issues ← ai_issues ai_response;
  issues ← py_iter issues;
  Some (convert_each ai_convert_issue issues).

End WithBuiltins.

(** ** Merge and deduplication *)

Definition merge_findings (ai_findings sonar_findings : list UnifiedFinding)
    : list UnifiedFinding :=
  ai_findings ++ sonar_findings.

(** [text.lower().strip()[:50]]: AttributeError unless [text] is a string. *)
Definition normalize_for_dedup (text : pyval) : option string :=
  s ← py_lower text;
  Some (str_take 50 (str_strip s)).

(** The dedup key as the dictionary [seen] compares it; [None] when
    building or hashing the tuple raises. *)
Definition dedup_key_t : Type := hval * hval * string.

Definition dedup_key (finding : UnifiedFinding) : option dedup_key_t :=
  t ← normalize_for_dedup (title finding);
  f ← key_of (file finding);
  l ← key_of (start_line finding);
  Some (f, l, t).

(** The dictionary [seen], in insertion order.  Assigning to a key that
    is present replaces the value and keeps the entry's place. *)
Abbreviation seen_t := (list (dedup_key_t * UnifiedFinding)).

Fixpoint seen_lookup (key : dedup_key_t) (seen : seen_t)
    : option UnifiedFinding :=
  match seen with
  | [] => None
  | (k, v) :: r => if decide (k = key) then Some v else seen_lookup key r
  end.

Fixpoint seen_store (key : dedup_key_t) (v : UnifiedFinding) (seen : seen_t)
    : seen_t :=
  match seen with
  | [] => [(key, v)]
  | (k, w) :: r =>
      if decide (k = key) then (k, v) :: r else (k, w) :: seen_store key v r
  end.

(** [if loser.fix and not winner.fix: winner.fix = loser.fix] *)
Definition adopt_fix (loser winner : UnifiedFinding) : UnifiedFinding :=
  match fix_ loser, fix_ winner with
  | Some x, None => set_fix (Some x) winner
  | _, _ => winner
  end.

(** One turn of the loop of [deduplicate_findings].  The objects are
    taken to be distinct, as the normalizers build them, so that updating
    the finding held by [seen] is updating its entry. *)
Definition dedup_step (seen : seen_t) (finding : UnifiedFinding)
    : option seen_t :=
  key ← dedup_key finding;
  match seen_lookup key seen with
  | Some existing =>
      if float_gt (confidence finding) (confidence existing) then
        let finding :=
          adopt_fix existing (append_also_found_by (source existing) finding) in
        Some (seen_store key finding seen)
      else
        let existing :=
          adopt_fix finding (append_also_found_by (source finding) existing) in
        Some (seen_store key existing seen)
  | None => Some (seen_store key finding seen)
  end.

Fixpoint dedup_loop (seen : seen_t) (findings : list UnifiedFinding)
    : option seen_t :=
  match findings with
  | [] => Some seen
  | finding :: rest =>
      seen ← dedup_step seen finding;
      dedup_loop seen rest
  end.

Definition deduplicate_findings (findings : list UnifiedFinding)
    : option (list UnifiedFinding) :=
  seen ← dedup_loop [] findings;
  Some (seen.*2).

(** ** Summary generation *)

Definition count_if (P : UnifiedFinding -> bool) (findings : list UnifiedFinding)
    : Z :=
  Z.of_nat (length (filter (fun f => P f = true) findings)).

Definition determine_quality_gate (findings : list UnifiedFinding) : string :=
  let critical_count :=
    count_if (fun f => String.eqb (severity f) FindingSeverity.CRITICAL) findings in
  let high_count :=
    count_if (fun f => String.eqb (severity f) FindingSeverity.HIGH) findings in
  let security_count :=
    count_if (fun f => String.eqb (category f) FindingCategory.SECURITY) findings in
  if (critical_count >? 0) || (security_count >? 0) then "failed"
  else if high_count >? 2 then "warning"
  else "passed".

Record Summary := {
  total : Z;
  with_fix : Z;
  by_source : gmap string Z;
  by_severity : gmap string Z;
  by_category : gmap string Z;
  quality_gate : string;
}.

(** [d[k] = d.get(k, 0) + 1] *)
Definition bump (k : string) (d : gmap string Z) : gmap string Z :=
  <[k := default 0 (d !! k) + 1]> d.

Definition create_summary (findings : list UnifiedFinding) : Summary :=
  {| total := Z.of_nat (length findings);
     with_fix := count_if (fun f => bool_decide (is_Some (fix_ f))) findings;
     by_source := foldl (fun d f => bump (source f) d) ∅ findings;
     by_severity := foldl (fun d f => bump (severity f) d) ∅ findings;
     by_category := foldl (fun d f => bump (category f) d) ∅ findings;
     quality_gate := determine_quality_gate findings |}.

Record AnalysisResult := {
  findings : list UnifiedFinding;
  summary : Summary;
  code_graph : pydict;
  execution_time_ms : Z;
}.

End Findings.

(* ===================================================================== *)
(** * pr_agent/servers/job_manager.py                                     *)
(* ===================================================================== *)

Module JobManager.
Import Py.

(** The [progress] dict of a job; [create_job] gives it these four keys. *)
Record Progress := {
  current_file : string;
  processed : Z;
  total : Z;
  percentage : Z;
}.

(** A job does not hold its [result] dict but refers to it: it is the
    dict object [create_job] made, or the one a caller handed to
    [update_job_result] or [complete_job], and [fail_job] writes into
    that object.  [objects] maps the dict objects that exist to what they
    hold; a [ref] names one of them.  A job always refers to a dict that
    exists, and the calls keep it so. *)
Definition ref : Type := positive.

Abbreviation objects := (gmap ref pydict).

Record Job := {
  status : string;
  logs : list string;
  progress : Progress;
  result : ref;
  created_at : string;
  updated_at : string;
}.

(** The module-level dictionary [JOBS]. *)
Abbreviation jobs := (gmap string Job).

Definition set_status (s : string) (j : Job) : Job :=
  {| status := s; logs := logs j; progress := progress j; result := result j;
     created_at := created_at j; updated_at := updated_at j |}.

Definition set_logs (l : list string) (j : Job) : Job :=
  {| status := status j; logs := l; progress := progress j; result := result j;
     created_at := created_at j; updated_at := updated_at j |}.

Definition set_progress (p : Progress) (j : Job) : Job :=
  {| status := status j; logs := logs j; progress := p; result := result j;
     created_at := created_at j; updated_at := updated_at j |}.

Definition set_result (r : ref) (j : Job) : Job :=
  {| status := status j; logs := logs j; progress := progress j; result := r;
     created_at := created_at j; updated_at := updated_at j |}.

Definition set_updated_at (t : string) (j : Job) : Job :=
  {| status := status j; logs := logs j; progress := progress j;
     result := result j; created_at := created_at j; updated_at := t |}.

(** [d[k] = v] on a dict held as an association list. *)
Fixpoint dict_set (k : string) (v : pyval) (d : pydict) : pydict :=
  match d with
  | [] => [(k, v)]
  | (k', w) :: r =>
      if String.eqb k k' then (k', v) :: r else (k', w) :: dict_set k v r
  end.

(** Every function takes [now], the text of
    [datetime.now(timezone.utc).isoformat()] at the call, and the part of
    the state it works on: [JOBS], and the dict objects where it makes
    one or writes into one.  It returns the state it leaves and what the
    call returns.  The arguments have the types of their annotations. *)

(** The [{}] of [create_job] is a new object. *)
Definition create_job (now : string) (job_id : string) (JOBS : jobs)
    (OBJECTS : objects) : jobs * objects * Job :=
  let result := fresh (dom OBJECTS) in
  let job :=
    {| status := "pending";
       logs := [];
       progress := {| current_file := ""; processed := 0; total := 0;
                      percentage := 0 |};
       result := result;
       created_at := now;
       updated_at := now |} in
  (<[job_id := job]> JOBS, <[result := []]> OBJECTS, job).

Definition get_job (job_id : string) (JOBS : jobs) : option Job :=
  JOBS !! job_id.

Definition update_job_status (now : string) (job_id : string) (status : string)
    (JOBS : jobs) : jobs * bool :=
  match JOBS !! job_id with
  | None => (JOBS, false)
  | Some job =>
      (<[job_id := set_updated_at now (set_status status job)]> JOBS, true)
  end.

Definition update_job_log (now : string) (job_id : string) (message : string)
    (JOBS : jobs) : jobs * bool :=
  match JOBS !! job_id with
  | None => (JOBS, false)
  | Some job =>
      (<[job_id := set_updated_at now (set_logs (logs job ++ [message]) job)]> JOBS,
       true)
  end.

(** [int((processed / total) * 100)]: true division of two integers, a
    float product, truncation.  [None]: ZeroDivisionError or
    OverflowError. *)
Definition percent_of (processed total : Z) : option Z :=
  q ← int_true_div processed total;
  Z_of_float (SFmul prec emax q float_100).

(** The result is [None] when the percentage computation raises; the
    [progress] dict has then already been updated in place. *)
Definition update_job_progress (now : string) (job_id : string)
    (current_file : option string) (processed total : option Z)
    (JOBS : jobs) : jobs * option bool :=
  match JOBS !! job_id with
  | None => (JOBS, Some false)
  | Some job =>
      let p := progress job in
      let p := match current_file with
               | Some c => {| current_file := c; processed := JobManager.processed p;
                              total := JobManager.total p;
                              percentage := percentage p |}
               | None => p
               end in
      let p := match processed with
               | Some n => {| current_file := JobManager.current_file p;
                              processed := n; total := JobManager.total p;
                              percentage := percentage p |}
               | None => p
               end in
      let p := match total with
               | Some n => {| current_file := JobManager.current_file p;
                              processed := JobManager.processed p; total := n;
                              percentage := percentage p |}
               | None => p
               end in
      if JobManager.total p >? 0 then
        match percent_of (JobManager.processed p) (JobManager.total p) with
        | Some pct =>
            let p := {| current_file := JobManager.current_file p;
                        processed := JobManager.processed p;
                        total := JobManager.total p; percentage := pct |} in
            (<[job_id := set_updated_at now (set_progress p job)]> JOBS, Some true)
        | None => (<[job_id := set_progress p job]> JOBS, None)
        end
      else
        (<[job_id := set_updated_at now (set_progress p job)]> JOBS, Some true)
  end.

(** The job refers to the caller's dict from now on. *)
Definition update_job_result (now : string) (job_id : string) (result : ref)
    (JOBS : jobs) : jobs * bool :=
  match JOBS !! job_id with
  | None => (JOBS, false)
  | Some job =>
      (<[job_id := set_updated_at now (set_result result job)]> JOBS, true)
  end.

Definition cancel_job (now : string) (job_id : string) (JOBS : jobs)
    : jobs * bool :=
  match JOBS !! job_id with
  | None => (JOBS, false)
  | Some job =>
      let JOBS := <[job_id := set_status "cancelled" job]> JOBS in
      let JOBS :=
        fst (update_job_log now job_id "Job Cancellation Requested by User." JOBS) in
      (JOBS, true)
  end.

Definition is_job_cancelled (job_id : string) (JOBS : jobs) : bool :=
  match JOBS !! job_id with
  | Some job => String.eqb (status job) "cancelled"
  | None => false
  end.

Definition complete_job (now : string) (job_id : string) (result : ref)
    (JOBS : jobs) : jobs * bool :=
  match JOBS !! job_id with
  | None => (JOBS, false)
  | Some job =>
      let job := set_updated_at now (set_result result (set_status "completed" job)) in
      let JOBS := <[job_id := job]> JOBS in
      let JOBS := fst (update_job_log now job_id "Job completed successfully." JOBS) in
      (JOBS, true)
  end.

(** [JOBS[job_id]["result"]["error"] = error] writes into the dict
    object the job refers to, whoever else refers to it. *)
Definition fail_job (now : string) (job_id : string) (error : string)
    (JOBS : jobs) (OBJECTS : objects) : jobs * objects * bool :=
  match JOBS !! job_id with
  | None => (JOBS, OBJECTS, false)
  | Some job =>
      let job := set_status "failed" job in
      let OBJECTS := alter (dict_set "error" (PStr error)) (result job) OBJECTS in
      let job := set_updated_at now job in
      let JOBS := <[job_id := job]> JOBS in
      let JOBS := fst (update_job_log now job_id ("Job failed: " +:+ error) JOBS) in
      (JOBS, OBJECTS, true)
  end.

(** The terminal statuses of the job lifecycle. *)
Definition is_terminal (s : string) : bool :=
  String.eqb s "completed" || String.eqb s "failed" || String.eqb s "cancelled".

(** [s.replace("Z", "+00:00")] *)
Fixpoint replace_Z (s : string) : string :=
  match s with
  | EmptyString => EmptyString
  | String c r =>
      if Ascii.eqb c "Z" then "+00:00" +:+ replace_Z r
      else String c (replace_Z r)
  end.

Section Cleanup.

(** [datetime.fromisoformat] on a text, as the microseconds since the
    epoch of the time it denotes.  [None]: the text is no ISO time
    (ValueError), or it denotes a time without zone, which cannot be
    compared with the cutoff (TypeError); [cleanup_old_jobs] passes over
    both. *)
Variable fromisoformat : string -> option Z.

(** Whether the loop of [cleanup_old_jobs] puts the job on [to_remove]. *)
Definition expired (cutoff : Z) (job : Job) : bool :=
  let created_str := created_at job in
  if String.eqb created_str "" then false
  else
    match fromisoformat (replace_Z created_str) with
    | Some created => created <? cutoff
    | None => false
    end.

(** [cutoff] is the value of
    [datetime.now(timezone.utc) - timedelta(hours=max_age_hours)], in
    microseconds since the epoch. *)
Definition cleanup_old_jobs (cutoff : Z) (JOBS : jobs) : jobs * Z :=
  let to_remove :=
    omap (fun kv : string * Job => if expired cutoff kv.2 then Some kv.1 else None)
         (map_to_list JOBS) in
  (foldr delete JOBS to_remove, Z.of_nat (length to_remove)).

End Cleanup.

(** [dict(JOBS)] *)
Definition get_all_jobs (JOBS : jobs) : jobs := JOBS.

End JobManager.

(* ===================================================================== *)
(** * pr_agent/algo/orchestrator.py                                       *)
(* ===================================================================== *)

Module Orchestrator.
Import Py Findings.

(** What [await asyncio.wait_for(task, timeout=...)] comes to for one
    analyzer task: the task returns its findings, the wait raises
    [asyncio.TimeoutError], or the task raises another [Exception] whose
    text is [msg].  The two tasks have no effect on each other, so the
    pair of outcomes stands for the concurrent run.  What is no
    [Exception] (the cancellation of the run itself, the exit of the
    interpreter) is not an outcome of a branch. *)
Inductive branch_outcome :=
  | Returned (found : list UnifiedFinding)
  | TimedOut
  | Raised (msg : string).

(** One [try]/[except] of [_run_parallel_analysis]: the findings kept for
    the branch and the lines sent to [logger.error]. *)
Definition await_branch (timeout_line failure_prefix : string)
    (o : branch_outcome) : list UnifiedFinding * list string :=
  match o with
  | Returned found => (found, [])
  | TimedOut => ([], [timeout_line])
  | Raised msg => ([], [failure_prefix +:+ msg])
  end.

(** Returns [(ai_findings, sonar_findings)] and the error log. *)
Definition _run_parallel_analysis (ai_task sonar_task : branch_outcome)
    : list UnifiedFinding * list UnifiedFinding * list string :=
  let '(ai_findings, log1) :=
    await_branch "[Orchestrator] AI review timed out"
      "[Orchestrator] AI review failed: " ai_task in
  let '(sonar_findings, log2) :=
    await_branch "[Orchestrator] Sonar scan timed out"
      "[Orchestrator] Sonar scan failed: " sonar_task in
  (ai_findings, sonar_findings, log1 ++ log2).

(** [sep.join(parts)] *)
Fixpoint str_join (sep : string) (parts : list string) : string :=
  match parts with
  | [] => ""
  | p :: rest =>
      match rest with
      | [] => p
      | _ :: _ => p +:+ sep +:+ str_join sep rest
      end
  end.

Section WithBuiltins.
Context `{Builtins}.

(** The f-string appended for one function of a graph. *)
Definition function_line (func : pydict) : string :=
  "  - " +:+ py_str (dict_get func "name" (PStr "unknown")) +:+ ": "
  +:+ py_str (dict_get func "signature" (PStr "")).

(** The f-string appended for one class of a graph. *)
Definition class_line (cls : pydict) : string :=
  "  - " +:+ py_str (dict_get cls "name" (PStr "unknown")).

(** [for x in v[:n]: if isinstance(x, dict): context_parts.append(line x)]:
    the lines appended.  [None]: [v] cannot be sliced (TypeError). *)
Definition listed (n : nat) (line : pydict -> string) (v : pyval)
    : option (list string) :=
  sliced ← py_slice_to n v;
  items ← py_iter sliced;
  Some (omap (M := list)
          (fun x => match x with PDict d => Some (line d) | _ => None end)
          items).

(** What one round of the loop over [code_graph.items()] appends for a
    graph that is a dict. *)
Definition graph_parts (file_path : string) (graph : pydict)
    : option (list string) :=
  functions ←
    (if truthy (dict_get graph "functions" PNone) then
       l ← listed 10 function_line (dict_get graph "functions" PNone);
       Some ("Functions:" :: l)
     else Some []);
  classes ←
    (if truthy (dict_get graph "classes" PNone) then
       l ← listed 5 class_line (dict_get graph "classes" PNone);
       Some ("Classes:" :: l)
     else Some []);
  Some (("## " +:+ file_path) :: functions ++ classes).

(** [context_parts] after the loop of [_build_ai_context]. *)
Fixpoint context_parts (code_graph : pydict) : option (list string) :=
  match code_graph with
  | [] => Some []
  | (file_path, graph) :: rest =>
      match graph with
      | PDict graph =>
          parts ← graph_parts file_path graph;
          more ← context_parts rest;
          Some (parts ++ more)
      | _ => context_parts rest
      end
  end.

(** [None]: an exception leaves [_build_ai_context]. *)
Definition _build_ai_context (code_graph : pydict) : option string :=
  parts ← context_parts code_graph;
  Some (str_join newline (take 100 parts)).

End WithBuiltins.

Section Run.

(** [_generate_fix]: the answer of the fix-generation call made for a
    finding, [None] when it yields no fix or fails (the method catches
    its exceptions).  The first argument counts the calls. *)
Variable _generate_fix : nat -> UnifiedFinding -> option GeneratedFix.

Definition has_no_fix (f : UnifiedFinding) : bool :=
  match fix_ f with None => true | Some _ => false end.

Definition _generate_missing_fixes (findings : list UnifiedFinding)
    : list UnifiedFinding :=
  let needs_fix := List.filter has_no_fix findings in
  let has_fix := List.filter (fun f => negb (has_no_fix f)) findings in
  match needs_fix with
  | [] => findings
  | _ =>
      has_fix ++
      imap (fun i finding =>
              match _generate_fix i finding with
              | Some fix_ => set_fix (Some fix_) finding
              | None => finding
              end) needs_fix
  end.

(** [analyze], given the code graph built in step 1, the outcome of the
    two analyzer tasks and the measured run time.  [None]: an exception
    leaves [analyze]. *)
Definition analyze (code_graph : pydict) (ai_task sonar_task : branch_outcome)
    (execution_time : Z) : option AnalysisResult :=
  let '(ai_findings, sonar_findings, _) :=
    _run_parallel_analysis ai_task sonar_task in
  let all_findings := merge_findings ai_findings sonar_findings in
  unique_findings ← deduplicate_findings all_findings;
  let with_fixes := _generate_missing_fixes unique_findings in
  let summary := create_summary with_fixes in
  Some {| findings := with_fixes;
          summary := summary;
          code_graph := code_graph;
          execution_time_ms := execution_time |}.

End Run.

End Orchestrator.

(* ===================================================================== *)
(** * Vocabulary of the statements, and example data                      *)
(* ===================================================================== *)

Module FindingsSpec.
Import Py Findings.

(** A finding that blocks the gate: critical severity or security
    category. *)
Definition blocking (f : UnifiedFinding) : Prop :=
  severity f = "critical" \/ category f = "security".

(** [w] is the object [f] after the loop has touched it: only
    [also_found_by] and [fix] can differ. *)
Definition same_finding (f w : UnifiedFinding) : Prop :=
  id w = id f /\ source w = source f /\ category w = category f /\
  severity w = severity f /\ file w = file f /\
  start_line w = start_line f /\ end_line w = end_line f /\
  title w = title f /\ description w = description f /\
  code_snippet w = code_snippet f /\ sonar_rule_id w = sonar_rule_id f /\
  confidence w = confidence f /\ tags w = tags f.

(** [w] is [winner] after [loser] was merged into it: the loser's source
    is appended to [also_found_by], and the loser's fix is taken over when
    the winner has none. *)
Definition merged_into (winner loser w : UnifiedFinding) : Prop :=
  same_finding winner w /\
  also_found_by w = also_found_by winner ++ [source loser] /\
  fix_ w = match fix_ winner with
           | Some x => Some x
           | None => fix_ loser
           end.

(** What the loop maintains about an entry of [seen] after the findings
    [prefix]: the held finding has the entry's key, it is one of the
    findings seen so far, and it lists the source of every finding with its
    key that came later. *)
Definition entry_ok (prefix : list UnifiedFinding)
    (kw : dedup_key_t * UnifiedFinding) : Prop :=
  dedup_key kw.2 = Some kw.1 /\
  exists i f, prefix !! i = Some f /\ same_finding f kw.2 /\
    forall j g, (i < j)%nat -> prefix !! j = Some g ->
      dedup_key g = Some kw.1 -> source g ∈ also_found_by kw.2.

Definition seen_inv (prefix : list UnifiedFinding) (seen : seen_t) : Prop :=
  NoDup seen.*1 /\
  Forall (entry_ok prefix) seen /\
  forall f key, f ∈ prefix -> dedup_key f = Some key ->
    is_Some (seen_lookup key seen).

(** Three reports of one issue, by three sources, in rising confidence. *)
Definition report (id source : string) (confidence : float) : UnifiedFinding :=
  {| id := id; source := source;
     category := FindingCategory.BUG; severity := FindingSeverity.MEDIUM;
     file := PStr "src/a.py"; start_line := PInt 10; end_line := PInt 10;
     title := PStr "Null dereference"; description := PStr "";
     code_snippet := PStr ""; fix_ := None; sonar_rule_id := PNone;
     confidence := confidence; tags := []; also_found_by := [] |}.

Definition float_0_5 : float := S754_finite false 4503599627370496 (-53).

Definition report_manual : UnifiedFinding :=
  report "m-1" FindingSource.MANUAL float_0_5.

Definition report_ai : UnifiedFinding :=
  report "ai-1" FindingSource.PR_AGENT float_0_75.

Definition report_sonar : UnifiedFinding :=
  report "sonar-1" FindingSource.SONAR float_0_95.

(** A report of the same title and line for another file. *)
Definition report_elsewhere : UnifiedFinding :=
  {| id := "ai-3"; source := FindingSource.PR_AGENT;
     category := FindingCategory.BUG; severity := FindingSeverity.MEDIUM;
     file := PStr "src/b.py"; start_line := PInt 10; end_line := PInt 10;
     title := PStr "Null dereference"; description := PStr "";
     code_snippet := PStr ""; fix_ := None; sonar_rule_id := PNone;
     confidence := float_0_75; tags := []; also_found_by := [] |}.

(** A string of white space only. *)
Fixpoint str_all_space (s : string) : bool :=
  match s with
  | EmptyString => true
  | String c r => is_space c && str_all_space r
  end.

(** The verdicts in rising order: passed, warning, failed. *)
Definition gate_rank (verdict : string) : nat :=
  if String.eqb verdict "failed" then 2
  else if String.eqb verdict "warning" then 1
  else 0.

(** The categories and severities the static normalizer can assign. *)
Definition sonar_categories : list string :=
  [FindingCategory.BUG; FindingCategory.SECURITY; FindingCategory.MAINTAINABILITY].
Definition sonar_severities : list string :=
  [FindingSeverity.CRITICAL; FindingSeverity.HIGH; FindingSeverity.MEDIUM;
   FindingSeverity.LOW].

(** The categories the AI normalizer can assign. *)
Definition ai_categories : list string :=
  [FindingCategory.BUG; FindingCategory.LOGIC; FindingCategory.SECURITY;
   FindingCategory.STYLE; FindingCategory.PERFORMANCE].

(** A property of findings that the loop of [deduplicate_findings]
    cannot change: it gives the finding and the finding with more
    reporters or an adopted fix the same answer. *)
Definition stable (P : UnifiedFinding -> bool) : Prop :=
  forall f w, same_finding f w -> P w = P f.

(** A critical report of low confidence and a medium one of high
    confidence for the same place and title. *)
Definition report_critical : UnifiedFinding :=
  {| id := "ai-2"; source := FindingSource.PR_AGENT;
     category := FindingCategory.BUG; severity := FindingSeverity.CRITICAL;
     file := PStr "src/a.py"; start_line := PInt 10; end_line := PInt 10;
     title := PStr "Null dereference"; description := PStr "";
     code_snippet := PStr ""; fix_ := None; sonar_rule_id := PNone;
     confidence := float_0_5; tags := []; also_found_by := [] |}.

(** The entry of a counting dict for a key that was counted [n] times:
    a key that was never counted has no entry. *)
Definition count_entry (n : Z) : option Z := if n =? 0 then None else Some n.

(** What one finding adds to a count. *)
Definition b2z (b : bool) : Z := if b then 1 else 0.

(** No finding seen so far is more confident than the finding [seen]
    holds under its key. *)
Definition conf_inv (prefix : list UnifiedFinding) (seen : seen_t) : Prop :=
  forall key w g, seen_lookup key seen = Some w -> g ∈ prefix ->
    dedup_key g = Some key ->
    float_gt (confidence g) (confidence w) = false.

End FindingsSpec.

Module NormalizerSpec.
Import Py Findings.

(** The raw static issue of the scenario. *)
Definition secret_issue : pyval :=
  PDict [ ("component", PStr "proj:src/a.py"); ("line", PInt 10);
          ("rule", PStr "S6334"); ("severity", PStr "BLOCKER");
          ("type", PStr "VULNERABILITY"); ("message", PStr "secret exposed") ].

(** A second well-formed static issue. *)
Definition smell_issue : pyval :=
  PDict [ ("component", PStr "proj:src/b.py"); ("line", PInt 3);
          ("rule", PStr "S1481"); ("severity", PStr "MINOR");
          ("type", PStr "CODE_SMELL"); ("message", PStr "unused variable") ].













(** [out] is what a batch normalizer makes of [items]: the findings of the
    issues that convert, in the order of the issues; an issue whose
    conversion raises leaves no trace. *)
Definition batch_of (convert : pyval -> option UnifiedFinding)
    (items : list pyval) (out : list UnifiedFinding) : Prop :=
  (forall l1 x l2, items = l1 ++ x :: l2 -> convert x = None ->
     out = convert_each convert l1 ++ convert_each convert l2) /\
  (forall l1 x l2 f, items = l1 ++ x :: l2 -> convert x = Some f ->
     out = convert_each convert l1 ++ f :: convert_each convert l2) /\
  (forall f, f ∈ out -> exists x, x ∈ items /\ convert x = Some f).

(** An issue with a suggestion and the severity "HIGH". *)
Definition suggestion_issue : pydict :=
  [ ("file", PStr "src/a.py"); ("start_line", PInt 3);
    ("severity", PStr "HIGH"); ("title", PStr "Off by one");
    ("suggestion", PStr "use <=") ].

(** The id of a static finding with the given rule id, file and line. *)
Definition sonar_id `{Builtins} (rule_id file line : pyval) : string :=
  "sonar-" +:+
  str_take 12
    (md5_hexdigest
       ("sonar-" +:+ py_str rule_id +:+ "-" +:+ py_str file +:+ "-"
          +:+ py_str line)).

(** The same issue reported under two project keys. *)
Definition issue_of_project (project : string) : pyval :=
  PDict [ ("component", PStr (project +:+ ":src/a.py")); ("line", PInt 10);
          ("rule", PStr "S6334"); ("message", PStr "secret exposed") ].

(** A value is absent from a dict or false. *)
Definition absent_or_false (d : pydict) (k : string) : Prop :=
  forall v, dict_lookup k d = Some v -> truthy v = false.

End NormalizerSpec.

Module JobSpec.
Import Py JobManager.

(** A job that has completed, alone in the store; its result is the
    dict object 1. *)
Definition finished_job : Job :=
  {| status := "completed";
     logs := ["Job completed successfully."];
     progress := {| current_file := "a.py"; processed := 4; total := 4;
                    percentage := 100 |};
     result := 1%positive;
     created_at := "2024-01-01T00:00:00+00:00";
     updated_at := "2024-01-01T00:05:00+00:00" |}.

Definition finished_store : jobs := {[ "job-1" := finished_job ]}.

Definition finished_objects : objects :=
  {[ 1%positive := [("total", PInt 0)] ]}.

(** A second job, still running, that was handed the same dict as the
    completed one. *)
Definition running_job : Job :=
  {| status := "processing";
     logs := [];
     progress := {| current_file := "b.py"; processed := 1; total := 4;
                    percentage := 25 |};
     result := 1%positive;
     created_at := "2024-01-01T00:01:00+00:00";
     updated_at := "2024-01-01T00:02:00+00:00" |}.

Definition shared_store : jobs :=
  {[ "job-1" := finished_job; "job-2" := running_job ]}.

(** The calls that write to the store. *)
Inductive op : Type :=
  | CreateJob (job_id : string)
  | UpdateStatus (job_id status : string)
  | UpdateLog (job_id message : string)
  | UpdateProgress (job_id : string) (current_file : option string)
      (processed total : option Z)
  | UpdateResult (job_id : string) (result : ref)
  | CancelJob (job_id : string)
  | CompleteJob (job_id : string) (result : ref)
  | FailJob (job_id error : string).

(** The job id a call is addressed to. *)
Definition target (o : op) : string :=
  match o with
  | CreateJob j | UpdateStatus j _ | UpdateLog j _ | UpdateProgress j _ _ _
  | UpdateResult j _ | CancelJob j | CompleteJob j _ | FailJob j _ => j
  end.

(** The state a call leaves: [JOBS] and the dict objects. *)
Definition run (now : string) (o : op) (st : jobs * objects) : jobs * objects :=
  match o with
  | CreateJob j => (create_job now j st.1 st.2).1
  | UpdateStatus j s => ((update_job_status now j s st.1).1, st.2)
  | UpdateLog j m => ((update_job_log now j m st.1).1, st.2)
  | UpdateProgress j c p t => ((update_job_progress now j c p t st.1).1, st.2)
  | UpdateResult j r => ((update_job_result now j r st.1).1, st.2)
  | CancelJob j => ((cancel_job now j st.1).1, st.2)
  | CompleteJob j r => ((complete_job now j r st.1).1, st.2)
  | FailJob j e => (fail_job now j e st.1 st.2).1
  end.

(** A call that writes the status of its job. *)
Definition writes_status (o : op) : bool :=
  match o with
  | CreateJob _ | UpdateStatus _ _ | CancelJob _ | CompleteJob _ _
  | FailJob _ _ => true
  | UpdateLog _ _ | UpdateProgress _ _ _ _ | UpdateResult _ _ => false
  end.

(** The error text a call writes into the dict object [r]: only
    [fail_job] writes into a dict, and into the one its job refers to. *)
Definition error_written (o : op) (JOBS : jobs) (r : ref) : option string :=
  match o with
  | FailJob j e =>
      match JOBS !! j with
      | Some job => if decide (result job = r) then Some e else None
      | None => None
      end
  | _ => None
  end.

(** What the result of the job [k] holds. *)
Definition result_of (st : jobs * objects) (k : string) : option pydict :=
  job ← st.1 !! k; st.2 !! result job.

(** The dict a caller hands to a call. *)
Definition result_arg (o : op) : option ref :=
  match o with
  | UpdateResult _ r | CompleteJob _ r => Some r
  | _ => None
  end.

(** Every job refers to a dict that exists. *)
Definition refs_exist (st : jobs * objects) : Prop :=
  forall k job, st.1 !! k = Some job -> is_Some (st.2 !! result job).

(** The percentage of [p] of [t] is computed and lies in [0, 100]. *)
Definition percent_in_range (p t : Z) : bool :=
  match percent_of p t with
  | Some pct => (0 <=? pct) && (pct <=? 100)
  | None => false
  end.

(** The values [processed] and [total] have after the optional arguments
    are stored. *)
Definition new_processed (job : Job) (processed : option Z) : Z :=
  default (JobManager.processed (progress job)) processed.

Definition new_total (job : Job) (total : option Z) : Z :=
  default (JobManager.total (progress job)) total.

(** The [progress] dict after the optional arguments are stored and
    before the percentage is recomputed. *)
Definition stored_progress (job : Job) (current_file : option string)
    (processed total : option Z) : Progress :=
  {| current_file := default (JobManager.current_file (progress job)) current_file;
     processed := new_processed job processed;
     total := new_total job total;
     percentage := percentage (progress job) |}.

Definition with_percentage (pct : Z) (p : Progress) : Progress :=
  {| current_file := JobManager.current_file p;
     processed := JobManager.processed p;
     total := JobManager.total p;
     percentage := pct |}.

(** A call that creates a job. *)
Definition creates (o : op) : bool :=
  match o with CreateJob _ => true | _ => false end.

(** Times as seconds since the epoch written in decimal digits stand in
    for ISO texts in the examples: the text "100" is the time 100. *)
Definition sample_time (s : string) : option Z :=
  if String.eqb s "100" then Some 100
  else if String.eqb s "200" then Some 200
  else None.

(** A job created at [t]; the result dict plays no part in the
    cleanup. *)
Definition job_created (t : string) : Job :=
  {| status := "completed"; logs := [];
     progress := {| current_file := ""; processed := 0; total := 0;
                    percentage := 0 |};
     result := 1%positive; created_at := t; updated_at := t |}.

Definition three_jobs : jobs :=
  {[ "old" := job_created "100"; "new" := job_created "200";
     "odd" := job_created "yesterday" ]}.

End JobSpec.

Module OrchestratorSpec.
Import Py Findings Orchestrator.

(** A branch that did not return: it timed out or raised. *)
Definition failed (o : branch_outcome) : Prop :=
  o = TimedOut \/ exists msg, o = Raised msg.

(** The findings a branch contributes to the run. *)
Definition kept (o : branch_outcome) : list UnifiedFinding :=
  match o with
  | Returned found => found
  | TimedOut | Raised _ => []
  end.

(** An entry of the code graph whose graph is a dict. *)
Definition is_dict_entry (kv : string * pyval) : bool :=
  match kv.2 with PDict _ => true | _ => false end.

(** A value the loops of [_build_ai_context] can go through: one that is
    false, a list or a string. *)
Definition listable (v : pyval) : Prop :=
  truthy v = false \/ (exists l, v = PList l) \/ (exists s, v = PStr s).

(** Every graph of the code graph has listable functions and classes. *)
Definition listable_graphs (code_graph : pydict) : Prop :=
  forall file_path graph, (file_path, PDict graph) ∈ code_graph ->
    listable (dict_get graph "functions" PNone) /\
    listable (dict_get graph "classes" PNone).

(** The four kinds of parts of a context. *)
Definition part_shape (code_graph : pydict) (part : string) : Prop :=
  (exists file_path graph, (file_path, PDict graph) ∈ code_graph /\
     part = "## " +:+ file_path) \/
  part = "Functions:" \/ part = "Classes:" \/
  (exists rest, part = "  - " +:+ rest).

(** A code graph of one file with two functions and a class, and a file
    whose graph was not built. *)
Definition sample_code_graph : pydict :=
  [ ("a.py",
     PDict [ ("functions",
              PList [ PDict [("name", PStr "f"); ("signature", PStr "f(x)")];
                      PStr "g";
                      PDict [("name", PStr "h")] ]);
             ("classes", PList [ PDict [("name", PStr "A")] ]) ]);
    ("b.py", PNone) ].

(** One round of the loop over [needs_fix] in [_generate_missing_fixes]. *)
Definition fix_round (_generate_fix : nat -> UnifiedFinding -> option GeneratedFix)
    (i : nat) (finding : UnifiedFinding) : UnifiedFinding :=
  match _generate_fix i finding with
  | Some fix_ => set_fix (Some fix_) finding
  | None => finding
  end.

End OrchestratorSpec.

(* ===================================================================== *)
(** * Properties of the findings model                                    *)
(* ===================================================================== *)

Module PyFacts.
Import Py Findings.

(** The literals are binary64 numbers. *)
Lemma literals_valid :
  valid_binary prec emax float_0_95 = true /\
  valid_binary prec emax float_0_75 = true /\
  valid_binary prec emax float_100 = true.
Proof. by repeat split. Qed.

(** [10 == 10.0] and [True == 1]: equal numbers are one dictionary key,
    whatever their type; [0.5] is no integer. *)
Lemma key_of_numbers :
  key_of (PFloat (S754_finite false 5629499534213120 (-49))) = key_of (PInt 10) /\
  key_of (PBool true) = key_of (PInt 1) /\
  key_of (PFloat (S754_zero true)) = key_of (PInt 0) /\
  key_of (PFloat (S754_finite false 4503599627370496 (-53)))
    = Some (HDyadic false 1 (-1)).
Proof. by repeat split. Qed.

(** [int(2.75) == 2], [int(-2.75) == -2] and [float(3) == 3.0]. *)
Lemma int_float_conversions :
  Z_of_float (S754_finite false 6192449487634432 (-51)) = Some 2 /\
  Z_of_float (S754_finite true 6192449487634432 (-51)) = Some (-2) /\
  float_of_Z 3 = Some (S754_finite false 6755399441055744 (-51)) /\
  float_of_Z (2 ^ 1024) = None.
Proof. by vm_compute. Qed.

Lemma normalize_for_dedup_example :
  normalize_for_dedup (PStr "  Null Dereference in Parser ")
  = Some "null dereference in parser".
Proof. reflexivity. Qed.

Lemma str_after_last_examples :
  str_after_last ":" "proj:src/a.py" = "src/a.py" /\
  str_after_last ":" "a:b:c" = "c" /\
  str_after_last ":" "plain" = "plain".
Proof. by repeat split. Qed.

(** ** Concatenation *)

Lemma str_app_cons c a b : String c a +:+ b = String c (a +:+ b).
Proof. reflexivity. Qed.

Lemma str_app_nil b : "" +:+ b = b.
Proof. reflexivity. Qed.




End PyFacts.

Module FindingsFacts.
Import Py Findings FindingsSpec.

(** ** The quality gate *)

Lemma count_if_pos (P : UnifiedFinding -> bool) (fs : list UnifiedFinding) :
  (count_if P fs >? 0) = true <-> exists f, f ∈ fs /\ P f = true.
Proof.
  unfold count_if. rewrite Z.gtb_lt.
  induction fs as [|g fs IH].
  - cbn. split; [lia|]. intros (f & Hf & _). by apply elem_of_nil in Hf.
  - rewrite filter_cons. destruct (decide (P g = true)) as [Hg|Hg].
    + split; [|cbn; lia]. intros _. exists g. split; [left|done].
    + rewrite IH. split.
      * intros (f & Hf & HP). exists f. split; [by right|done].
      * intros (f & Hf & HP). apply elem_of_cons in Hf as [->|Hf]; [done|].
        by exists f.
Qed.

Lemma count_if_filter (P : UnifiedFinding -> bool) (Q : UnifiedFinding -> Prop)
    `{!forall f, Decision (Q f)} (fs : list UnifiedFinding) :
  (forall f, P f = true <-> Q f) ->
  count_if P fs = Z.of_nat (length (filter Q fs)).
Proof.
  intros HPQ. unfold count_if. f_equal.
  induction fs as [|g fs IH]; [done|].
  rewrite !filter_cons.
  destruct (decide (P g = true)) as [Hg|Hg], (decide (Q g)) as [Hq|Hq];
    cbn; rewrite ?IH; try done; exfalso.
  - by apply Hq, HPQ.
  - by apply Hg, HPQ.
Qed.

(** [C1] For every list of findings the gate is "failed" exactly when some
    finding has severity critical or category security; otherwise
    "warning" exactly when more than two findings have severity high;
    otherwise "passed". *)
Theorem C1_quality_gate (fs : list UnifiedFinding) :
  let blocked := exists f, f ∈ fs /\ blocking f in
  let highs := length (filter (fun f => severity f = "high") fs) in
  (determine_quality_gate fs = "failed" <-> blocked) /\
  (determine_quality_gate fs = "warning" <-> ~ blocked /\ (2 < highs)%nat) /\
  (determine_quality_gate fs = "passed" <-> ~ blocked /\ (highs <= 2)%nat).
Proof.
  intros blocked highs.
  assert (Hb : (count_if (fun f => String.eqb (severity f) FindingSeverity.CRITICAL) fs >? 0)
               || (count_if (fun f => String.eqb (category f) FindingCategory.SECURITY) fs >? 0)
               = true <-> blocked).
  { rewrite orb_true_iff, !count_if_pos. unfold blocked, blocking. split.
    - intros [(f & Hf & E)|(f & Hf & E)]; apply String.eqb_eq in E; eauto.
    - intros (f & Hf & [E|E]); [left|right]; exists f;
        (split; [done|by apply String.eqb_eq]). }
  assert (Hh : count_if (fun f => String.eqb (severity f) FindingSeverity.HIGH) fs
               = Z.of_nat highs).
  { apply count_if_filter. intros f. apply String.eqb_eq. }
  unfold determine_quality_gate. rewrite Hh.
  destruct (_ || _).
  - assert blocked by (by apply Hb). repeat split; try done; tauto.
  - assert (~ blocked) by (intros B; apply Hb in B; congruence).
    destruct (Z.gtb_spec (Z.of_nat highs) 2).
    + repeat split; try done; try tauto; intros; lia.
    + repeat split; try done; try tauto; intros; lia.
Qed.

(** ** Comparing confidences *)

Lemma SFcompare_antisym (x y : float) :
  SFcompare y x = CompOpp <$> SFcompare x y.
Proof.
  destruct x as [sx|sx| |sx mx ex], y as [sy|sy| |sy my ey]; cbn;
    try done; try (by destruct sx); try (by destruct sy);
    try (by destruct sx, sy).
  pose proof (Pos.compare_cont_antisym mx my Eq) as E. cbn in E.
  destruct sx, sy; cbn; try done; f_equal;
    rewrite (Z.compare_antisym ex ey);
    destruct (ex ?= ey); cbn; try done;
    rewrite <- E; by rewrite ?CompOpp_involutive.
Qed.

(** [a > b] excludes [b > a]. *)
Lemma float_gt_asym (a b : float) :
  float_gt a b = true -> float_gt b a = false.
Proof.
  unfold float_gt, SFltb. rewrite (SFcompare_antisym b a).
  by destruct (SFcompare b a) as [[]|].
Qed.

(** [a == b] excludes [b > a]. *)
Lemma float_eq_not_gt (a b : float) :
  float_eq a b = true -> float_gt b a = false.
Proof.
  unfold float_eq, float_gt, SFeqb, SFltb.
  by destruct (SFcompare a b) as [[]|].
Qed.

(** ** Deduplication: one merge *)

Lemma same_finding_refl f : same_finding f f.
Proof. by repeat split. Qed.

Lemma same_finding_trans f g h :
  same_finding f g -> same_finding g h -> same_finding f h.
Proof. unfold same_finding. intros ? ?. intuition congruence. Qed.

Lemma same_finding_key f w : same_finding f w -> dedup_key w = dedup_key f.
Proof.
  unfold same_finding, dedup_key. intros (_&_&_&_&->&->&_&->&_). done.
Qed.

Lemma merge_merged_into (winner loser : UnifiedFinding) :
  merged_into winner loser
    (adopt_fix loser (append_also_found_by (source loser) winner)).
Proof.
  unfold merged_into, adopt_fix, same_finding.
  destruct winner as [? ? ? ? ? ? ? ? ? ? [x|] ? ? ? ?],
           loser as [? ? ? ? ? ? ? ? ? ? [y|] ? ? ? ?]; cbn; by repeat split.
Qed.

Lemma seen_lookup_store_eq key v seen :
  seen_lookup key (seen_store key v seen) = Some v.
Proof.
  induction seen as [|[k w] r IH]; cbn.
  - by rewrite decide_True.
  - destruct (decide (k = key)) as [->|Hne]; cbn.
    + by rewrite decide_True.
    + by rewrite decide_False.
Qed.

Lemma seen_lookup_store_ne key key' v seen :
  key <> key' -> seen_lookup key' (seen_store key v seen) = seen_lookup key' seen.
Proof.
  intros Hne. induction seen as [|[k w] r IH]; cbn.
  - by rewrite decide_False.
  - destruct (decide (k = key)) as [->|Hk]; cbn.
    + by rewrite !decide_False.
    + by rewrite IH.
Qed.

(** What one turn of the loop does when the key of [finding] is already
    in [seen]. *)
Lemma dedup_step_merge seen finding existing key :
  dedup_key finding = Some key ->
  seen_lookup key seen = Some existing ->
  exists w, dedup_step seen finding = Some (seen_store key w seen) /\
    (float_gt (confidence finding) (confidence existing) = true ->
       merged_into finding existing w) /\
    (float_gt (confidence finding) (confidence existing) = false ->
       merged_into existing finding w).
Proof.
  intros Hk Hl. unfold dedup_step. rewrite Hk. cbn. rewrite Hl.
  destruct (float_gt _ _); eexists; (split; [done|]);
    split; intros ?; try done; apply merge_merged_into.
Qed.

(** ** Deduplication: the loop invariant *)

Lemma seen_store_keys key v (seen : seen_t) :
  (seen_store key v seen).*1
  = if decide (key ∈ seen.*1) then seen.*1 else seen.*1 ++ [key].
Proof.
  induction seen as [|[k w] r IH]; cbn.
  - rewrite decide_False; [done|]. apply not_elem_of_nil.
  - destruct (decide (k = key)) as [->|Hk]; cbn.
    + rewrite decide_True; [done|]. left.
    + rewrite IH. destruct (decide (key ∈ r.*1)) as [Hin|Hin].
      * rewrite decide_True; [done|]. by right.
      * rewrite decide_False; [done|].
        intros [E|?]%elem_of_cons; [by subst|done].
Qed.

Lemma Forall_seen_store (P : dedup_key_t * UnifiedFinding -> Prop) key v
    (seen : seen_t) :
  NoDup seen.*1 ->
  Forall (fun kw => kw.1 <> key -> P kw) seen ->
  P (key, v) ->
  Forall P (seen_store key v seen).
Proof.
  intros Hnd Hall Hv. induction seen as [|[k w] r IH]; cbn [seen_store].
  - by constructor.
  - rewrite fmap_cons in Hnd.
    apply NoDup_cons in Hnd as [Hk Hnd]. apply Forall_cons in Hall as [Hw Hall].
    destruct (decide (k = key)) as [->|Hne].
    + constructor; [done|]. apply Forall_forall. intros kw Hin.
      rewrite Forall_forall in Hall. apply Hall; [done|]. intros E.
      apply Hk. cbn [fst]. rewrite <- E. by apply (list_elem_of_fmap_2 fst).
    + constructor; [by apply Hw|by apply IH].
Qed.

Lemma seen_lookup_Some key w (seen : seen_t) :
  seen_lookup key seen = Some w -> (key, w) ∈ seen.
Proof.
  induction seen as [|[k v] r IH]; cbn; [done|].
  destruct (decide (k = key)) as [->|Hne].
  - intros [= ->]. left.
  - intros Hl. right. by apply IH.
Qed.

Lemma seen_lookup_None key (seen : seen_t) :
  seen_lookup key seen = None -> key ∉ seen.*1.
Proof.
  induction seen as [|[k v] r IH]; cbn; [intros _; apply not_elem_of_nil|].
  destruct (decide (k = key)) as [->|Hne]; [done|].
  intros Hl [E|Hin]%elem_of_cons; [by subst|by apply IH].
Qed.

Lemma seen_inv_nil : seen_inv [] [].
Proof.
  split; [constructor|]. split; [constructor|].
  intros f key Hf. by apply elem_of_nil in Hf.
Qed.

(** Entries under other keys are not affected by a finding with key
    [key]. *)
Lemma entry_ok_snoc_other prefix g key kw :
  dedup_key g = Some key -> kw.1 <> key ->
  entry_ok prefix kw -> entry_ok (prefix ++ [g]) kw.
Proof.
  intros Hg Hne (Hkey & i & f & Hi & Hsame & Hlater).
  split; [done|]. exists i, f.
  pose proof (lookup_lt_Some _ _ _ Hi) as Hlt.
  split; [by rewrite lookup_app_l|]. split; [done|].
  intros j h Hij Hj Hh.
  apply lookup_snoc_Some in Hj as [[Hjl Hj]|[-> ->]].
  - by eapply Hlater.
  - congruence.
Qed.

Lemma seen_inv_store prefix seen g key w :
  seen_inv prefix seen ->
  dedup_key g = Some key ->
  entry_ok (prefix ++ [g]) (key, w) ->
  seen_inv (prefix ++ [g]) (seen_store key w seen).
Proof.
  intros (Hnd & Hall & Hrep) Hg Hw. split; [|split].
  - rewrite seen_store_keys. case_decide; [done|].
    apply NoDup_app. split; [done|]. split; [|apply NoDup_singleton].
    intros k Hk ->%list_elem_of_singleton. done.
  - apply Forall_seen_store; [done| |done].
    eapply Forall_impl; [exact Hall|]. intros kw Hkw Hne.
    by eapply entry_ok_snoc_other.
  - intros f k [Hf| ->%list_elem_of_singleton]%elem_of_app Hk.
    + destruct (decide (key = k)) as [->|Hne].
      * rewrite seen_lookup_store_eq. by eexists.
      * rewrite seen_lookup_store_ne; [|done]. by eapply Hrep.
    + assert (k = key) as -> by congruence.
      rewrite seen_lookup_store_eq. by eexists.
Qed.

(** A finding that enters [seen] at the end of the findings seen so far. *)
Lemma entry_ok_new prefix g key w :
  dedup_key g = Some key -> same_finding g w ->
  entry_ok (prefix ++ [g]) (key, w).
Proof.
  intros Hg Hsame. split; [cbn; by rewrite (same_finding_key g w)|].
  exists (length prefix), g. split; [by rewrite list_lookup_middle|].
  split; [done|]. intros j h Hj Hl.
  apply lookup_lt_Some in Hl. rewrite length_app in Hl. cbn in Hl. lia.
Qed.

(** A finding that stays in [seen] while [g] is merged into it. *)
Lemma entry_ok_keep prefix g key existing w :
  dedup_key g = Some key ->
  entry_ok prefix (key, existing) ->
  merged_into existing g w ->
  entry_ok (prefix ++ [g]) (key, w).
Proof.
  intros Hg (Hkey & i & f & Hi & Hsame & Hlater) (Hm & Hafb & _). cbn in *.
  split; [cbn; by rewrite (same_finding_key existing w)|].
  exists i, f. pose proof (lookup_lt_Some _ _ _ Hi) as Hlt.
  split; [by rewrite lookup_app_l|].
  split; [by eapply same_finding_trans|].
  intros j h Hij Hj Hh. cbn. rewrite Hafb. apply elem_of_app.
  apply lookup_snoc_Some in Hj as [[Hjl Hj]|[-> ->]].
  - left. by eapply Hlater.
  - right. by apply list_elem_of_singleton.
Qed.

Lemma dedup_step_inv prefix seen g seen' :
  seen_inv prefix seen ->
  dedup_step seen g = Some seen' ->
  seen_inv (prefix ++ [g]) seen'.
Proof.
  intros Hinv Hstep.
  destruct (dedup_key g) as [key|] eqn:Hg;
    [|unfold dedup_step in Hstep; by rewrite Hg in Hstep].
  destruct (seen_lookup key seen) as [existing|] eqn:Hl.
  - destruct (dedup_step_merge seen g existing key Hg Hl)
      as (w & Hstep' & Hgt & Hle).
    rewrite Hstep' in Hstep. injection Hstep as <-.
    apply seen_inv_store; [done..|].
    destruct (float_gt (confidence g) (confidence existing)).
    + destruct (Hgt eq_refl) as (Hsame & _). by apply entry_ok_new.
    + eapply entry_ok_keep; [done| |by apply Hle].
      destruct Hinv as (_ & Hall & _). rewrite Forall_forall in Hall.
      by apply Hall, seen_lookup_Some.
  - unfold dedup_step in Hstep. rewrite Hg in Hstep. cbn in Hstep.
    rewrite Hl in Hstep. injection Hstep as <-.
    apply seen_inv_store; [done..|].
    apply entry_ok_new; [done|apply same_finding_refl].
Qed.

Lemma dedup_loop_inv fs prefix seen seen' :
  seen_inv prefix seen ->
  dedup_loop seen fs = Some seen' ->
  seen_inv (prefix ++ fs) seen'.
Proof.
  revert prefix seen. induction fs as [|g fs IH]; intros prefix seen Hinv; cbn.
  - intros [= <-]. by rewrite app_nil_r.
  - destruct (dedup_step seen g) as [seen1|] eqn:Hstep; [|done]. cbn.
    intros Hloop. rewrite (cons_middle g prefix fs), app_assoc.
    eapply IH; [|done]. by eapply dedup_step_inv.
Qed.

(** The loop raises only where a key cannot be built. *)
Lemma dedup_step_total seen g :
  is_Some (dedup_key g) -> is_Some (dedup_step seen g).
Proof.
  intros [key Hg]. unfold dedup_step. rewrite Hg. cbn.
  destruct (seen_lookup key seen); [destruct (float_gt _ _)|]; by eexists.
Qed.

Lemma dedup_loop_total fs seen :
  Forall (fun f => is_Some (dedup_key f)) fs -> is_Some (dedup_loop seen fs).
Proof.
  revert seen. induction fs as [|g fs IH]; intros seen Hall; cbn.
  - by eexists.
  - apply Forall_cons in Hall as [Hg Hall].
    destruct (dedup_step_total seen g Hg) as [seen1 ->]. cbn. by apply IH.
Qed.

(** [deduplicate_findings] raises exactly when the key of some finding
    cannot be built. *)
Lemma dedup_loop_raises fs seen :
  Exists (fun f => dedup_key f = None) fs -> dedup_loop seen fs = None.
Proof.
  intros Hex. revert seen. induction Hex as [g fs Hg|g fs Hex IH]; intros seen; cbn.
  - unfold dedup_step. by rewrite Hg.
  - destruct (dedup_step seen g); [apply IH|done].
Qed.

Lemma deduplicate_findings_raises_iff fs :
  deduplicate_findings fs = None <-> Exists (fun f => dedup_key f = None) fs.
Proof.
  split.
  - intros Hnone.
    destruct (decide (Forall (fun f => is_Some (dedup_key f)) fs)) as [Hall|Hall].
    + destruct (dedup_loop_total fs [] Hall) as [seen Hseen].
      unfold deduplicate_findings in Hnone. by rewrite Hseen in Hnone.
    + apply not_Forall_Exists in Hall; [|apply _].
      eapply Exists_impl; [exact Hall|]. intros f Hf. cbn in Hf.
      destruct (dedup_key f); [|done]. exfalso. apply Hf. by eexists.
  - intros Hex. unfold deduplicate_findings.
    by rewrite dedup_loop_raises.
Qed.

(** ** Deduplication: the returned list *)

(** ** Deduplication: lists without a shared key, and parts of a list *)

Lemma seen_store_fresh key v (seen : seen_t) :
  key ∉ seen.*1 -> seen_store key v seen = seen ++ [(key, v)].
Proof.
  induction seen as [|[k w] r IH]; cbn [seen_store]; [done|].
  rewrite fmap_cons. intros Hnot%not_elem_of_cons. destruct Hnot as [Hne Hnot].
  cbn in Hne. rewrite decide_False by done. cbn. by rewrite IH.
Qed.

Lemma seen_lookup_fresh key (seen : seen_t) :
  key ∉ seen.*1 -> seen_lookup key seen = None.
Proof.
  induction seen as [|[k w] r IH]; cbn [seen_lookup]; [done|].
  rewrite fmap_cons. intros Hnot%not_elem_of_cons. destruct Hnot as [Hne Hnot].
  cbn in Hne. rewrite decide_False by done. by apply IH.
Qed.

Lemma dedup_loop_fresh (entries seen : seen_t) :
  Forall (fun kw => dedup_key kw.2 = Some kw.1) entries ->
  NoDup (seen.*1 ++ entries.*1) ->
  dedup_loop seen entries.*2 = Some (seen ++ entries).
Proof.
  revert seen. induction entries as [|[k g] entries IH]; intros seen Hkeys Hnd.
  - cbn. by rewrite app_nil_r.
  - apply Forall_cons in Hkeys as [Hk Hkeys]. cbn in Hk.
    rewrite fmap_cons in Hnd. cbn [fst] in Hnd.
    assert (Hfresh : k ∉ seen.*1).
    { apply NoDup_app in Hnd as (_ & Hdis & _). intros Hin.
      apply (Hdis k Hin). left. }
    rewrite fmap_cons. cbn [snd dedup_loop].
    unfold dedup_step. rewrite Hk. cbn [mbind option_bind].
    rewrite seen_lookup_fresh, seen_store_fresh by done. cbn [mbind option_bind].
    rewrite (IH (seen ++ [(k, g)])); [|done|].
    + by rewrite <- app_assoc.
    + rewrite fmap_app, <- app_assoc. done.
Qed.

Lemma seen_lookup_elem key w (seen : seen_t) :
  NoDup seen.*1 -> (key, w) ∈ seen -> seen_lookup key seen = Some w.
Proof.
  induction seen as [|[k v] r IH]; [by intros _ ?%elem_of_nil|].
  rewrite fmap_cons. intros [Hk Hnd]%NoDup_cons.
  intros [[= <- <-]|Hin]%elem_of_cons; cbn [seen_lookup].
  - by rewrite decide_True.
  - rewrite decide_False; [by apply IH|]. intros ->. apply Hk.
    by apply (list_elem_of_fmap_2 fst) in Hin.
Qed.

(** A list in which no two findings share a key comes back as it is. *)
Lemma dedup_distinct (fs : list UnifiedFinding) :
  Forall (fun f => is_Some (dedup_key f)) fs ->
  NoDup (dedup_key <$> fs) -> deduplicate_findings fs = Some fs.
Proof.
  intros Hkeys Hnd.
  assert (Hent : exists entries : seen_t,
            entries.*2 = fs /\ Some <$> entries.*1 = dedup_key <$> fs /\
            Forall (fun kw => dedup_key kw.2 = Some kw.1) entries).
  { clear Hnd. induction Hkeys as [|f fs [k Hk] _ (entries & E2 & E1 & Hall)].
    - by exists [].
    - exists ((k, f) :: entries). rewrite !fmap_cons. cbn [fst snd].
      rewrite E2, E1, Hk. split; [done|]. split; [done|]. by constructor. }
  destruct Hent as (entries & <- & E1 & Hall).
  unfold deduplicate_findings.
  rewrite (dedup_loop_fresh entries [] Hall); [done|].
  cbn [fmap list_fmap app]. rewrite <- E1 in Hnd.
  by apply (NoDup_fmap_1 Some).
Qed.

Lemma dedup_loop_app seen l l' :
  dedup_loop seen (l ++ l') = seen' ← dedup_loop seen l; dedup_loop seen' l'.
Proof.
  revert seen. induction l as [|g l IH]; intros seen; [done|]. cbn.
  destruct (dedup_step seen g); [apply IH|done].
Qed.

(** A turn of the loop writes the entry of the finding's key, and no
    other. *)
Lemma dedup_step_store seen g key :
  dedup_key g = Some key ->
  exists v, dedup_step seen g = Some (seen_store key v seen).
Proof.
  intros Hg. unfold dedup_step. rewrite Hg. cbn.
  destruct (seen_lookup key seen); [destruct (float_gt _ _)|]; by eexists.
Qed.

(** Findings with other keys leave the entry of [key] as it is. *)
Lemma dedup_loop_other key l seen :
  Forall (fun f => is_Some (dedup_key f)) l ->
  Forall (fun f => dedup_key f <> Some key) l ->
  exists seen', dedup_loop seen l = Some seen' /\
    seen_lookup key seen' = seen_lookup key seen.
Proof.
  revert seen. induction l as [|g l IH]; intros seen Hkeys Hother.
  - by exists seen.
  - apply Forall_cons in Hkeys as [[k Hk] Hkeys].
    apply Forall_cons in Hother as [Hne Hother].
    destruct (dedup_step_store seen g k Hk) as [v Hstep].
    destruct (IH (seen_store k v seen) Hkeys Hother) as (seen' & Hloop & Hl).
    exists seen'. cbn. rewrite Hstep. cbn. split; [done|].
    rewrite Hl. apply seen_lookup_store_ne. congruence.
Qed.

(** ** Deduplication: the tie-break *)

(** [C2], as stated, fails on three findings with one key: the AI report
    is strictly more confident than the manual one, yet neither of the
    two is kept, and the source of the manual report is recorded
    nowhere. *)
Lemma C2_counterexample :
  dedup_key report_ai = dedup_key report_manual /\
  float_gt (confidence report_ai) (confidence report_manual) = true /\
  exists w,
    deduplicate_findings [report_manual; report_ai; report_sonar] = Some [w] /\
    id w = "sonar-1" /\ also_found_by w = ["pr_agent"].
Proof. split; [reflexivity|]. split; [reflexivity|]. by eexists. Qed.

(** [C2], amended.  The tie-break is the rule of one merge.  Whenever the
    loop meets a finding whose key [seen] already holds, it keeps the
    arriving finding if that is strictly more confident than the held
    one, and the held one otherwise (so also on equal confidences); the
    source of the other is appended to the [also_found_by] of the kept
    finding, which adopts the other's fix when it has none.  So of a
    list in which exactly two findings share a key, wherever they stand,
    the returned list holds for that key the strictly more confident of
    the two, the earlier on equal confidences, merged with the other, and
    nothing else. *)
Theorem C2_tie_break :
  (forall seen finding existing key,
     dedup_key finding = Some key ->
     seen_lookup key seen = Some existing ->
     exists w, dedup_step seen finding = Some (seen_store key w seen) /\
       (float_gt (confidence finding) (confidence existing) = true ->
          merged_into finding existing w) /\
       (float_gt (confidence finding) (confidence existing) = false ->
          merged_into existing finding w) /\
       (float_gt (confidence existing) (confidence finding) = true ->
          merged_into existing finding w) /\
       (float_eq (confidence existing) (confidence finding) = true ->
          merged_into existing finding w)) /\
  (forall l1 a l2 b l3 key,
     Forall (fun f => is_Some (dedup_key f)) (l1 ++ l2 ++ l3) ->
     Forall (fun f => dedup_key f <> Some key) (l1 ++ l2 ++ l3) ->
     dedup_key a = Some key ->
     dedup_key b = Some key ->
     exists out w,
       deduplicate_findings (l1 ++ a :: l2 ++ b :: l3) = Some out /\
       w ∈ out /\
       (forall v, v ∈ out -> dedup_key v = Some key -> v = w) /\
       (float_gt (confidence b) (confidence a) = true -> merged_into b a w) /\
       (float_gt (confidence b) (confidence a) = false -> merged_into a b w) /\
       (float_gt (confidence a) (confidence b) = true -> merged_into a b w) /\
       (float_eq (confidence a) (confidence b) = true -> merged_into a b w)).
Proof.
  split.
  - intros seen finding existing key Hk Hl.
    destruct (dedup_step_merge seen finding existing key Hk Hl)
      as (w & Hstep & Hgt & Hle).
    exists w. split; [done|]. split; [done|]. split; [done|].
    split; intros E; apply Hle.
    + by apply float_gt_asym.
    + by apply float_eq_not_gt.
  - intros l1 a l2 b l3 key Hkeys Hother Ha Hb.
    apply Forall_app in Hkeys as [Hk1 [Hk2 Hk3]%Forall_app].
    apply Forall_app in Hother as [Ho1 [Ho2 Ho3]%Forall_app].
    destruct (dedup_loop_other key l1 [] Hk1 Ho1) as (s1 & Hs1 & Hl1).
    cbn in Hl1.
    assert (Hstep_a : dedup_step s1 a = Some (seen_store key a s1)).
    { unfold dedup_step. rewrite Ha. cbn. by rewrite Hl1. }
    destruct (dedup_loop_other key l2 (seen_store key a s1) Hk2 Ho2)
      as (s2 & Hs2 & Hl2).
    rewrite seen_lookup_store_eq in Hl2.
    destruct (dedup_step_merge s2 b a key Hb Hl2) as (w & Hstep_b & Hgt & Hle).
    destruct (dedup_loop_other key l3 (seen_store key w s2) Hk3 Ho3)
      as (s3 & Hs3 & Hl3).
    rewrite seen_lookup_store_eq in Hl3.
    assert (Hloop : dedup_loop [] (l1 ++ a :: l2 ++ b :: l3) = Some s3).
    { rewrite dedup_loop_app, Hs1. cbn. rewrite Hstep_a. cbn.
      rewrite dedup_loop_app, Hs2. cbn. by rewrite Hstep_b. }
    destruct (dedup_loop_inv _ [] [] s3 seen_inv_nil Hloop) as (Hnd & Hall & _).
    exists (s3.*2), w. split; [unfold deduplicate_findings; by rewrite Hloop|].
    split; [apply seen_lookup_Some in Hl3; by apply (list_elem_of_fmap_2 snd) in Hl3|].
    split.
    { intros v ([k v'] & -> & Hin)%list_elem_of_fmap Hv. cbn in *.
      rewrite Forall_forall in Hall. destruct (Hall _ Hin) as [Hkv _].
      cbn in Hkv. assert (k = key) as -> by congruence.
      apply (seen_lookup_elem _ _ _ Hnd) in Hin. congruence. }
    split; [done|]. split; [done|]. split; intros E; apply Hle.
    + by apply float_gt_asym.
    + by apply float_eq_not_gt.
Qed.

(** [C2], amended, on the reports of the static scanner (0.95) and of the
    AI review (0.75) with a report for another file between them: the
    scanner's report is kept and lists "pr_agent". *)
Lemma C2_tie_break_witness :
  exists out w,
    deduplicate_findings [report_sonar; report_elsewhere; report_ai] = Some out /\
    w ∈ out /\ id w = "sonar-1" /\ also_found_by w = ["pr_agent"].
Proof.
  destruct (proj2 C2_tie_break [] report_sonar [report_elsewhere] report_ai []
              (HStr "src/a.py", HInt 10, "null dereference"))
    as (out & w & Hout & Hw & _ & _ & _ & Hgt & _).
  - repeat constructor. by eexists.
  - repeat constructor. discriminate.
  - reflexivity.
  - reflexivity.
  - exists out, w. split; [exact Hout|]. split; [exact Hw|].
    destruct (Hgt eq_refl) as (Hsame & Hafb & _).
    split; [exact (proj1 Hsame)|exact Hafb].
Defined.

(** [C6], as stated, fails on three findings with one key: of the pair
    (manual, AI) neither survives, and the survivor, the scanner's report,
    does not list the source of the manual report. *)
Lemma C6_counterexample :
  dedup_key report_manual = dedup_key report_sonar /\
  dedup_key report_ai = dedup_key report_manual /\
  deduplicate_findings [report_manual; report_ai; report_sonar]
    = Some [append_also_found_by "pr_agent" report_sonar] /\
  source report_manual ∉
    also_found_by (append_also_found_by "pr_agent" report_sonar).
Proof.
  repeat split; try reflexivity.
  cbn. intros [E|E]%elem_of_cons; [discriminate E|by apply elem_of_nil in E].
Qed.

(** What [deduplicate_findings] returns on findings whose key can be
    built. *)
Lemma deduplicate_findings_spec (fs : list UnifiedFinding) :
  Forall (fun f => is_Some (dedup_key f)) fs ->
  exists out, deduplicate_findings fs = Some out /\
    (forall i j u v, out !! i = Some u -> out !! j = Some v ->
       dedup_key u = dedup_key v -> i = j) /\
    (forall f, f ∈ fs -> exists w, w ∈ out /\ dedup_key w = dedup_key f) /\
    (forall w, w ∈ out ->
       exists i f, fs !! i = Some f /\ same_finding f w /\
         forall j g, (i < j)%nat -> fs !! j = Some g ->
           dedup_key g = dedup_key w -> source g ∈ also_found_by w).
Proof.
  intros Hkeys.
  destruct (dedup_loop_total fs [] Hkeys) as [seen Hloop].
  destruct (dedup_loop_inv fs [] [] seen seen_inv_nil Hloop)
    as (Hnd & Hall & Hrep).
  rewrite app_nil_l in Hall, Hrep. rewrite Forall_forall in Hall.
  exists (seen.*2). split; [unfold deduplicate_findings; by rewrite Hloop|].
  assert (Hentry : forall i w, seen.*2 !! i = Some w ->
            exists key, seen !! i = Some (key, w) /\ entry_ok fs (key, w)).
  { intros i w Hi. apply list_lookup_fmap_Some in Hi as ([key w'] & -> & Hi).
    exists key. split; [done|]. by eapply Hall, list_elem_of_lookup_2. }
  split; [|split].
  - intros i j u v Hi Hj Huv.
    destruct (Hentry i u Hi) as (ki & Hsi & Hki & _).
    destruct (Hentry j v Hj) as (kj & Hsj & Hkj & _). cbn in Hki, Hkj.
    assert (ki = kj) as -> by congruence.
    eapply (NoDup_lookup _ i j kj Hnd); rewrite list_lookup_fmap.
    + by rewrite Hsi.
    + by rewrite Hsj.
  - intros f Hf. rewrite Forall_forall in Hkeys.
    destruct (Hkeys f Hf) as [key Hkey].
    destruct (Hrep f key Hf Hkey) as [w Hw]. apply seen_lookup_Some in Hw.
    exists w. split.
    + by apply (list_elem_of_fmap_2 snd) in Hw.
    + destruct (Hall _ Hw) as (Hkw & _). cbn in Hkw. congruence.
  - intros w (i & Hi)%list_elem_of_lookup_1.
    destruct (Hentry i w Hi) as (key & _ & Hkey & j & f & Hj & Hsame & Hlater).
    cbn in *. exists j, f. split; [done|]. split; [done|].
    intros j' g Hlt Hg Hgw. eapply Hlater; [done..|]. by rewrite Hgw.
Qed.

(** [C6], amended.  On findings whose key can be built, deduplication
    returns a list in which no two findings share the dedup key; every
    input finding has its key on exactly one returned finding; and a
    returned finding is one of the input findings, whose [also_found_by]
    lists the source of every input finding with the same key that comes
    after it. *)
Theorem C6_dedup_keys (fs : list UnifiedFinding) :
  Forall (fun f => is_Some (dedup_key f)) fs ->
  exists out, deduplicate_findings fs = Some out /\
    (forall i j u v, out !! i = Some u -> out !! j = Some v ->
       dedup_key u = dedup_key v -> i = j) /\
    (forall f, f ∈ fs -> exists w, w ∈ out /\ dedup_key w = dedup_key f) /\
    (forall w, w ∈ out ->
       exists i f, fs !! i = Some f /\ same_finding f w /\
         forall j g, (i < j)%nat -> fs !! j = Some g ->
           dedup_key g = dedup_key w -> source g ∈ also_found_by w).
Proof. apply deduplicate_findings_spec. Qed.

(** [C6], amended, on the three reports: each of them has its key on a
    returned finding. *)
Lemma C6_dedup_keys_witness :
  exists out, deduplicate_findings [report_manual; report_ai; report_sonar]
              = Some out /\
    forall f, f ∈ [report_manual; report_ai; report_sonar] ->
      exists w, w ∈ out /\ dedup_key w = dedup_key f.
Proof.
  destruct (C6_dedup_keys [report_manual; report_ai; report_sonar])
    as (out & Hout & _ & Hrep & _).
  - repeat constructor; by eexists.
  - exists out. split; [exact Hout|exact Hrep].
Defined.

End FindingsFacts.

(* ===================================================================== *)
(** * Properties of the normalizers                                       *)
(* ===================================================================== *)

Module NormalizerFacts.
Import Py Findings NormalizerSpec.

(** [float_0_95] is a binary64 number, and the one nearest to 95/100:
    twice its distance to 0.95 is at most one unit in the last place. *)
Lemma float_0_95_nearest :
  valid_binary prec emax float_0_95 = true /\
  exists m, float_0_95 = S754_finite false m (-53) /\
    Z.abs (20 * Z.pos m - 19 * 2 ^ 53) <= 10.
Proof. split; [reflexivity|]. eexists. split; [reflexivity|]. by vm_compute. Qed.

Section WithBuiltins.
Context `{Builtins}.

(** [C5] The raw static issue of the scenario is normalized to a finding
    with category security, severity critical, file "src/a.py", rule id
    "S6334" and confidence 0.95, and this finding alone makes the quality
    gate "failed". *)
Theorem C5_secret_issue :
  exists f,
    sonar_response_to_unified [("vulnerabilities", PList [secret_issue])]
      = Some [f] /\
    category f = "security" /\ severity f = "critical" /\
    file f = PStr "src/a.py" /\ sonar_rule_id f = PStr "S6334" /\
    confidence f = float_0_95 /\
    start_line f = PInt 10 /\ source f = "sonar" /\
    determine_quality_gate [f] = "failed".
Proof. eexists. split; [reflexivity|]. by repeat split. Qed.

(** ** Titles *)

(** A chain of binds that returned: every step of it returned.  The
    tactic names the value of each step and leaves the final [Some]. *)
Ltac returned H :=
  repeat match type of H with
         | mbind _ ?m = Some _ =>
             let E := fresh "E" in
             destruct m eqn:E; [cbn [mbind option_bind] in H|discriminate H]
         | (let x := _ in _) = Some _ => cbv zeta in H
         end.

Lemma str_take_length n s : (String.length (str_take n s) <= n)%nat.
Proof.
  revert s. induction n as [|n IH]; intros [|c s]; cbn; try lia.
  specialize (IH s). lia.
Qed.











(** The issue handed to [sonar_to_unified] by the batch normalizer. *)
Lemma sonar_convert_issue_inv issue f :
  sonar_convert_issue issue = Some f ->
  exists normalized,
    sonar_to_unified normalized = Some f /\
    dict_lookup "end_line" normalized = None /\
    dict_lookup "start_line" normalized = None /\
    is_Some (dict_lookup "line" normalized).
Proof.
  unfold sonar_convert_issue. destruct issue as [| | | | | |d]; try done. cbn.
  destruct (py_has_colon _) as [c|]; [|done]. cbn.
  destruct c.
  - destruct (py_split_colon_last _); [|done]. cbn. intros Hf.
    eexists. split; [exact Hf|]. by repeat split; try eexists.
  - cbn. intros Hf. eexists. split; [exact Hf|]. by repeat split; try eexists.
Qed.




(** ** Lines *)

Lemma sonar_to_unified_lines issue f :
  sonar_to_unified issue = Some f ->
  start_line f = dict_get issue "line" (dict_get issue "start_line" (PInt 1)) /\
  end_line f = dict_get issue "end_line" (start_line f).
Proof.
  unfold sonar_to_unified. intros Hf. returned Hf. by injection Hf as <-.
Qed.

Lemma ai_to_unified_lines issue f :
  ai_to_unified issue = Some f ->
  exists a b,
    py_int (dict_get issue "start_line" (dict_get issue "line" (PInt 1)))
      = Some a /\
    py_int (dict_get issue "end_line"
              (dict_get issue "start_line" (dict_get issue "line" (PInt 1))))
      = Some b /\
    start_line f = PInt a /\ end_line f = PInt b.
Proof.
  unfold ai_to_unified. intros Hf. returned Hf. injection Hf as <-.
  by eexists _, _.
Qed.

(** [C9], as stated, fails: both single-issue normalizers copy an end
    line that lies before the start line. *)
Lemma C9_counterexample :
  start_line <$> ai_to_unified (H := sample_builtins)
                   [("start_line", PInt 10); ("end_line", PInt 5)]
    = Some (PInt 10) /\
  end_line <$> ai_to_unified (H := sample_builtins)
                 [("start_line", PInt 10); ("end_line", PInt 5)]
    = Some (PInt 5) /\
  start_line <$> sonar_to_unified (H := sample_builtins)
                   [("line", PInt 10); ("end_line", PInt 5)]
    = Some (PInt 10) /\
  end_line <$> sonar_to_unified (H := sample_builtins)
                 [("line", PInt 10); ("end_line", PInt 5)]
    = Some (PInt 5).
Proof. by repeat split. Qed.

(** [C9], amended.  A finding produced from a raw issue that supplies no
    end line has its end line equal to its start line; so has every
    finding of the static batch normalizer, which forwards no end line.  A
    supplied end line is stored as it is given (through [int] by the AI
    normalizer), whatever the start line. *)
Theorem C9_end_line :
  (forall issue f, sonar_to_unified issue = Some f ->
     dict_lookup "end_line" issue = None -> end_line f = start_line f) /\
  (forall issue f, ai_to_unified issue = Some f ->
     dict_lookup "end_line" issue = None -> end_line f = start_line f) /\
  (forall resp out f, sonar_response_to_unified resp = Some out ->
     f ∈ out -> end_line f = start_line f) /\
  (forall issue f e, sonar_to_unified issue = Some f ->
     dict_lookup "end_line" issue = Some e -> end_line f = e) /\
  (forall issue f e, ai_to_unified issue = Some f ->
     dict_lookup "end_line" issue = Some e ->
     exists b, py_int e = Some b /\ end_line f = PInt b).
Proof.
  split; [|split; [|split; [|split]]].
  - intros issue f Hf He. apply sonar_to_unified_lines in Hf as [_ ->].
    unfold dict_get at 1. by rewrite He.
  - intros issue f Hf He.
    apply ai_to_unified_lines in Hf as (a & b & Ha & Hb & -> & ->).
    unfold dict_get at 1 in Hb. rewrite He in Hb. congruence.
  - intros resp out f. unfold sonar_response_to_unified.
    destruct (py_iter _) as [items|]; [|done]. cbn. intros [= <-].
    intros (x & _ & Hx)%list_elem_of_omap.
    apply sonar_convert_issue_inv in Hx as (n & Hn & He & _).
    apply sonar_to_unified_lines in Hn as [_ ->].
    unfold dict_get at 1. by rewrite He.
  - intros issue f e Hf He. apply sonar_to_unified_lines in Hf as [_ ->].
    unfold dict_get at 1. by rewrite He.
  - intros issue f e Hf He.
    apply ai_to_unified_lines in Hf as (a & b & Ha & Hb & _ & ->).
    unfold dict_get at 1 in Hb. rewrite He in Hb. by exists b.
Qed.

End WithBuiltins.

(** [C9], amended, on an AI issue without an end line. *)
Lemma C9_end_line_witness :
  exists f, ai_to_unified (H := sample_builtins) [("start_line", PInt 10)]
            = Some f /\
    end_line f = start_line f.
Proof.
  eexists. split; [reflexivity|].
  apply (proj1 (proj2 (C9_end_line (H := sample_builtins)))
           [("start_line", PInt 10)]); reflexivity.
Defined.


(** ** Batches *)

(** [C7], as stated, fails: a response whose issues value is a number
    makes the loop header raise, outside the [try]; so does an AI response
    whose [review] entry is not a dict. *)
Lemma C7_counterexample :
  sonar_response_to_unified (H := sample_builtins)
    [("vulnerabilities", PInt 5)] = None /\
  ai_response_to_unified (H := sample_builtins)
    [("review", PStr "looks good")] = None.
Proof. by split. Qed.

Lemma convert_each_batch convert items :
  batch_of convert items (convert_each convert items).
Proof.
  unfold batch_of, convert_each. split; [|split].
  - intros l1 x l2 -> Hx. rewrite omap_app. cbn. by rewrite Hx.
  - intros l1 x l2 f -> Hx. rewrite omap_app. cbn. by rewrite Hx.
  - intros f Hf. by apply list_elem_of_omap in Hf.
Qed.

Section WithBuiltins.
Context `{Builtins}.

(** The static batch normalizer raises exactly when its issues value
    cannot be iterated. *)
Lemma sonar_response_raises_iff resp :
  sonar_response_to_unified resp = None <-> py_iter (sonar_issues resp) = None.
Proof.
  unfold sonar_response_to_unified. by destruct (py_iter _).
Qed.

(** [C7], amended.  On a response dict whose issues value can be
    iterated (for the AI response: whose [review] entry, where it is read,
    is a dict), a batch normalizer returns a list and does not raise; a raw
    issue whose conversion raises is skipped, and every other issue of the
    batch is converted, in order. *)
Theorem C7_batch_normalizers :
  (forall resp items, py_iter (sonar_issues resp) = Some items ->
     exists out, sonar_response_to_unified resp = Some out /\
       batch_of sonar_convert_issue items out) /\
  (forall resp issues items, ai_issues resp = Some issues ->
     py_iter issues = Some items ->
     exists out, ai_response_to_unified resp = Some out /\
       batch_of ai_convert_issue items out).
Proof.
  split.
  - intros resp items Hit. eexists. split.
    + unfold sonar_response_to_unified. by rewrite Hit.
    + apply convert_each_batch.
  - intros resp issues items Hc Hit. eexists. split.
    + unfold ai_response_to_unified. rewrite Hc. cbn. by rewrite Hit.
    + apply convert_each_batch.
Qed.

End WithBuiltins.

(** [C7], amended, on a batch with a malformed issue (a number) between
    two well-formed ones: two findings come back. *)
Lemma C7_batch_normalizers_witness :
  exists out,
    sonar_response_to_unified (H := sample_builtins)
      [("issues", PList [secret_issue; PInt 7; smell_issue])] = Some out /\
    out = convert_each (sonar_convert_issue (H := sample_builtins)) [secret_issue]
          ++ convert_each (sonar_convert_issue (H := sample_builtins)) [smell_issue] /\
    length out = 2%nat.
Proof.
  destruct (proj1 (C7_batch_normalizers (H := sample_builtins))
              [("issues", PList [secret_issue; PInt 7; smell_issue])]
              [secret_issue; PInt 7; smell_issue] eq_refl)
    as (out & Hout & Hskip & _).
  exists out. split; [exact Hout|].
  pose proof (Hskip [secret_issue] (PInt 7) [smell_issue] eq_refl eq_refl) as E.
  split; [exact E|]. rewrite E. reflexivity.
Defined.

End NormalizerFacts.

(* ===================================================================== *)
(** * Properties of the job store                                         *)
(* ===================================================================== *)

Module JobFacts.
Import Py JobManager JobSpec.

(** [C3], as stated, fails: [cancel_job] on a completed job overwrites
    its status and appends to its log. *)
Lemma C3_counterexample :
  is_terminal (status finished_job) = true /\
  status <$> (cancel_job "2024-01-01T00:06:00+00:00" "job-1" finished_store).1
               !! "job-1"
    = Some "cancelled" /\
  logs <$> (cancel_job "2024-01-01T00:06:00+00:00" "job-1" finished_store).1
             !! "job-1"
    = Some ["Job completed successfully.";
            "Job Cancellation Requested by User."].
Proof. by vm_compute. Qed.

(** [C8], as stated, fails: 3 processed of 1 stores 300 percent, and a
    negative count stores a negative percentage. *)
Lemma C8_counterexample :
  (percentage ∘ progress) <$>
    (update_job_progress "2024-01-01T00:06:00+00:00" "job-1"
       None (Some 3) (Some 1) finished_store).1 !! "job-1"
    = Some 300 /\
  (percentage ∘ progress) <$>
    (update_job_progress "2024-01-01T00:06:00+00:00" "job-1"
       None (Some (-1)) (Some 2) finished_store).1 !! "job-1"
    = Some (-50).
Proof. by vm_compute. Qed.

(** ** What an operation can change *)

Lemma update_job_log_other now j m (JOBS : jobs) k :
  j <> k -> (update_job_log now j m JOBS).1 !! k = JOBS !! k.
Proof.
  intros Hne. unfold update_job_log.
  destruct (JOBS !! j); cbn; [by rewrite lookup_insert_ne|done].
Qed.

(** What the three closing calls make of a job in the store. *)
Lemma cancel_job_found now job_id (JOBS : jobs) job :
  JOBS !! job_id = Some job ->
  cancel_job now job_id JOBS
  = (<[job_id := set_updated_at now
         (set_logs (logs job ++ ["Job Cancellation Requested by User."])
            (set_status "cancelled" job))]> JOBS, true).
Proof.
  intros Hjob. unfold cancel_job, update_job_log. rewrite Hjob. cbn [fst].
  rewrite lookup_insert_eq. cbn [fst]. by rewrite insert_insert_eq.
Qed.

Lemma complete_job_found now job_id r (JOBS : jobs) job :
  JOBS !! job_id = Some job ->
  complete_job now job_id r JOBS
  = (<[job_id := set_updated_at now
         (set_logs (logs job ++ ["Job completed successfully."])
            (set_updated_at now (set_result r (set_status "completed" job))))]>
       JOBS, true).
Proof.
  intros Hjob. unfold complete_job, update_job_log. rewrite Hjob. cbn [fst].
  rewrite lookup_insert_eq. cbn [fst]. by rewrite insert_insert_eq.
Qed.

Lemma fail_job_found now job_id e (JOBS : jobs) (OBJECTS : objects) job :
  JOBS !! job_id = Some job ->
  fail_job now job_id e JOBS OBJECTS
  = (<[job_id := set_updated_at now
         (set_logs (logs job ++ ["Job failed: " +:+ e])
            (set_updated_at now (set_status "failed" job)))]> JOBS,
     alter (dict_set "error" (PStr e)) (result job) OBJECTS, true).
Proof.
  intros Hjob. unfold fail_job, update_job_log. rewrite Hjob. cbn [fst].
  rewrite lookup_insert_eq. cbn [fst]. by rewrite insert_insert_eq.
Qed.

Lemma update_job_progress_found now job_id current_file processed total
    (JOBS : jobs) job :
  JOBS !! job_id = Some job ->
  update_job_progress now job_id current_file processed total JOBS
  = let p := stored_progress job current_file processed total in
    if JobManager.total p >? 0 then
      match percent_of (JobManager.processed p) (JobManager.total p) with
      | Some pct =>
          (<[job_id := set_updated_at now (set_progress (with_percentage pct p) job)]>
             JOBS, Some true)
      | None => (<[job_id := set_progress p job]> JOBS, None)
      end
    else (<[job_id := set_updated_at now (set_progress p job)]> JOBS, Some true).
Proof.
  intros Hjob. unfold update_job_progress. rewrite Hjob.
  destruct job as [st lg [cf pr tt pc] rs ca ua].
  by destruct current_file, processed, total.
Qed.

(** A call leaves the jobs under other ids as they are: their status,
    log, progress and time stamps, and the dict they refer to. *)
Lemma run_other now o (JOBS : jobs) (OBJECTS : objects) k :
  target o <> k -> (run now o (JOBS, OBJECTS)).1 !! k = JOBS !! k.
Proof.
  destruct o as [j|j s|j m|j c p t|j r|j|j r|j e]; cbn [target run fst snd];
    intros Hne.
  - cbn. by rewrite lookup_insert_ne.
  - unfold update_job_status.
    destruct (JOBS !! j); cbn; [by rewrite lookup_insert_ne|done].
  - by apply update_job_log_other.
  - unfold update_job_progress.
    destruct (JOBS !! j); cbn; [|done].
    destruct (_ >? 0); [destruct (percent_of _ _)|]; cbn;
      by rewrite lookup_insert_ne.
  - unfold update_job_result.
    destruct (JOBS !! j); cbn; [by rewrite lookup_insert_ne|done].
  - unfold cancel_job. destruct (JOBS !! j); cbn [fst]; [|done].
    rewrite update_job_log_other by done. by rewrite lookup_insert_ne.
  - unfold complete_job. destruct (JOBS !! j); cbn [fst]; [|done].
    rewrite update_job_log_other by done. by rewrite lookup_insert_ne.
  - unfold fail_job. destruct (JOBS !! j); cbn [fst]; [|done].
    rewrite update_job_log_other by done. by rewrite lookup_insert_ne.
Qed.

(** No call looks at the status of its job: run on the job with another
    status, it leaves what it leaves otherwise, with that other status
    unless it writes the status itself ([create_job] writes "pending"). *)
Lemma run_status_blind now o (JOBS : jobs) (OBJECTS : objects) job s :
  JOBS !! target o = Some job ->
  run now o (<[target o := set_status s job]> JOBS, OBJECTS)
  = ((if writes_status o then (run now o (JOBS, OBJECTS)).1
      else alter (set_status s) (target o) (run now o (JOBS, OBJECTS)).1),
     (run now o (JOBS, OBJECTS)).2).
Proof.
  destruct o as [j|j st|j m|j c p t|j r|j|j r|j e];
    cbn [target run writes_status fst snd]; intros Hjob.
  - unfold create_job. cbn [fst snd]. by rewrite insert_insert_eq.
  - unfold update_job_status. rewrite lookup_insert_eq, Hjob. cbn [fst].
    by rewrite insert_insert_eq.
  - unfold update_job_log. rewrite lookup_insert_eq, Hjob. cbn [fst].
    by rewrite insert_insert_eq, alter_insert_eq.
  - rewrite (update_job_progress_found _ _ _ _ _ _ (set_status s job))
      by apply lookup_insert_eq.
    rewrite (update_job_progress_found _ _ _ _ _ _ job Hjob). cbv zeta.
    change (stored_progress (set_status s job) c p t)
      with (stored_progress job c p t).
    destruct (_ >? 0); [destruct (percent_of _ _)|]; cbn [fst];
      by rewrite insert_insert_eq, alter_insert_eq.
  - unfold update_job_result. rewrite lookup_insert_eq, Hjob. cbn [fst].
    by rewrite insert_insert_eq, alter_insert_eq.
  - rewrite (cancel_job_found _ _ _ (set_status s job))
      by apply lookup_insert_eq.
    rewrite (cancel_job_found _ _ _ job Hjob). cbn [fst].
    by rewrite insert_insert_eq.
  - rewrite (complete_job_found _ _ _ _ (set_status s job))
      by apply lookup_insert_eq.
    rewrite (complete_job_found _ _ _ _ job Hjob). cbn [fst].
    by rewrite insert_insert_eq.
  - rewrite (fail_job_found _ _ _ _ _ (set_status s job))
      by apply lookup_insert_eq.
    rewrite (fail_job_found _ _ _ _ _ job Hjob). cbn [fst snd].
    by rewrite insert_insert_eq.
Qed.

(** Of the dict objects that exist, a call changes one only when it is
    [fail_job], and then the one its job refers to. *)
Lemma run_objects now o (JOBS : jobs) (OBJECTS : objects) r d :
  OBJECTS !! r = Some d ->
  (run now o (JOBS, OBJECTS)).2 !! r
  = Some (match error_written o JOBS r with
          | Some e => dict_set "error" (PStr e) d
          | None => d
          end).
Proof.
  intros Hr.
  destruct o as [j|j st|j m|j c p t|j x|j|j x|j e];
    cbn [run error_written fst snd]; try done.
  - unfold create_job. cbn [fst snd]. rewrite lookup_insert_ne; [done|].
    intros E. pose proof (is_fresh (dom OBJECTS)) as Hfresh.
    rewrite E in Hfresh. apply Hfresh. by apply elem_of_dom_2 in Hr.
  - unfold fail_job. destruct (JOBS !! j) as [job|]; cbn [fst snd]; [|done].
    change (result (set_status "failed" job)) with (result job).
    destruct (decide (result job = r)) as [E|Hne].
    + by rewrite E, lookup_alter_eq, Hr.
    + by rewrite lookup_alter_ne.
Qed.

(** The dict a job refers to after a call: the one it was handed, else
    the one it referred to. *)
Lemma run_found_result now o (JOBS : jobs) (OBJECTS : objects) job :
  JOBS !! target o = Some job -> creates o = false ->
  exists job',
    (run now o (JOBS, OBJECTS)).1 = <[target o := job']> JOBS /\
    result job' = default (result job) (result_arg o).
Proof.
  destruct o as [j|j st|j m|j c p t|j r|j|j r|j e];
    cbn [target run creates result_arg fst snd]; intros Hjob Hc; try done.
  - unfold update_job_status. rewrite Hjob. by eexists.
  - unfold update_job_log. rewrite Hjob. by eexists.
  - rewrite (update_job_progress_found _ _ _ _ _ _ _ Hjob). cbv zeta.
    destruct (_ >? 0); [destruct (percent_of _ _)|]; by eexists.
  - unfold update_job_result. rewrite Hjob. by eexists.
  - rewrite (cancel_job_found _ _ _ _ Hjob). by eexists.
  - rewrite (complete_job_found _ _ _ _ _ Hjob). by eexists.
  - rewrite (fail_job_found _ _ _ _ _ _ Hjob). by eexists.
Qed.

(** The calls keep the state well formed: when every job refers to a
    dict that exists, and so does the caller, every job does afterwards. *)
Lemma run_refs_exist now o (st : jobs * objects) :
  refs_exist st ->
  (forall r, result_arg o = Some r -> is_Some (st.2 !! r)) ->
  refs_exist (run now o st).
Proof.
  destruct st as [JOBS OBJECTS]. intros Hwf Harg k job' Hk.
  assert (Hkeep : forall r, is_Some (OBJECTS !! r) ->
            is_Some ((run now o (JOBS, OBJECTS)).2 !! r)).
  { intros r [d Hd]. rewrite (run_objects now o JOBS OBJECTS r d Hd).
    by eexists. }
  destruct (decide (target o = k)) as [<-|Hne];
    [|rewrite run_other in Hk by done; apply Hkeep; by eapply Hwf].
  destruct (creates o) eqn:Hc.
  - destruct o as [j| | | | | | |]; try done. cbn in Hk |- *.
    rewrite lookup_insert_eq in Hk. injection Hk as <-. cbn.
    rewrite lookup_insert_eq. by eexists.
  - destruct (JOBS !! target o) as [job|] eqn:Hjob.
    + destruct (run_found_result now o JOBS OBJECTS job Hjob Hc)
        as (job'' & E & Hres).
      rewrite E, lookup_insert_eq in Hk. injection Hk as <-.
      apply Hkeep. rewrite Hres.
      destruct (result_arg o) as [r|] eqn:Hr; cbn; [by apply Harg|].
      by eapply (Hwf (target o)).
    + assert (run now o (JOBS, OBJECTS) = (JOBS, OBJECTS)) as E.
      { destruct o as [j|j st|j m|j c p t|j r|j|j r|j e];
          cbn [target run creates fst snd] in *; try done.
        - unfold update_job_status. by rewrite Hjob.
        - unfold update_job_log. by rewrite Hjob.
        - unfold update_job_progress. by rewrite Hjob.
        - unfold update_job_result. by rewrite Hjob.
        - unfold cancel_job. by rewrite Hjob.
        - unfold complete_job. by rewrite Hjob.
        - unfold fail_job. by rewrite Hjob. }
      rewrite E in Hk. cbn in Hk. congruence.
Qed.

(** [C3], amended.  The job store has no guard on terminal jobs.
    [cancel_job] on a job in the store, whatever its status, sets the
    status to cancelled, appends one log line and refreshes [updated_at],
    and leaves progress, [created_at] and the dict the job refers to as
    they are; so it leaves the status of an already cancelled job
    unchanged.  On an id that is not in the store it changes nothing.  No
    call looks at the status of its job: on a job with another status it
    does the same, and the job keeps that status unless the call writes
    the status itself.  A call addressed to one id leaves the jobs under
    other ids as they are.  Of the result dicts, a call changes one only
    when it is [fail_job], which writes the error into the dict its job
    refers to: the result of another job gets the error when that job
    refers to the same dict, and is unchanged otherwise. *)
Theorem C3_cancel_job (now job_id : string) (JOBS : jobs) (OBJECTS : objects) :
  (forall job, JOBS !! job_id = Some job ->
     exists job',
       cancel_job now job_id JOBS = (<[job_id := job']> JOBS, true) /\
       status job' = "cancelled" /\
       logs job' = logs job ++ ["Job Cancellation Requested by User."] /\
       progress job' = progress job /\ result job' = result job /\
       created_at job' = created_at job /\ updated_at job' = now /\
       (status job = "cancelled" -> status job' = status job)) /\
  (JOBS !! job_id = None -> cancel_job now job_id JOBS = (JOBS, false)) /\
  (forall o job s, JOBS !! target o = Some job ->
     run now o (<[target o := set_status s job]> JOBS, OBJECTS)
     = ((if writes_status o then (run now o (JOBS, OBJECTS)).1
         else alter (set_status s) (target o) (run now o (JOBS, OBJECTS)).1),
        (run now o (JOBS, OBJECTS)).2)) /\
  (forall o k, target o <> k ->
     (run now o (JOBS, OBJECTS)).1 !! k = JOBS !! k) /\
  (forall o r d, OBJECTS !! r = Some d ->
     (run now o (JOBS, OBJECTS)).2 !! r
     = Some (match error_written o JOBS r with
             | Some e => dict_set "error" (PStr e) d
             | None => d
             end)) /\
  (forall e k job job_k d, job_id <> k ->
     JOBS !! job_id = Some job -> JOBS !! k = Some job_k ->
     OBJECTS !! result job_k = Some d ->
     result_of (run now (FailJob job_id e) (JOBS, OBJECTS)) k
     = Some (if decide (result job = result job_k)
             then dict_set "error" (PStr e) d else d)).
Proof.
  split; [|split; [|split; [|split; [|split]]]].
  - intros job Hjob. rewrite (cancel_job_found _ _ _ _ Hjob).
    eexists. split; [reflexivity|]. cbn. by repeat split.
  - intros Hjob. unfold cancel_job. by rewrite Hjob.
  - intros o job s. apply run_status_blind.
  - intros o k. apply run_other.
  - intros o r d. apply run_objects.
  - intros e k job job_k d Hne Hjob Hk Hd. unfold result_of.
    rewrite (run_other now (FailJob job_id e) JOBS OBJECTS k Hne), Hk.
    cbn [mbind option_bind].
    rewrite (run_objects now (FailJob job_id e) JOBS OBJECTS _ d Hd).
    cbn [error_written]. rewrite Hjob. by destruct (decide _).
Qed.

(** [C3], amended, on two jobs that were handed one dict: failing the
    running job puts the error into the result of the completed one. *)
Lemma C3_cancel_job_witness :
  result_of (shared_store, finished_objects) "job-1"
    = Some [("total", PInt 0)] /\
  result_of (run "2024-01-01T00:06:00+00:00" (FailJob "job-2" "boom")
               (shared_store, finished_objects)) "job-1"
    = Some [("total", PInt 0); ("error", PStr "boom")].
Proof.
  split; [reflexivity|].
  destruct (C3_cancel_job "2024-01-01T00:06:00+00:00" "job-2" shared_store
              finished_objects) as (_ & _ & _ & _ & _ & Hshared).
  rewrite (Hshared "boom" "job-1" running_job finished_job
             [("total", PInt 0)]); [reflexivity|discriminate|reflexivity..].
Defined.

(** ** The percentage *)

Lemma int_true_div_diag (m : positive) :
  int_true_div (Z.pos m) (Z.pos m)
  = Some (S754_finite false 4503599627370496 (-52)).
Proof.
  unfold int_true_div. cbn [Z.eqb]. unfold SFdiv, SFdiv_core_binary.
  replace (Zdigits2 (Z.pos m) + 0 - (Zdigits2 (Z.pos m) + 0)) with 0 by lia.
  change (Z.min (fexp prec emax 0) (0 - 0)) with (-53).
  change (0 - 0 - -53) with 53.
  cbv iota beta.
  assert (Z.div_eucl (Z.shiftl (Z.pos m) 53) (Z.pos m) = (2 ^ 53, 0)) as ->.
  { rewrite Z.shiftl_mul_pow2 by lia.
    pose proof (Z_div_mod (Z.pos m * 2 ^ 53) (Z.pos m) ltac:(lia)) as Hdm.
    destruct (Z.div_eucl _ _) as [q r]. destruct Hdm as [Heq Hr].
    assert (q = 2 ^ 53) by nia. subst q.
    f_equal. lia. }
  unfold new_location.
  destruct (Z.even (Z.pos m)); reflexivity.
Qed.

(** Everything processed is 100 percent. *)
Lemma percent_of_full (t : Z) : 0 < t -> percent_of t t = Some 100.
Proof.
  destruct t as [|m|m]; try lia. intros _.
  unfold percent_of. rewrite int_true_div_diag. reflexivity.
Qed.

(** Nothing processed is 0 percent. *)
Lemma percent_of_zero (t : Z) : 0 < t -> percent_of 0 t = Some 0.
Proof. destruct t as [|m|m]; try lia. intros _. reflexivity. Qed.

(** The float product is truncated, not rounded: 29 of 100 is 28 percent. *)
Lemma percent_of_29_100 : percent_of 29 100 = Some 28.
Proof. reflexivity. Qed.

(** Up to 200 files the percentage of a part of the total lies between 0
    and 100 (checked case by case). *)
Lemma percent_of_part (p t : Z) :
  0 < t <= 200 -> 0 <= p <= t ->
  exists pct, percent_of p t = Some pct /\ 0 <= pct <= 100.
Proof.
  intros Ht Hp.
  assert (Hall : forallb (fun t => forallb (fun p => percent_in_range p t)
                                     (seqZ 0 (t + 1))) (seqZ 1 200) = true)
    by (by vm_compute).
  rewrite forallb_forall in Hall.
  specialize (Hall t). rewrite forallb_forall in Hall.
  assert (Hr : percent_in_range p t = true).
  { apply Hall.
    - apply list_elem_of_In, elem_of_seqZ. lia.
    - apply list_elem_of_In, elem_of_seqZ. lia. }
  unfold percent_in_range in Hr. destruct (percent_of p t) as [pct|]; [|done].
  exists pct. split; [done|]. apply andb_true_iff in Hr as [? ?]. lia.
Qed.

(** [C8], amended.  For a job in the store, [update_job_progress] stores
    the given [processed] and [total]; when the total is then positive it
    recomputes the percentage as [int((processed / total) * 100)], and it
    leaves the stored percentage as it is otherwise.  The value is not
    clamped. *)
Theorem C8_update_progress (now job_id : string) (current_file : option string)
    (processed total : option Z) (JOBS : jobs) (job : Job) :
  JOBS !! job_id = Some job ->
  let r := update_job_progress now job_id current_file processed total JOBS in
  let p := stored_progress job current_file processed total in
  (JobManager.total p <= 0 ->
     r.2 = Some true /\ progress <$> r.1 !! job_id = Some p) /\
  (0 < JobManager.total p ->
     forall pct,
       percent_of (JobManager.processed p) (JobManager.total p) = Some pct ->
       r.2 = Some true /\
       progress <$> r.1 !! job_id = Some (with_percentage pct p)) /\
  (0 < JobManager.total p ->
     percent_of (JobManager.processed p) (JobManager.total p) = None ->
     r.2 = None).
Proof.
  intros Hjob r p. subst r.
  rewrite (update_job_progress_found _ _ _ _ _ _ _ Hjob). fold p. cbv zeta.
  destruct (Z.gtb_spec (JobManager.total p) 0) as [Hpos|Hneg].
  - split; [lia|]. split.
    + intros _ pct ->. cbn. by rewrite lookup_insert_eq.
    + by intros _ ->.
  - split; [|split; intros; lia].
    intros _. cbn. by rewrite lookup_insert_eq.
Qed.

(** [C8], amended, on 3 processed of 4. *)
Lemma C8_update_progress_witness :
  progress <$>
    (update_job_progress "2024-01-01T00:06:00+00:00" "job-1"
       None (Some 3) None finished_store).1 !! "job-1"
  = Some {| current_file := "a.py"; processed := 3; total := 4;
            percentage := 75 |}.
Proof.
  destruct (C8_update_progress "2024-01-01T00:06:00+00:00" "job-1"
              None (Some 3) None finished_store finished_job eq_refl)
    as (_ & Hpos & _).
  destruct (Hpos ltac:(reflexivity) 75 eq_refl) as [_ Hp].
  exact Hp.
Defined.

End JobFacts.

(* ===================================================================== *)
(** * Properties of the orchestrator                                      *)
(* ===================================================================== *)

Module OrchestratorFacts.
Import Py Findings Orchestrator FindingsSpec OrchestratorSpec FindingsFacts.

Lemma await_branch_failed timeout_line failure_prefix o :
  failed o ->
  exists line, await_branch timeout_line failure_prefix o = ([], [line]).
Proof. intros [->|[msg ->]]; by eexists. Qed.

Section Run.
Variable _generate_fix : nat -> UnifiedFinding -> option GeneratedFix.

(** The fix pass returns the findings it is given, some with a fix set. *)
Lemma generate_missing_fixes_back (l : list UnifiedFinding) w :
  w ∈ _generate_missing_fixes _generate_fix l ->
  exists u, u ∈ l /\ same_finding u w.
Proof.
  unfold _generate_missing_fixes.
  destruct (List.filter has_no_fix l) as [|n ns] eqn:Hn.
  - intros Hw. exists w. split; [done|apply same_finding_refl].
  - rewrite <- Hn. clear Hn.
    intros [Hw|Hw]%elem_of_app.
    + apply list_elem_of_In, filter_In in Hw as [Hw _].
      exists w. split; [by apply list_elem_of_In|apply same_finding_refl].
    + apply elem_of_lookup_imap in Hw as (i & u & -> & Hu).
      apply list_elem_of_lookup_2, list_elem_of_In, filter_In in Hu as [Hu _].
      exists u. split; [by apply list_elem_of_In|].
      destruct (_generate_fix i u); [by repeat split|apply same_finding_refl].
Qed.

Lemma generate_missing_fixes_forth (l : list UnifiedFinding) u :
  u ∈ l ->
  exists w, w ∈ _generate_missing_fixes _generate_fix l /\ same_finding u w.
Proof.
  intros Hu. unfold _generate_missing_fixes.
  destruct (has_no_fix u) eqn:Hfix.
  - assert (Hin : u ∈ List.filter has_no_fix l).
    { apply list_elem_of_In, filter_In. split; [by apply list_elem_of_In|done]. }
    destruct (List.filter has_no_fix l) as [|n ns] eqn:Hn;
      [by apply elem_of_nil in Hin|].
    rewrite <- Hn in *. clear Hn.
    apply list_elem_of_lookup_1 in Hin as [i Hi].
    eexists. split.
    + apply elem_of_app. right. by eapply elem_of_lookup_imap_2.
    + destruct (_generate_fix i u); [by repeat split|apply same_finding_refl].
  - exists u. split; [|apply same_finding_refl].
    destruct (List.filter has_no_fix l) as [|n ns]; [done|].
    apply elem_of_app. left. apply list_elem_of_In, filter_In.
    split; [by apply list_elem_of_In|by rewrite Hfix].
Qed.

(** [analyze] when both branches return. *)
Lemma analyze_returned code_graph a b time :
  analyze _generate_fix code_graph (Returned a) (Returned b) time
  = unique ← deduplicate_findings (a ++ b);
    Some {| findings := _generate_missing_fixes _generate_fix unique;
            summary := create_summary
                         (_generate_missing_fixes _generate_fix unique);
            code_graph := code_graph;
            execution_time_ms := time |}.
Proof. reflexivity. Qed.

(** A failed branch counts as a branch that found nothing. *)
Lemma analyze_failed_branch code_graph fs o time :
  failed o ->
  analyze _generate_fix code_graph (Returned fs) o time
    = analyze _generate_fix code_graph (Returned fs) (Returned []) time /\
  analyze _generate_fix code_graph o (Returned fs) time
    = analyze _generate_fix code_graph (Returned []) (Returned fs) time.
Proof. intros [->|[msg ->]]; by split. Qed.

(** The fix pass returns a list in which every finding has a fix as it
    is. *)
Lemma generate_missing_fixes_all_fixed (l : list UnifiedFinding) :
  Forall (fun f => is_Some (fix_ f)) l ->
  _generate_missing_fixes _generate_fix l = l.
Proof.
  intros Hall. unfold _generate_missing_fixes.
  assert (List.filter has_no_fix l = []) as ->; [|done].
  induction Hall as [|f l [x Hx] _ IH]; [done|]. cbn.
  unfold has_no_fix at 1. by rewrite Hx.
Qed.

(** [C4], amended.  If one analyzer branch times out or raises while the
    other returns its findings, the failed branch counts as an empty
    list: its error stays in [_run_parallel_analysis], which logs one
    line for it, and [analyze] does what it does when that branch found
    nothing.  [analyze] then raises exactly when the dedup key of one of
    the returned findings cannot be built (a title that is no string, an
    unhashable file or start line), because [deduplicate_findings] runs
    outside every [try]; otherwise it returns a result.  The findings of
    a result are those of the successful branch after deduplication and
    the fix pass: each is one of that branch's findings, each of that
    branch's findings has its key on one of them, and when no two of them
    share a key the result holds what the fix pass makes of the branch's
    list, which is that list itself when every finding has a fix. *)
Theorem C4_branch_isolation (code_graph : pydict) (fs : list UnifiedFinding)
    (o : branch_outcome) (time : Z) :
  failed o ->
  (exists line, _run_parallel_analysis (Returned fs) o = (fs, [], [line])) /\
  (exists line, _run_parallel_analysis o (Returned fs) = ([], fs, [line])) /\
  analyze _generate_fix code_graph (Returned fs) o time
    = analyze _generate_fix code_graph (Returned fs) (Returned []) time /\
  analyze _generate_fix code_graph o (Returned fs) time
    = analyze _generate_fix code_graph (Returned []) (Returned fs) time /\
  analyze _generate_fix code_graph o (Returned fs) time
    = analyze _generate_fix code_graph (Returned fs) o time /\
  (analyze _generate_fix code_graph (Returned fs) o time = None <->
   Exists (fun f => dedup_key f = None) fs) /\
  (forall res,
     analyze _generate_fix code_graph (Returned fs) o time = Some res ->
     exists unique,
       deduplicate_findings fs = Some unique /\
       findings res = _generate_missing_fixes _generate_fix unique /\
       summary res = create_summary (findings res) /\
       Findings.code_graph res = code_graph /\
       (forall w, w ∈ findings res -> exists f, f ∈ fs /\ same_finding f w) /\
       (forall f, f ∈ fs ->
          exists w, w ∈ findings res /\ dedup_key w = dedup_key f) /\
       (NoDup (dedup_key <$> fs) ->
          findings res = _generate_missing_fixes _generate_fix fs /\
          (Forall (fun f => is_Some (fix_ f)) fs -> findings res = fs))).
Proof.
  intros Hfail.
  destruct (analyze_failed_branch code_graph fs o time Hfail) as [E1 E2].
  split; [destruct Hfail as [->|[msg ->]]; by eexists|].
  split; [destruct Hfail as [->|[msg ->]]; by eexists|].
  split; [done|]. split; [done|].
  split; [by rewrite E1, E2, !analyze_returned, app_nil_r|].
  rewrite E1, analyze_returned, app_nil_r. split.
  - rewrite <- deduplicate_findings_raises_iff.
    by destruct (deduplicate_findings fs).
  - intros res Hres.
    destruct (deduplicate_findings fs) as [unique|] eqn:Hdedup; [|done].
    cbn in Hres. injection Hres as <-. cbn [findings summary Findings.code_graph].
    assert (Hkeys : Forall (fun f => is_Some (dedup_key f)) fs).
    { apply Forall_forall. intros f Hf.
      destruct (dedup_key f) eqn:Hk; [by eexists|]. exfalso.
      assert (deduplicate_findings fs = None); [|congruence].
      apply deduplicate_findings_raises_iff, Exists_exists. by exists f. }
    destruct (deduplicate_findings_spec fs Hkeys)
      as (unique' & Hdedup' & _ & Hrep & Horigin).
    assert (unique' = unique) as -> by congruence.
    exists unique. split; [done|]. split; [done|]. split; [done|].
    split; [done|]. split; [|split].
    + intros w Hw.
      apply generate_missing_fixes_back in Hw as (u & Hu & Huw).
      destruct (Horigin u Hu) as (i & f & Hf & Hfu & _).
      exists f. split; [by eapply list_elem_of_lookup_2|].
      by eapply same_finding_trans.
    + intros f Hf. destruct (Hrep f Hf) as (u & Hu & Hkey).
      destruct (generate_missing_fixes_forth unique u Hu) as (w & Hw & Huw).
      exists w. split; [done|]. by rewrite (same_finding_key u w).
    + intros Hnd. rewrite (dedup_distinct fs Hkeys Hnd) in Hdedup.
      injection Hdedup as <-. split; [done|].
      apply generate_missing_fixes_all_fixed.
Qed.

End Run.

(** [C4], as stated, fails.  The AI normalizer hands on a title that is a
    list; with the static scan timed out, [deduplicate_findings] raises
    on that finding and [analyze] returns nothing.  And of two reports of
    one issue that the AI branch returns, the result holds one. *)
Lemma C4_counterexample :
  (exists f,
     ai_response_to_unified (H := sample_builtins)
       [("issues", PList [PDict [("title", PList [PStr "a"; PStr "b"])]])]
     = Some [f] /\
     analyze (fun _ _ => None) [] (Returned [f]) TimedOut 1500 = None) /\
  (exists res,
     analyze (fun _ _ => None) [] (Returned [report_manual; report_ai])
       TimedOut 1500 = Some res /\
     length (findings res) = 1%nat).
Proof. split; eexists; by split. Qed.

(** [C4], amended, on a run whose static scan times out while the AI
    review returns one finding, with a fix-generation call that yields
    nothing. *)
Lemma C4_branch_isolation_witness :
  exists res,
    analyze (fun _ _ => None) [] (Returned [report_ai]) TimedOut 1500
      = Some res /\
    findings res = [report_ai].
Proof.
  destruct (C4_branch_isolation (fun _ _ => None) [] [report_ai] TimedOut 1500)
    as (_ & _ & _ & _ & _ & _ & Hrun).
  - by left.
  - eexists. split; [reflexivity|].
    destruct (Hrun _ eq_refl) as (unique & _ & _ & _ & _ & _ & _ & Hsame).
    destruct Hsame as [Hf _].
    + repeat constructor. apply not_elem_of_nil.
    + rewrite Hf. reflexivity.
Defined.

End OrchestratorFacts.

(* ===================================================================== *)
(** * Further properties of the findings model                            *)
(* ===================================================================== *)

Module FindingsMore.
Import Py Findings FindingsSpec PyFacts FindingsFacts.

(** ** The normalized title *)

Lemma is_space_lower_char c : is_space (lower_char c) = is_space c.
Proof. by destruct c as [[] [] [] [] [] [] [] []]. Qed.

Lemma str_lower_app a b : str_lower (a +:+ b) = str_lower a +:+ str_lower b.
Proof.
  induction a as [|c a IH]; [done|].
  rewrite str_app_cons. cbn [str_lower]. by rewrite IH, str_app_cons.
Qed.

Lemma str_all_space_lower a : str_all_space (str_lower a) = str_all_space a.
Proof.
  induction a as [|c a IH]; cbn; [done|]. by rewrite is_space_lower_char, IH.
Qed.

Lemma str_lstrip_space a s :
  str_all_space a = true -> str_lstrip (a +:+ s) = str_lstrip s.
Proof.
  induction a as [|c a IH]; [done|]. rewrite str_app_cons. cbn.
  intros [Hc Ha]%andb_true_iff. rewrite Hc. by apply IH.
Qed.

Lemma str_rstrip_all_space b : str_all_space b = true -> str_rstrip b = "".
Proof.
  induction b as [|c b IH]; cbn; [done|].
  intros [Hc Hb]%andb_true_iff. by rewrite (IH Hb), Hc.
Qed.

Lemma str_rstrip_space s b :
  str_all_space b = true -> str_rstrip (s +:+ b) = str_rstrip s.
Proof.
  intros Hb. induction s as [|c s IH].
  - rewrite str_app_nil. by apply str_rstrip_all_space.
  - rewrite str_app_cons. cbn [str_rstrip]. by rewrite IH.
Qed.

Lemma str_lstrip_all_space b : str_all_space b = true -> str_lstrip b = "".
Proof.
  induction b as [|c b IH]; cbn; [done|].
  intros [Hc Hb]%andb_true_iff. rewrite Hc. by apply IH.
Qed.

Lemma str_lstrip_app s b :
  str_all_space b = true ->
  str_lstrip (s +:+ b) = str_lstrip s +:+ b \/
  (str_lstrip s = "" /\ str_lstrip (s +:+ b) = "").
Proof.
  intros Hb. induction s as [|c s IH].
  - right. split; [done|]. rewrite str_app_nil. by apply str_lstrip_all_space.
  - rewrite str_app_cons. cbn [str_lstrip].
    destruct (is_space c); [done|]. left. by rewrite str_app_cons.
Qed.

Lemma str_strip_space a s b :
  str_all_space a = true -> str_all_space b = true ->
  str_strip (a +:+ s +:+ b) = str_strip s.
Proof.
  intros Ha Hb. unfold str_strip. rewrite str_lstrip_space by done.
  destruct (str_lstrip_app s b Hb) as [->|[-> ->]]; [|done].
  by apply str_rstrip_space.
Qed.

Lemma lower_char_idem c : lower_char (lower_char c) = lower_char c.
Proof. by destruct c as [[] [] [] [] [] [] [] []]. Qed.

Lemma str_lower_idem s : str_lower (str_lower s) = str_lower s.
Proof. induction s as [|c s IH]; cbn; [done|]. by rewrite lower_char_idem, IH. Qed.

(** The normalized title is at most 50 long; white space around a title
    and the case of its letters do not change it. *)
Theorem normalize_for_dedup_trim (a s b : string) :
  str_all_space a = true -> str_all_space b = true ->
  normalize_for_dedup (PStr (a +:+ s +:+ b)) = normalize_for_dedup (PStr s) /\
  normalize_for_dedup (PStr (str_lower s)) = normalize_for_dedup (PStr s) /\
  exists t, normalize_for_dedup (PStr s) = Some t /\
            (String.length t <= 50)%nat.
Proof.
  intros Ha Hb. split; [|split].
  - unfold normalize_for_dedup. cbn [py_lower mbind option_bind].
    rewrite !str_lower_app.
    rewrite str_strip_space; [done|by rewrite str_all_space_lower..].
  - unfold normalize_for_dedup. cbn [py_lower mbind option_bind].
    by rewrite str_lower_idem.
  - eexists. split; [reflexivity|].
    apply NormalizerFacts.str_take_length.
Qed.

Lemma normalize_for_dedup_trim_witness :
  normalize_for_dedup (PStr "  Null Dereference ")
  = normalize_for_dedup (PStr "Null Dereference").
Proof.
  exact (proj1 (normalize_for_dedup_trim "  " "Null Dereference" " "
                  eq_refl eq_refl)).
Defined.

End FindingsMore.

(* ===================================================================== *)
(** * Further properties of the normalizers                               *)
(* ===================================================================== *)

Module NormalizerMore.
Import Py Findings FindingsSpec NormalizerSpec.

(** Every step of a chain of binds that returned has returned. *)
Ltac all_returned H :=
  repeat match type of H with
         | mbind _ ?m = Some _ =>
             let E := fresh "E" in
             destruct m eqn:E; [cbn [mbind option_bind] in H|discriminate H]
         | (let x := _ in _) = Some _ => cbv zeta in H
         end.

(** A table lookup gives the value of the key, or the default. *)
Lemma table_get_cases table v default r :
  table_get table v default = Some r ->
  (exists s, v = PStr s /\ (s, r) ∈ table) \/
  (r = default /\ forall s, v = PStr s -> s ∉ table.*1).
Proof.
  destruct v as [| | | |s| |]; cbn; try (intros [= <-]; right; by split); [|done..].
  intros [= <-]. destruct (List.find _ table) as [[k r]|] eqn:Hfind.
  - left. exists s. split; [done|].
    apply find_some in Hfind as [Hin Heq]. cbn in Heq.
    apply String.eqb_eq in Heq as ->. by apply list_elem_of_In.
  - right. split; [done|]. intros s' [= <-] Hin.
    apply list_elem_of_fmap in Hin as ([k r] & -> & Hin).
    apply list_elem_of_In in Hin.
    pose proof (find_none _ _ Hfind _ Hin) as Hne. cbn in Hne.
    by rewrite String.eqb_refl in Hne.
Qed.

(** A table lookup stays within a set that holds the default and the
    values of the table. *)
Lemma table_get_within table v default r (allowed : list string) :
  table_get table v default = Some r ->
  forallb (fun x => bool_decide (x ∈ allowed)) (default :: table.*2) = true ->
  r ∈ allowed.
Proof.
  intros Hget Hall. rewrite forallb_forall in Hall.
  assert (Hr : r ∈ default :: table.*2).
  { apply table_get_cases in Hget as [(s & _ & Hin)|[-> _]]; [right|left].
    by apply (list_elem_of_fmap_2 snd) in Hin. }
  apply list_elem_of_In, Hall in Hr. by apply bool_decide_eq_true in Hr.
Qed.

Section WithBuiltins.
Context `{Builtins}.

(** ** What a static finding looks like *)

(** Whatever the raw issue holds, a finding made by [sonar_to_unified] is
    a Sonar finding of confidence 0.95 without a fix and without other
    reporters; its category is bug, security or maintainability and its
    severity critical, high, medium or low (never info); its rule id is
    the raw rule id; its type is a string, and its two tags are that type
    in lower case (not the category) and the rule id. *)
Theorem sonar_to_unified_shape (issue : pydict) (f : UnifiedFinding) :
  sonar_to_unified issue = Some f ->
  source f = "sonar" /\ confidence f = float_0_95 /\
  fix_ f = None /\ also_found_by f = [] /\
  category f ∈ sonar_categories /\ severity f ∈ sonar_severities /\
  sonar_rule_id f
    = dict_get issue "rule_id" (dict_get issue "rule" (PStr "unknown")) /\
  exists type, dict_get issue "type" (PStr "CODE_SMELL") = PStr type /\
    tags f = [PStr (str_lower type); sonar_rule_id f].
Proof.
  unfold sonar_to_unified. intros Hf.
  destruct (table_get SONAR_TYPE_MAP _ _) as [cat|] eqn:Hcat; [|done].
  destruct (table_get SONAR_SEVERITY_MAP _ _) as [sev|] eqn:Hsev; [|done].
  all_returned Hf.
  match goal with
  | E : py_lower ?v = Some _ |- _ =>
      destruct v as [| | | |type| |] eqn:Etype; try discriminate E;
      injection E as <-
  end.
  injection Hf as <-. cbn.
  repeat split; try done.
  - by eapply table_get_within.
  - by eapply table_get_within.
  - by eexists.
Qed.

(** A key of a table without repeated keys gives its value. *)
Lemma table_get_key table s c default :
  NoDup table.*1 -> (s, c) ∈ table ->
  table_get table (PStr s) default = Some c.
Proof.
  intros Hnd Hin. cbn. f_equal.
  induction table as [|[k r] table IH]; [by apply elem_of_nil in Hin|].
  rewrite fmap_cons in Hnd. apply NoDup_cons in Hnd as [Hk Hnd]. cbn.
  apply elem_of_cons in Hin as [[= <- <-]|Hin].
  - by rewrite String.eqb_refl.
  - destruct (String.eqb_spec s k) as [->|Hne]; [|by apply IH].
    exfalso. apply Hk. by apply (list_elem_of_fmap_2 fst) in Hin.
Qed.

Lemma sonar_tables_nodup :
  NoDup SONAR_TYPE_MAP.*1 /\ NoDup SONAR_SEVERITY_MAP.*1.
Proof. split; by apply (bool_decide_unpack _). Qed.

(** How [sonar_to_unified] maps type and severity: a type of the table
    gives its category, any other string gives bug, and an issue without a
    type counts as a code smell (maintainability); a severity of the table
    gives its severity, any other hashable value gives medium, and an
    issue without a severity counts as major (high).  A finding is only
    made of an issue whose type is a string. *)
Theorem sonar_to_unified_mapping (issue : pydict) (f : UnifiedFinding) :
  sonar_to_unified issue = Some f ->
  (exists s, dict_get issue "type" (PStr "CODE_SMELL") = PStr s) /\
  (dict_lookup "type" issue = None -> category f = "maintainability") /\
  (forall s c, dict_lookup "type" issue = Some (PStr s) ->
     (s, c) ∈ SONAR_TYPE_MAP -> category f = c) /\
  (forall s, dict_lookup "type" issue = Some (PStr s) ->
     s ∉ SONAR_TYPE_MAP.*1 -> category f = "bug") /\
  (dict_lookup "severity" issue = None -> severity f = "high") /\
  (forall s c, dict_lookup "severity" issue = Some (PStr s) ->
     (s, c) ∈ SONAR_SEVERITY_MAP -> severity f = c) /\
  (forall v, dict_lookup "severity" issue = Some v ->
     (forall s, v = PStr s -> s ∉ SONAR_SEVERITY_MAP.*1) ->
     severity f = "medium").
Proof.
  unfold sonar_to_unified. intros Hf.
  destruct (table_get SONAR_TYPE_MAP _ _) as [cat|] eqn:Hcat; [|done].
  destruct (table_get SONAR_SEVERITY_MAP _ _) as [sev|] eqn:Hsev; [|done].
  cbn [mbind option_bind] in Hf.
  destruct (sonar_description issue); [|done]. cbn [mbind option_bind] in Hf.
  destruct (py_slice_to 100 _); [|done]. cbn [mbind option_bind] in Hf.
  destruct (py_lower _) as [tag|] eqn:Htag; [|done].
  cbn [mbind option_bind] in Hf. injection Hf as <-. cbn [category severity].
  destruct sonar_tables_nodup as [Hnd1 Hnd2].
  unfold dict_get in Hcat, Hsev, Htag |- *.
  split; [|split; [|split; [|split; [|split; [|split]]]]].
  - destruct (dict_lookup "type" issue) as [[| | | |s| |]|]; try done; by eexists.
  - intros E. rewrite E in Hcat. cbn in Hcat. by injection Hcat as <-.
  - intros s c E Hin. rewrite E in Hcat.
    rewrite (table_get_key _ _ _ _ Hnd1 Hin) in Hcat. by injection Hcat as <-.
  - intros s E Hnot. rewrite E in Hcat.
    apply table_get_cases in Hcat as [(s' & [= <-] & Hin)|[-> _]]; [|done].
    exfalso. apply Hnot. by apply (list_elem_of_fmap_2 fst) in Hin.
  - intros E. rewrite E in Hsev. cbn in Hsev. by injection Hsev as <-.
  - intros s c E Hin. rewrite E in Hsev.
    rewrite (table_get_key _ _ _ _ Hnd2 Hin) in Hsev. by injection Hsev as <-.
  - intros v E Hnot. rewrite E in Hsev.
    apply table_get_cases in Hsev as [(s' & -> & Hin)|[-> _]]; [|done].
    exfalso. apply (Hnot s' eq_refl). by apply (list_elem_of_fmap_2 fst) in Hin.
Qed.

End WithBuiltins.

(** A blocker of an unknown type: bug and critical. *)
Lemma sonar_to_unified_mapping_witness :
  exists f, sonar_to_unified (H := sample_builtins)
              [("type", PStr "TODO"); ("severity", PStr "BLOCKER")] = Some f /\
    category f = "bug" /\ severity f = "critical".
Proof.
  eexists. split; [reflexivity|].
  destruct (sonar_to_unified_mapping (H := sample_builtins)
              [("type", PStr "TODO"); ("severity", PStr "BLOCKER")] _ eq_refl)
    as (_ & _ & _ & Hbug & _ & Hsev & _).
  split.
  - apply (Hbug "TODO"); [reflexivity|by apply (bool_decide_unpack _)].
  - apply (Hsev "BLOCKER"); [reflexivity|by apply (bool_decide_unpack _)].
Defined.

Lemma sonar_to_unified_shape_witness :
  exists f, sonar_to_unified (H := sample_builtins)
              [("rule", PStr "S1"); ("type", PStr "VULNERABILITY")]
            = Some f /\
    category f = "security" /\ confidence f = float_0_95 /\
    tags f = [PStr "vulnerability"; PStr "S1"].
Proof.
  eexists. split; [reflexivity|].
  destruct (sonar_to_unified_shape (H := sample_builtins)
              [("rule", PStr "S1"); ("type", PStr "VULNERABILITY")] _ eq_refl)
    as (_ & Hc & _ & _ & _ & _ & Hrule & type & Htype & Htags).
  split; [reflexivity|]. split; [exact Hc|].
  rewrite Htags, Hrule. injection Htype as <-. reflexivity.
Defined.

Section WithBuiltins.
Context `{Builtins}.

(** ** What an AI finding looks like *)

(** The steps of [ai_to_unified] that returned, by name. *)
Lemma ai_to_unified_inv (issue : pydict) (f : UnifiedFinding) :
  ai_to_unified issue = Some f ->
  exists ai_type sev a b ttl conf,
    py_lower (dict_get issue "type" (dict_get issue "issue_header" (PStr "issue")))
      = Some ai_type /\
    py_lower (dict_get issue "severity" (PStr "medium")) = Some sev /\
    py_int (dict_get issue "start_line" (dict_get issue "line" (PInt 1)))
      = Some a /\
    py_int (dict_get issue "end_line"
              (dict_get issue "start_line" (dict_get issue "line" (PInt 1))))
      = Some b /\
    py_slice_to 100
      (dict_get issue "title" (dict_get issue "issue_header" (PStr "Issue detected")))
      = Some ttl /\
    py_float (dict_get issue "confidence" (PFloat float_0_75)) = Some conf /\
    table_get AI_TYPE_MAP (PStr (str_replace_char " " "_" ai_type))
      FindingCategory.BUG = Some (category f) /\
    severity f = (if bool_decide (sev ∈ FindingSeverity.values) then sev
                  else FindingSeverity.MEDIUM) /\
    start_line f = PInt a /\ end_line f = PInt b /\ title f = ttl /\
    confidence f = conf /\
    source f = "pr_agent" /\ sonar_rule_id f = PNone /\ also_found_by f = [] /\
    tags f = [PStr (category f); PStr "ai-detected"] /\
    fix_ f =
      (if truthy (dict_get issue "suggestion" PNone)
          || truthy (dict_get issue "fixed_code" PNone)
       then Some {|
         original_code :=
           dict_get issue "original_code" (dict_get issue "code_snippet" (PStr ""));
         fixed_code :=
           dict_get issue "fixed_code" (dict_get issue "suggestion" (PStr ""));
         explanation :=
           dict_get issue "explanation" (dict_get issue "description" (PStr ""));
         applicable := true |}
       else None).
Proof.
  unfold ai_to_unified. intros Hf.
  destruct (py_lower (dict_get issue "type" _)) as [ai_type|]; [|done].
  cbn [mbind option_bind] in Hf. cbv zeta in Hf.
  destruct (table_get AI_TYPE_MAP _ _) as [cat|] eqn:Hcat; [|done].
  cbn [mbind option_bind] in Hf.
  destruct (py_lower (dict_get issue "severity" _)) as [sev|]; [|done].
  cbn [mbind option_bind] in Hf. cbv zeta in Hf.
  destruct (py_int (dict_get issue "start_line" _)) as [a|]; [|done].
  cbn [mbind option_bind] in Hf.
  destruct (py_int (dict_get issue "end_line" _)) as [b|]; [|done].
  cbn [mbind option_bind] in Hf.
  destruct (py_slice_to 100 _) as [ttl|]; [|done].
  cbn [mbind option_bind] in Hf.
  destruct (py_float _) as [conf|]; [|done].
  cbn [mbind option_bind] in Hf. injection Hf as <-.
  exists ai_type, sev, a, b, ttl, conf. cbn. by repeat split.
Qed.

(** Whatever the raw issue holds, a finding made by [ai_to_unified] is a
    finding of the AI review without a rule id and without other
    reporters; its severity is one of the five severities and its category
    bug, logic, security, style or performance; its lines are integers; it
    carries a fix exactly when the issue has a true [suggestion] or
    [fixed_code], and the fix is then applicable. *)
Theorem ai_to_unified_shape (issue : pydict) (f : UnifiedFinding) :
  ai_to_unified issue = Some f ->
  source f = "pr_agent" /\ sonar_rule_id f = PNone /\ also_found_by f = [] /\
  severity f ∈ FindingSeverity.values /\ category f ∈ ai_categories /\
  tags f = [PStr (category f); PStr "ai-detected"] /\
  (exists a b, start_line f = PInt a /\ end_line f = PInt b) /\
  (is_Some (fix_ f) <->
     truthy (dict_get issue "suggestion" PNone) = true \/
     truthy (dict_get issue "fixed_code" PNone) = true) /\
  (forall x, fix_ f = Some x -> applicable x = true).
Proof.
  intros (ai_type & sev & a & b & ttl & conf & _ & _ & _ & _ & _ & _ &
          Hcat & Hsev & Ha & Hb & _ & _ & Hsrc & Hrule & Hafb & Htags & Hfix)
         %ai_to_unified_inv.
  split; [done|]. split; [done|]. split; [done|].
  split; [|split; [|split; [done|split; [by exists a, b|split]]]].
  - rewrite Hsev. case_bool_decide; [done|].
    by apply (bool_decide_unpack _).
  - by eapply table_get_within.
  - rewrite Hfix, <- orb_true_iff. destruct (_ || _).
    + split; [done|]. intros _. by eexists.
    + split; [by intros [? ?]|done].
  - intros x. rewrite Hfix. destruct (_ || _); [|done]. by intros [= <-].
Qed.

(** The severity of an AI finding is the raw severity in lower case when
    that is one of the five severities, and medium otherwise; an issue
    without a severity is medium. *)
Theorem ai_to_unified_severity (issue : pydict) (f : UnifiedFinding) :
  ai_to_unified issue = Some f ->
  (dict_lookup "severity" issue = None -> severity f = "medium") /\
  (forall s, dict_lookup "severity" issue = Some (PStr s) ->
     str_lower s ∈ FindingSeverity.values -> severity f = str_lower s) /\
  (forall s, dict_lookup "severity" issue = Some (PStr s) ->
     str_lower s ∉ FindingSeverity.values -> severity f = "medium").
Proof.
  intros (ai_type & sev & a & b & ttl & conf & _ & Hlow & _ & _ & _ & _ &
          _ & Hsev & _)%ai_to_unified_inv.
  unfold dict_get in Hlow. rewrite Hsev. split; [|split].
  - intros E. rewrite E in Hlow. by injection Hlow as <-.
  - intros s E Hin. rewrite E in Hlow. injection Hlow as <-.
    by rewrite bool_decide_eq_true_2.
  - intros s E Hin. rewrite E in Hlow. injection Hlow as <-.
    by rewrite bool_decide_eq_false_2.
Qed.

End WithBuiltins.

Lemma ai_to_unified_shape_witness :
  exists f, ai_to_unified (H := sample_builtins) suggestion_issue = Some f /\
    is_Some (fix_ f) /\ severity f ∈ FindingSeverity.values.
Proof.
  eexists. split; [reflexivity|].
  destruct (ai_to_unified_shape (H := sample_builtins) suggestion_issue _ eq_refl)
    as (_ & _ & _ & Hsev & _ & _ & _ & Hfix & _).
  split; [|exact Hsev]. apply Hfix. by left.
Defined.

Lemma ai_to_unified_severity_witness :
  exists f, ai_to_unified (H := sample_builtins) suggestion_issue = Some f /\
    severity f = "high".
Proof.
  eexists. split; [reflexivity|].
  destruct (ai_to_unified_severity (H := sample_builtins) suggestion_issue _ eq_refl)
    as (_ & Hvalid & _).
  apply (Hvalid "HIGH"); [reflexivity|by apply (bool_decide_unpack _)].
Defined.

Section WithBuiltins.
Context `{Builtins}.

(** ** Identifiers *)

Lemma sonar_convert_issue_id (issue : pyval) (f : UnifiedFinding) :
  sonar_convert_issue issue = Some f ->
  id f = sonar_id (sonar_rule_id f) (file f) (start_line f).
Proof.
  unfold sonar_convert_issue. destruct issue as [| | | | | |d]; try done.
  cbn [py_get mbind option_bind].
  destruct (py_has_colon _) as [c|]; [|done]. cbn [mbind option_bind].
  destruct c.
  - destruct (py_split_colon_last _) as [file'|]; [|done].
    cbn [mbind option_bind]. intros Hf.
    unfold sonar_to_unified in Hf. all_returned Hf. by injection Hf as <-.
  - cbn [mbind option_bind]. intros Hf.
    unfold sonar_to_unified in Hf. all_returned Hf. by injection Hf as <-.
Qed.

(** The id of a finding of the static batch normalizer is a function of
    its rule id, file and line: two raw issues that agree on these get the
    same id, so a rerun gives a finding its id again and the project
    prefix of the component does not count. *)
Theorem sonar_id_stable (issue1 issue2 : pyval) (f1 f2 : UnifiedFinding) :
  sonar_convert_issue issue1 = Some f1 ->
  sonar_convert_issue issue2 = Some f2 ->
  sonar_rule_id f1 = sonar_rule_id f2 ->
  file f1 = file f2 ->
  start_line f1 = start_line f2 ->
  id f1 = id f2.
Proof.
  intros H1%sonar_convert_issue_id H2%sonar_convert_issue_id Hr Hfile Hl.
  by rewrite H1, H2, Hr, Hfile, Hl.
Qed.

(** The id of an AI finding is made of the raw entries [file],
    [start_line] and [title] alone: issues that agree on these three get
    the same id, also when their findings differ because the line or the
    file comes from [line] or [relevant_file]. *)
Theorem ai_id_raw_entries (issue1 issue2 : pydict) (f1 f2 : UnifiedFinding) :
  ai_to_unified issue1 = Some f1 ->
  ai_to_unified issue2 = Some f2 ->
  dict_lookup "file" issue1 = dict_lookup "file" issue2 ->
  dict_lookup "start_line" issue1 = dict_lookup "start_line" issue2 ->
  dict_lookup "title" issue1 = dict_lookup "title" issue2 ->
  id f1 = id f2.
Proof.
  unfold ai_to_unified. intros H1 H2 Hfile Hline Htitle.
  all_returned H1. all_returned H2.
  injection H1 as <-. injection H2 as <-. cbn [id].
  unfold dict_get. by rewrite Hfile, Hline, Htitle.
Qed.

(** ** Response formats *)

Lemma dict_get_present d k default v :
  dict_lookup k d = Some v -> dict_get d k default = v.
Proof. unfold dict_get. by intros ->. Qed.

Lemma dict_get_missing d k default :
  dict_lookup k d = None -> dict_get d k default = default.
Proof. unfold dict_get. by intros ->. Qed.

Lemma dict_get_absent_or_false d k :
  absent_or_false d k -> truthy (dict_get d k (PList [])) = false.
Proof.
  unfold absent_or_false, dict_get. intros Hk.
  destruct (dict_lookup k d) as [v|]; [by apply Hk|done].
Qed.

(** The static batch normalizer reads one format only: a true
    [vulnerabilities] entry hides [issues] and [findings], a true [issues]
    entry is read when [vulnerabilities] is absent or false, and a
    response with none of the three (or only false ones) gives the empty
    list. *)
Theorem sonar_response_formats (resp : pydict) :
  (forall v, dict_lookup "vulnerabilities" resp = Some v -> truthy v = true ->
     sonar_response_to_unified resp
     = sonar_response_to_unified [("vulnerabilities", v)]) /\
  (forall v, absent_or_false resp "vulnerabilities" ->
     dict_lookup "issues" resp = Some v -> truthy v = true ->
     sonar_response_to_unified resp = sonar_response_to_unified [("issues", v)]) /\
  (forall v, absent_or_false resp "vulnerabilities" ->
     absent_or_false resp "issues" ->
     dict_lookup "findings" resp = Some v -> truthy v = true ->
     sonar_response_to_unified resp
     = sonar_response_to_unified [("findings", v)]) /\
  (absent_or_false resp "vulnerabilities" -> absent_or_false resp "issues" ->
   absent_or_false resp "findings" ->
   sonar_response_to_unified resp = Some []).
Proof.
  unfold sonar_response_to_unified, sonar_issues, py_or.
  split; [|split; [|split]].
  - intros v Hv Ht. rewrite (dict_get_present _ _ _ _ Hv), Ht.
    cbn. by rewrite Ht.
  - intros v H1 Hv Ht. rewrite (dict_get_absent_or_false _ _ H1).
    rewrite (dict_get_present _ _ _ _ Hv), Ht. cbn. by rewrite Ht.
  - intros v H1 H2 Hv Ht. rewrite (dict_get_absent_or_false _ _ H1).
    rewrite (dict_get_absent_or_false _ _ H2).
    rewrite (dict_get_present _ _ _ _ Hv), Ht. cbn. by rewrite Ht.
  - intros H1 H2 H3. rewrite (dict_get_absent_or_false _ _ H1).
    rewrite (dict_get_absent_or_false _ _ H2).
    by rewrite (dict_get_absent_or_false _ _ H3).
Qed.

(** The AI batch normalizer reads [review] only when [issues] is absent
    or false: with a true [issues] entry it returns what it returns on
    that entry alone, whatever else the response holds; with no entry at
    all it gives the empty list. *)
Theorem ai_response_formats (resp : pydict) :
  (forall v, dict_lookup "issues" resp = Some v -> truthy v = true ->
     ai_response_to_unified resp = ai_response_to_unified [("issues", v)]) /\
  (forall r v, absent_or_false resp "issues" ->
     dict_lookup "review" resp = Some (PDict r) ->
     dict_lookup "key_issues_to_review" r = Some v -> truthy v = true ->
     ai_response_to_unified resp
     = ai_response_to_unified
         [("review", PDict [("key_issues_to_review", v)])]) /\
  (absent_or_false resp "issues" -> dict_lookup "review" resp = None ->
   absent_or_false resp "code_feedback" ->
   ai_response_to_unified resp = Some []).
Proof.
  unfold ai_response_to_unified, ai_issues, py_or.
  split; [|split].
  - intros v Hv Ht. rewrite (dict_get_present _ _ _ _ Hv), Ht.
    cbn. by rewrite Ht.
  - intros r v H1 Hr Hv Ht. rewrite (dict_get_absent_or_false _ _ H1).
    rewrite (dict_get_present _ _ _ _ Hr). cbn [py_get mbind option_bind].
    rewrite (dict_get_present _ _ _ _ Hv), Ht. cbn. by rewrite Ht.
  - intros H1 Hr H3. rewrite (dict_get_absent_or_false _ _ H1).
    rewrite (dict_get_missing _ _ _ Hr). cbn.
    by rewrite (dict_get_absent_or_false _ _ H3).
Qed.

(** A batch normalizer returns at most one finding per item of its
    issues value, and none for an item that is not a dict. *)
Theorem batch_length (resp : pydict) (out : list UnifiedFinding) :
  (sonar_response_to_unified resp = Some out ->
   exists items, py_iter (sonar_issues resp) = Some items /\
     (length out <= length items)%nat /\
     ((forall x, x ∈ items -> forall d, x <> PDict d) -> out = [])) /\
  (ai_response_to_unified resp = Some out ->
   exists issues items, ai_issues resp = Some issues /\
     py_iter issues = Some items /\
     (length out <= length items)%nat /\
     ((forall x, x ∈ items -> forall d, x <> PDict d) -> out = [])).
Proof.
  assert (Hlen : forall (convert : pyval -> option UnifiedFinding) items,
            (length (convert_each convert items) <= length items)%nat).
  { intros convert items. unfold convert_each.
    induction items as [|x items IH]; cbn; [done|].
    destruct (convert x); cbn; lia. }
  assert (Hnone : forall (convert : pyval -> option UnifiedFinding) items,
            (forall x, x ∈ items -> convert x = None) ->
            convert_each convert items = []).
  { intros convert items Hall. unfold convert_each.
    induction items as [|x items IH]; cbn; [done|].
    rewrite (Hall x) by left. apply IH. intros y Hy. apply Hall. by right. }
  split.
  - unfold sonar_response_to_unified.
    destruct (py_iter _) as [items|]; [|done]. cbn. intros [= <-].
    exists items. split; [done|]. split; [apply Hlen|].
    intros Hnd. apply Hnone. intros x Hx.
    destruct x as [| | | | | |d]; try done. by destruct (Hnd _ Hx d).
  - unfold ai_response_to_unified.
    destruct (ai_issues resp) as [issues|]; [|done]. cbn.
    destruct (py_iter issues) as [items|] eqn:Hit; [|done]. cbn. intros [= <-].
    exists issues, items. split; [done|]. split; [done|]. split; [apply Hlen|].
    intros Hnd. apply Hnone. intros x Hx.
    destruct x as [| | | | | |d]; try done. by destruct (Hnd _ Hx d).
Qed.

End WithBuiltins.

(** The same issue under the project keys "projA" and "projB". *)
Lemma sonar_id_stable_witness :
  exists f1 f2,
    sonar_convert_issue (H := sample_builtins) (issue_of_project "projA") = Some f1 /\
    sonar_convert_issue (H := sample_builtins) (issue_of_project "projB") = Some f2 /\
    id f1 = id f2.
Proof.
  eexists _, _. split; [reflexivity|]. split; [reflexivity|].
  apply (sonar_id_stable (H := sample_builtins)
           (issue_of_project "projA") (issue_of_project "projB"));
    reflexivity.
Defined.

(** Two AI issues on the lines 5 and 7 given as [line]: one id, two
    start lines. *)
Lemma ai_id_raw_entries_witness :
  exists f1 f2,
    ai_to_unified (H := sample_builtins) [("line", PInt 5)] = Some f1 /\
    ai_to_unified (H := sample_builtins) [("line", PInt 7)] = Some f2 /\
    id f1 = id f2 /\ start_line f1 <> start_line f2.
Proof.
  eexists _, _. split; [reflexivity|]. split; [reflexivity|]. split.
  - apply (ai_id_raw_entries (H := sample_builtins)
             [("line", PInt 5)] [("line", PInt 7)]); reflexivity.
  - discriminate.
Defined.

(** A [vulnerabilities] entry before a malformed [issues] entry. *)
Lemma sonar_response_formats_witness :
  sonar_response_to_unified (H := sample_builtins)
    [("vulnerabilities", PList [secret_issue]); ("issues", PInt 5)]
  = sonar_response_to_unified (H := sample_builtins)
      [("vulnerabilities", PList [secret_issue])].
Proof.
  apply (proj1 (sonar_response_formats (H := sample_builtins)
                  [("vulnerabilities", PList [secret_issue]); ("issues", PInt 5)]));
    reflexivity.
Defined.

(** An [issues] entry before a [review] entry that is no dict. *)
Lemma ai_response_formats_witness :
  ai_response_to_unified (H := sample_builtins)
    [("issues", PList [PDict suggestion_issue]); ("review", PStr "looks good")]
  = ai_response_to_unified (H := sample_builtins)
      [("issues", PList [PDict suggestion_issue])].
Proof.
  apply (proj1 (ai_response_formats (H := sample_builtins)
                  [("issues", PList [PDict suggestion_issue]);
                   ("review", PStr "looks good")]));
    reflexivity.
Defined.

(** An issues value that is a string: its characters are iterated and
    none converts. *)
Lemma batch_length_witness :
  exists out,
    sonar_response_to_unified (H := sample_builtins) [("issues", PStr "none")]
    = Some out /\ out = [].
Proof.
  eexists. split; [reflexivity|].
  destruct (proj1 (batch_length (H := sample_builtins)
                     [("issues", PStr "none")] _) eq_refl)
    as (items & Hit & _ & Hnone).
  apply Hnone. cbn in Hit. injection Hit as <-.
  intros x Hx d ->.
  repeat (apply elem_of_cons in Hx as [Hx|Hx]; [discriminate Hx|]).
  by apply elem_of_nil in Hx.
Defined.

End NormalizerMore.

(* ===================================================================== *)
(** * Further properties of deduplication                                 *)
(* ===================================================================== *)

Module DedupMore.
Import Py Findings FindingsSpec FindingsFacts.

(** ** Counting *)

Lemma count_if_nil P : count_if P [] = 0.
Proof. done. Qed.

Lemma count_if_cons P f fs : count_if P (f :: fs) = b2z (P f) + count_if P fs.
Proof.
  unfold count_if. rewrite filter_cons.
  destruct (decide (P f = true)) as [->|Hf]; cbn [b2z length].
  - lia.
  - destruct (P f); [done|]. cbn. lia.
Qed.

Lemma count_if_app P fs gs :
  count_if P (fs ++ gs) = count_if P fs + count_if P gs.
Proof.
  induction fs as [|f fs IH]; cbn [app].
  - rewrite count_if_nil. lia.
  - rewrite !count_if_cons, IH. lia.
Qed.

Lemma count_if_nonneg P fs : 0 <= count_if P fs.
Proof. unfold count_if. lia. Qed.

Lemma count_if_le_length P fs : count_if P fs <= Z.of_nat (length fs).
Proof.
  induction fs as [|f fs IH]; [done|].
  rewrite count_if_cons. cbn [length]. destruct (P f); cbn [b2z]; lia.
Qed.

Lemma count_if_true fs : count_if (fun _ => true) fs = Z.of_nat (length fs).
Proof.
  induction fs as [|f fs IH]; [done|].
  rewrite count_if_cons, IH. cbn [b2z length]. lia.
Qed.

Lemma seen_store_count P key v (seen : seen_t) :
  count_if P (seen_store key v seen).*2
  = match seen_lookup key seen with
    | Some e => count_if P seen.*2 - b2z (P e) + b2z (P v)
    | None => count_if P seen.*2 + b2z (P v)
    end.
Proof.
  induction seen as [|[k w] r IH]; cbn [seen_store seen_lookup].
  - cbn. rewrite count_if_cons, count_if_nil. lia.
  - destruct (decide (k = key)) as [->|Hne].
    + rewrite !fmap_cons, !count_if_cons. cbn. lia.
    + rewrite !fmap_cons, !count_if_cons, IH. cbn [snd].
      destruct (seen_lookup key r); lia.
Qed.

Lemma merged_stable P winner loser w :
  stable P -> merged_into winner loser w -> P w = P winner.
Proof. intros HP (Hsame & _). by apply HP. Qed.

Lemma dedup_step_count P seen g seen' :
  stable P -> dedup_step seen g = Some seen' ->
  count_if P seen'.*2 <= count_if P seen.*2 + b2z (P g).
Proof.
  intros HP Hstep.
  destruct (dedup_key g) as [key|] eqn:Hg;
    [|unfold dedup_step in Hstep; by rewrite Hg in Hstep].
  destruct (seen_lookup key seen) as [existing|] eqn:Hl.
  - destruct (dedup_step_merge seen g existing key Hg Hl)
      as (w & Hstep' & Hgt & Hle).
    rewrite Hstep' in Hstep. injection Hstep as <-.
    rewrite seen_store_count, Hl.
    destruct (float_gt (confidence g) (confidence existing)).
    + rewrite (merged_stable P _ _ _ HP (Hgt eq_refl)).
      destruct (P existing); cbn [b2z]; lia.
    + rewrite (merged_stable P _ _ _ HP (Hle eq_refl)).
      destruct (P g); cbn [b2z]; lia.
  - unfold dedup_step in Hstep. rewrite Hg in Hstep. cbn in Hstep.
    rewrite Hl in Hstep. injection Hstep as <-.
    rewrite seen_store_count, Hl. lia.
Qed.

Lemma dedup_loop_count P fs seen seen' :
  stable P -> dedup_loop seen fs = Some seen' ->
  count_if P seen'.*2 <= count_if P seen.*2 + count_if P fs.
Proof.
  intros HP. revert seen. induction fs as [|g fs IH]; intros seen; cbn.
  - intros [= <-]. rewrite count_if_nil. lia.
  - destruct (dedup_step seen g) as [seen1|] eqn:Hstep; [|done]. cbn.
    intros Hloop. apply IH in Hloop.
    pose proof (dedup_step_count P seen g seen1 HP Hstep).
    rewrite count_if_cons. lia.
Qed.

Lemma dedup_count_le fs out P :
  deduplicate_findings fs = Some out -> stable P ->
  count_if P out <= count_if P fs.
Proof.
  unfold deduplicate_findings.
  destruct (dedup_loop [] fs) as [seen|] eqn:Hloop; [|done]. cbn.
  intros [= <-] HP.
  pose proof (dedup_loop_count _ fs [] seen HP Hloop) as Hle.
  by rewrite count_if_nil in Hle.
Qed.

Lemma dedup_length_le fs out :
  deduplicate_findings fs = Some out -> (length out <= length fs)%nat.
Proof.
  intros Hout.
  assert (Hs : stable (fun _ => true)) by done.
  pose proof (dedup_count_le fs out _ Hout Hs) as Hle.
  rewrite !count_if_true in Hle. lia.
Qed.

(** Deduplication only removes: the returned list is no longer than the
    input, and for every property that merging leaves alone (a severity,
    a category, a source, a file) it holds no more findings with that
    property than the input. *)
Theorem dedup_counts (fs out : list UnifiedFinding) (P : UnifiedFinding -> bool) :
  deduplicate_findings fs = Some out ->
  (length out <= length fs)%nat /\
  (stable P -> count_if P out <= count_if P fs).
Proof.
  intros Hout. split.
  - by apply dedup_length_le.
  - intros HP. by apply dedup_count_le.
Qed.

Lemma severity_stable s : stable (fun f => String.eqb (severity f) s).
Proof. intros f w (_ & _ & _ & -> & _). done. Qed.

Lemma category_stable s : stable (fun f => String.eqb (category f) s).
Proof. intros f w (_ & _ & -> & _). done. Qed.

Lemma dedup_counts_witness :
  exists out,
    deduplicate_findings [report_manual; report_ai; report_sonar] = Some out /\
    (length out <= 3)%nat.
Proof.
  eexists. split; [reflexivity|].
  exact (proj1 (dedup_counts [report_manual; report_ai; report_sonar] _
                  (fun _ => true) eq_refl)).
Defined.

(** ** The verdict before and after *)

Lemma gate_rank_cases fs :
  let crit := count_if (fun f => String.eqb (severity f) FindingSeverity.CRITICAL) fs in
  let sec := count_if (fun f => String.eqb (category f) FindingCategory.SECURITY) fs in
  let high := count_if (fun f => String.eqb (severity f) FindingSeverity.HIGH) fs in
  gate_rank (determine_quality_gate fs)
  = if (crit >? 0) || (sec >? 0) then 2%nat
    else if high >? 2 then 1%nat else 0%nat.
Proof.
  cbv zeta. unfold determine_quality_gate.
  destruct (_ || _); [done|]. by destruct (_ >? 2).
Qed.

(** Fewer critical, security and high findings give no worse a verdict. *)
Lemma gate_rank_le (fs gs : list UnifiedFinding) :
  (forall P, (exists s, P = fun f => String.eqb (severity f) s) \/
             (exists s, P = fun f => String.eqb (category f) s) ->
     count_if P fs <= count_if P gs) ->
  (gate_rank (determine_quality_gate fs)
   <= gate_rank (determine_quality_gate gs))%nat.
Proof.
  intros Hle.
  pose proof (Hle _ (or_introl (ex_intro _ FindingSeverity.CRITICAL eq_refl))) as Hc.
  pose proof (Hle _ (or_intror (ex_intro _ FindingCategory.SECURITY eq_refl))) as Hs.
  pose proof (Hle _ (or_introl (ex_intro _ FindingSeverity.HIGH eq_refl))) as Hh.
  cbv beta in Hc, Hs, Hh.
  rewrite !gate_rank_cases. cbv zeta.
  repeat match goal with
         | |- context [?a >? ?b] => destruct (Z.gtb_spec a b)
         end; cbn; lia.
Qed.

(** The verdict computed after deduplication is never worse than the
    verdict of the list before it. *)
Theorem dedup_gate (fs out : list UnifiedFinding) :
  deduplicate_findings fs = Some out ->
  (gate_rank (determine_quality_gate out)
   <= gate_rank (determine_quality_gate fs))%nat.
Proof.
  intros Hout. apply gate_rank_le.
  intros P [[s ->]|[s ->]]; apply (dedup_count_le _ _ _ Hout).
  - apply severity_stable.
  - apply category_stable.
Qed.

(** A critical finding that is merged into a more confident medium one
    no longer counts: the verdict goes from failed to passed. *)
Lemma dedup_gate_witness :
  exists out,
    deduplicate_findings [report_critical; report_sonar] = Some out /\
    determine_quality_gate [report_critical; report_sonar] = "failed" /\
    determine_quality_gate out = "passed" /\
    (gate_rank (determine_quality_gate out)
     <= gate_rank (determine_quality_gate [report_critical; report_sonar]))%nat.
Proof.
  eexists. split; [reflexivity|]. split; [reflexivity|]. split; [reflexivity|].
  exact (dedup_gate [report_critical; report_sonar] _ eq_refl).
Defined.

(** ** Lists without shared keys *)

(** A list in which no two findings share a key is returned as it is;
    so what [deduplicate_findings] returns, it returns again when it is
    applied to it. *)
Theorem dedup_idempotent (fs out : list UnifiedFinding) :
  (Forall (fun f => is_Some (dedup_key f)) fs ->
   NoDup (dedup_key <$> fs) -> deduplicate_findings fs = Some fs) /\
  (deduplicate_findings fs = Some out -> deduplicate_findings out = Some out).
Proof.
  split.
  - apply dedup_distinct.
  - unfold deduplicate_findings.
    destruct (dedup_loop [] fs) as [seen|] eqn:Hloop; [|done]. cbn.
    intros [= <-].
    destruct (dedup_loop_inv fs [] [] seen seen_inv_nil Hloop)
      as (Hnd & Hall & _).
    rewrite (dedup_loop_fresh seen []); [done| |done].
    eapply Forall_impl; [exact Hall|]. by intros kw (Hk & _).
Qed.

Lemma dedup_idempotent_witness :
  exists out,
    deduplicate_findings [report_manual; report_ai; report_sonar] = Some out /\
    deduplicate_findings out = Some out.
Proof.
  eexists. split; [reflexivity|].
  exact (proj2 (dedup_idempotent [report_manual; report_ai; report_sonar] _)
           eq_refl).
Defined.

(** ** The confidence of the survivor *)

Lemma SFltb_trans (a b c : float) :
  SFltb a b = true -> SFltb b c = true -> SFltb a c = true.
Proof.
  unfold SFltb.
  destruct a as [sa|sa| |sa ma ea], b as [sb|sb| |sb mb eb],
           c as [sc|sc| |sc mc ec]; cbn;
    try done;
    try (by destruct sa); try (by destruct sb); try (by destruct sc);
    try (by destruct sa, sb); try (by destruct sb, sc); try (by destruct sa, sc);
    try (by destruct sa, sb, sc).
  change (Pos.compare_cont Eq ma mb) with (Pos.compare ma mb).
  change (Pos.compare_cont Eq mb mc) with (Pos.compare mb mc).
  change (Pos.compare_cont Eq ma mc) with (Pos.compare ma mc).
  destruct sa, sb, sc; try done;
    destruct (Z.compare_spec ea eb), (Z.compare_spec eb ec), (Z.compare_spec ea ec);
    try done; try lia; subst;
    destruct (Pos.compare_spec ma mb), (Pos.compare_spec mb mc), (Pos.compare_spec ma mc);
    cbn; try done; try lia.
Qed.

Lemma float_gt_irrefl (a : float) : float_gt a a = false.
Proof.
  destruct (float_gt a a) eqn:E; [|done].
  by rewrite (float_gt_asym a a E) in E.
Qed.

(** Nothing exceeds [g] that does not exceed a value [g] exceeds. *)
Lemma float_gt_above (h g e : float) :
  float_gt g e = true -> float_gt h e = false -> float_gt h g = false.
Proof.
  unfold float_gt. intros Hge Hhe.
  destruct (SFltb g h) eqn:Hgh; [|done].
  by rewrite (SFltb_trans e g h Hge Hgh) in Hhe.
Qed.

Lemma merged_confidence winner loser w :
  merged_into winner loser w -> confidence w = confidence winner.
Proof. by intros ((_&_&_&_&_&_&_&_&_&_&_&->&_) & _). Qed.

Lemma dedup_step_conf prefix seen g seen' :
  seen_inv prefix seen ->
  conf_inv prefix seen -> dedup_step seen g = Some seen' ->
  conf_inv (prefix ++ [g]) seen'.
Proof.
  intros (_ & _ & Hrep) Hinv Hstep.
  destruct (dedup_key g) as [key|] eqn:Hg;
    [|unfold dedup_step in Hstep; by rewrite Hg in Hstep].
  assert (Hother : forall w0 k h, key <> k ->
            seen_lookup k (seen_store key w0 seen) = Some h ->
            forall x, x ∈ prefix ++ [g] -> dedup_key x = Some k ->
            float_gt (confidence x) (confidence h) = false).
  { intros w0 k h Hne Hl x Hx Hxk.
    rewrite seen_lookup_store_ne in Hl by done.
    apply elem_of_app in Hx as [Hx| ->%list_elem_of_singleton];
      [by eapply Hinv|congruence]. }
  destruct (seen_lookup key seen) as [existing|] eqn:Hl.
  - destruct (dedup_step_merge seen g existing key Hg Hl)
      as (w & Hstep' & Hgt & Hle).
    rewrite Hstep' in Hstep. injection Hstep as <-.
    intros k h x Hk Hx Hxk.
    destruct (decide (key = k)) as [<-|Hne]; [|by eapply Hother].
    rewrite seen_lookup_store_eq in Hk. injection Hk as <-.
    destruct (float_gt (confidence g) (confidence existing)) eqn:Hcmp.
    + rewrite (merged_confidence _ _ _ (Hgt eq_refl)).
      apply elem_of_app in Hx as [Hx| ->%list_elem_of_singleton].
      * eapply float_gt_above; [exact Hcmp|]. by eapply Hinv.
      * apply float_gt_irrefl.
    + rewrite (merged_confidence _ _ _ (Hle eq_refl)).
      apply elem_of_app in Hx as [Hx| ->%list_elem_of_singleton];
        [by eapply Hinv|done].
  - unfold dedup_step in Hstep. rewrite Hg in Hstep. cbn in Hstep.
    rewrite Hl in Hstep. injection Hstep as <-.
    intros k h x Hk Hx Hxk.
    destruct (decide (key = k)) as [<-|Hne]; [|by eapply Hother].
    rewrite seen_lookup_store_eq in Hk. injection Hk as <-.
    apply elem_of_app in Hx as [Hx| ->%list_elem_of_singleton].
    + destruct (Hrep x key Hx Hxk) as [e He]. congruence.
    + apply float_gt_irrefl.
Qed.

Lemma dedup_loop_conf fs prefix seen seen' :
  seen_inv prefix seen -> conf_inv prefix seen ->
  dedup_loop seen fs = Some seen' ->
  conf_inv (prefix ++ fs) seen'.
Proof.
  revert prefix seen. induction fs as [|g fs IH]; intros prefix seen Hs Hc; cbn.
  - intros [= <-]. by rewrite app_nil_r.
  - destruct (dedup_step seen g) as [seen1|] eqn:Hstep; [|done]. cbn.
    intros Hloop. rewrite (cons_middle g prefix fs), app_assoc.
    eapply IH; [| |done].
    + by eapply dedup_step_inv.
    + by eapply dedup_step_conf.
Qed.

(** The finding kept for a key is a most confident one: no input finding
    with the same key has a confidence above the confidence of the
    returned finding. *)
Theorem dedup_keeps_most_confident (fs out : list UnifiedFinding)
    (w g : UnifiedFinding) :
  deduplicate_findings fs = Some out ->
  w ∈ out -> g ∈ fs -> dedup_key g = dedup_key w ->
  float_gt (confidence g) (confidence w) = false.
Proof.
  unfold deduplicate_findings.
  destruct (dedup_loop [] fs) as [seen|] eqn:Hloop; [|done]. cbn.
  intros [= <-] Hw Hg Hkey.
  pose proof (dedup_loop_inv fs [] [] seen seen_inv_nil Hloop) as Hinv.
  assert (Hc0 : conf_inv [] []) by (by intros ? ? ? ?).
  pose proof (dedup_loop_conf fs [] [] seen seen_inv_nil Hc0 Hloop) as Hconf.
  rewrite app_nil_l in Hinv, Hconf. destruct Hinv as (Hnd & Hall & _).
  apply list_elem_of_fmap in Hw as ([k w'] & -> & Hin). cbn [snd] in *.
  rewrite Forall_forall in Hall. destruct (Hall _ Hin) as (Hk & _).
  cbn in Hk. eapply Hconf; [by apply seen_lookup_elem|done|congruence].
Qed.

Lemma dedup_keeps_most_confident_witness :
  float_gt (confidence report_ai)
    (confidence (append_also_found_by "pr_agent" report_sonar)) = false.
Proof.
  apply (dedup_keeps_most_confident [report_manual; report_ai; report_sonar]
           [append_also_found_by "pr_agent" report_sonar]).
  - reflexivity.
  - left.
  - right. left.
  - reflexivity.
Defined.

End DedupMore.

(* ===================================================================== *)
(** * Further properties of the summary                                   *)
(* ===================================================================== *)

Module SummaryMore.
Import Py Findings FindingsSpec FindingsFacts DedupMore.

(** ** The verdict of a longer list *)

Lemma gate_failed_iff (fs : list UnifiedFinding) :
  determine_quality_gate fs = "failed" <-> exists f, f ∈ fs /\ blocking f.
Proof.
  unfold determine_quality_gate.
  destruct (_ || _) eqn:E.
  - split; [intros _|done]. apply orb_true_iff in E.
    destruct E as [(f & Hf & E)%count_if_pos|(f & Hf & E)%count_if_pos];
      apply String.eqb_eq in E; exists f; (split; [done|]);
      [by left|by right].
  - split; [by destruct (_ >? 2)|]. intros (f & Hf & Hb). exfalso.
    apply orb_false_iff in E as [E1 E2].
    destruct Hb as [Hb|Hb].
    + assert (Ht : (count_if (fun f => String.eqb (severity f) FindingSeverity.CRITICAL) fs >? 0) = true).
      { apply count_if_pos. exists f. split; [done|]. by apply String.eqb_eq. }
      congruence.
    + assert (Ht : (count_if (fun f => String.eqb (category f) FindingCategory.SECURITY) fs >? 0) = true).
      { apply count_if_pos. exists f. split; [done|]. by apply String.eqb_eq. }
      congruence.
Qed.

(** Findings only make the verdict worse: the verdict of a list is at
    most the verdict of the list with more findings before or after it;
    the empty list passes; and merged findings fail exactly when one of
    the two lists fails. *)
Theorem gate_monotone (fs gs : list UnifiedFinding) :
  (gate_rank (determine_quality_gate fs)
   <= gate_rank (determine_quality_gate (fs ++ gs)))%nat /\
  (gate_rank (determine_quality_gate gs)
   <= gate_rank (determine_quality_gate (fs ++ gs)))%nat /\
  determine_quality_gate [] = "passed" /\
  (determine_quality_gate (merge_findings fs gs) = "failed" <->
   determine_quality_gate fs = "failed" \/ determine_quality_gate gs = "failed").
Proof.
  split; [|split; [|split; [done|]]].
  - rewrite !gate_rank_cases. cbv zeta. rewrite !count_if_app.
    pose proof (count_if_nonneg (fun f => String.eqb (severity f) FindingSeverity.CRITICAL) gs).
    pose proof (count_if_nonneg (fun f => String.eqb (category f) FindingCategory.SECURITY) gs).
    pose proof (count_if_nonneg (fun f => String.eqb (severity f) FindingSeverity.HIGH) gs).
    repeat match goal with
           | |- context [?a >? ?b] => destruct (Z.gtb_spec a b)
           end; cbn; lia.
  - rewrite !gate_rank_cases. cbv zeta. rewrite !count_if_app.
    pose proof (count_if_nonneg (fun f => String.eqb (severity f) FindingSeverity.CRITICAL) fs).
    pose proof (count_if_nonneg (fun f => String.eqb (category f) FindingCategory.SECURITY) fs).
    pose proof (count_if_nonneg (fun f => String.eqb (severity f) FindingSeverity.HIGH) fs).
    repeat match goal with
           | |- context [?a >? ?b] => destruct (Z.gtb_spec a b)
           end; cbn; lia.
  - unfold merge_findings.
    rewrite !gate_failed_iff. split.
    + intros (f & [Hf|Hf]%elem_of_app & Hb); [left|right]; by exists f.
    + intros [(f & Hf & Hb)|(f & Hf & Hb)]; exists f;
        (split; [apply elem_of_app; tauto|done]).
Qed.

(** ** The counts of the summary *)

Lemma foldl_bump (key : UnifiedFinding -> string) fs (d0 : gmap string Z) s :
  foldl (fun d f => bump (key f) d) d0 fs !! s
  = match d0 !! s with
    | Some n => Some (n + count_if (fun f => String.eqb (key f) s) fs)
    | None => count_entry (count_if (fun f => String.eqb (key f) s) fs)
    end.
Proof.
  revert d0. induction fs as [|f fs IH]; intros d0; cbn [foldl].
  - rewrite count_if_nil. destruct (d0 !! s); [f_equal; lia|done].
  - rewrite IH, count_if_cons. unfold bump.
    pose proof (count_if_nonneg (fun f => String.eqb (key f) s) fs) as Hc.
    destruct (String.eqb_spec (key f) s) as [->|Hne]; cbn [b2z].
    + rewrite lookup_insert_eq.
      destruct (d0 !! s) as [n|]; cbn [default from_option Datatypes.id].
      * f_equal; lia.
      * unfold count_entry.
        match goal with
        | |- _ = (if ?a =? 0 then _ else _) => destruct (Z.eqb_spec a 0)
        end; [lia|f_equal; lia].
    + rewrite lookup_insert_ne by done.
      destruct (d0 !! s); [done|]. f_equal.
Qed.

(** The summary counts what is in the list: [total] is its length,
    [with_fix] the number of findings with a fix (between 0 and the
    total), each of the three dicts has, under a source, severity or
    category, the number of findings with it and no entry where that
    number is 0, and the verdict is the quality gate of the list. *)
Theorem create_summary_counts (fs : list UnifiedFinding) (s : string) :
  let summary := create_summary fs in
  total summary = Z.of_nat (length fs) /\
  0 <= with_fix summary <= total summary /\
  by_source summary !! s
    = count_entry (count_if (fun f => String.eqb (source f) s) fs) /\
  by_severity summary !! s
    = count_entry (count_if (fun f => String.eqb (severity f) s) fs) /\
  by_category summary !! s
    = count_entry (count_if (fun f => String.eqb (category f) s) fs) /\
  quality_gate summary = determine_quality_gate fs.
Proof.
  cbv zeta. unfold create_summary. cbn [total with_fix by_source by_severity
    by_category quality_gate].
  split; [done|]. split.
  - split; [apply count_if_nonneg|apply count_if_le_length].
  - rewrite !foldl_bump, !lookup_empty. done.
Qed.

End SummaryMore.

(* ===================================================================== *)
(** * Further properties of the orchestrator                              *)
(* ===================================================================== *)

Module OrchestratorMore.
Import Py Findings Orchestrator FindingsSpec OrchestratorSpec FindingsFacts
       DedupMore SummaryMore OrchestratorFacts.

Section Run.
Variable _generate_fix : nat -> UnifiedFinding -> option GeneratedFix.

(** ** The fix pass *)

Lemma fix_round_same i f : same_finding f (fix_round _generate_fix i f).
Proof. unfold fix_round. destruct (_generate_fix i f); by repeat split. Qed.

Lemma generate_missing_fixes_cases (l : list UnifiedFinding) :
  _generate_missing_fixes _generate_fix l
  = if forallb (fun f => negb (has_no_fix f)) l then l
    else List.filter (fun f => negb (has_no_fix f)) l
         ++ imap (fix_round _generate_fix) (List.filter has_no_fix l).
Proof.
  unfold _generate_missing_fixes.
  destruct (forallb _ l) eqn:Hall.
  - rewrite forallb_forall in Hall.
    assert (List.filter has_no_fix l = []) as ->; [|done].
    induction l as [|f l IH]; [done|]. cbn.
    pose proof (Hall f (or_introl eq_refl)) as Hf.
    destruct (has_no_fix f); [done|]. apply IH. intros x Hx. apply Hall. by right.
  - destruct (List.filter has_no_fix l) as [|n ns] eqn:Hn; [|done].
    exfalso. assert (forallb (fun f => negb (has_no_fix f)) l = true); [|congruence].
    apply forallb_forall. intros x Hx.
    destruct (has_no_fix x) eqn:Hfx; [|done].
    assert (In x (List.filter has_no_fix l)) by (by apply filter_In).
    rewrite Hn in *. done.
Qed.

Lemma filter_split_length {A} (q : A -> bool) (l : list A) :
  (length (List.filter (fun x => negb (q x)) l) + length (List.filter q l)
   = length l)%nat.
Proof.
  induction l as [|x l IH]; [done|]. cbn. destruct (q x); cbn; lia.
Qed.

Lemma filter_split_count P (q : UnifiedFinding -> bool) l :
  count_if P (List.filter (fun x => negb (q x)) l) + count_if P (List.filter q l)
  = count_if P l.
Proof.
  induction l as [|x l IH]; [done|]. cbn.
  destruct (q x); cbn; rewrite !count_if_cons; lia.
Qed.

Lemma imap_fix_round_count P (l : list UnifiedFinding) :
  stable P -> count_if P (imap (fix_round _generate_fix) l) = count_if P l.
Proof.
  intros HP. unfold fix_round.
  generalize _generate_fix as g. induction l as [|x l IH]; intros g; [done|].
  cbn [imap]. rewrite !count_if_cons. f_equal.
  - f_equal. apply HP. destruct (g 0%nat x); by repeat split.
  - apply (IH (fun i => g (S i))).
Qed.

Lemma generate_missing_fixes_length (l : list UnifiedFinding) :
  length (_generate_missing_fixes _generate_fix l) = length l.
Proof.
  rewrite generate_missing_fixes_cases. destruct (forallb _ l); [done|].
  rewrite length_app, length_imap. apply filter_split_length.
Qed.

Lemma generate_missing_fixes_count P (l : list UnifiedFinding) :
  stable P ->
  count_if P (_generate_missing_fixes _generate_fix l) = count_if P l.
Proof.
  intros HP. rewrite generate_missing_fixes_cases.
  destruct (forallb _ l); [done|].
  rewrite count_if_app, imap_fix_round_count by done.
  apply filter_split_count.
Qed.

(** The fix pass keeps every finding: it returns as many findings as it
    is given, with the same number of findings of each severity, category
    or source; a list in which every finding has a fix comes back as it
    is; a finding that has a fix keeps it; and a returned finding without
    a fix is one whose fix generation gave nothing. *)
Theorem generate_missing_fixes_keeps (l : list UnifiedFinding)
    (P : UnifiedFinding -> bool) :
  length (_generate_missing_fixes _generate_fix l) = length l /\
  (stable P -> count_if P (_generate_missing_fixes _generate_fix l)
               = count_if P l) /\
  (Forall (fun f => is_Some (fix_ f)) l ->
   _generate_missing_fixes _generate_fix l = l) /\
  (forall f, f ∈ l -> is_Some (fix_ f) ->
     f ∈ _generate_missing_fixes _generate_fix l) /\
  (forall w, w ∈ _generate_missing_fixes _generate_fix l -> fix_ w = None ->
     exists i, _generate_fix i w = None).
Proof.
  split; [apply generate_missing_fixes_length|].
  split; [apply generate_missing_fixes_count|].
  rewrite generate_missing_fixes_cases.
  split; [|split].
  - intros Hall. destruct (forallb _ l) eqn:E; [done|]. exfalso.
    assert (forallb (fun f => negb (has_no_fix f)) l = true); [|congruence].
    apply forallb_forall. intros x Hx%list_elem_of_In.
    rewrite Forall_forall in Hall. destruct (Hall x Hx) as [y Hy].
    unfold has_no_fix. by rewrite Hy.
  - intros f Hf [x Hx]. destruct (forallb _ l); [done|].
    apply elem_of_app. left. apply list_elem_of_In, filter_In.
    split; [by apply list_elem_of_In|]. unfold has_no_fix. by rewrite Hx.
  - intros w Hw Hnone. destruct (forallb _ l) eqn:E.
    + rewrite forallb_forall in E. apply list_elem_of_In, E in Hw.
      unfold has_no_fix in Hw. by rewrite Hnone in Hw.
    + apply elem_of_app in Hw as [Hw|Hw].
      * apply list_elem_of_In, filter_In in Hw as [_ Hw].
        unfold has_no_fix in Hw. by rewrite Hnone in Hw.
      * apply elem_of_lookup_imap in Hw as (i & u & -> & Hu).
        exists i. unfold fix_round in *.
        destruct (_generate_fix i u) eqn:Hgen; [discriminate Hnone|done].
Qed.

(** ** The result of a run *)

Lemma analyze_kept code_graph ai_task sonar_task time :
  analyze _generate_fix code_graph ai_task sonar_task time
  = analyze _generate_fix code_graph (Returned (kept ai_task))
      (Returned (kept sonar_task)) time.
Proof. by destruct ai_task, sonar_task. Qed.

(** Whatever the two branches do, a result of [analyze] reports no more
    findings than the branches returned, its [total] is the number of its
    findings, and its verdict is the quality gate of its findings, which
    is never worse than the quality gate of all findings the branches
    returned. *)
Theorem analyze_result (code_graph : pydict) (ai_task sonar_task : branch_outcome)
    (time : Z) (res : AnalysisResult) :
  analyze _generate_fix code_graph ai_task sonar_task time = Some res ->
  (length (findings res) <= length (kept ai_task) + length (kept sonar_task))%nat /\
  total (summary res) = Z.of_nat (length (findings res)) /\
  quality_gate (summary res) = determine_quality_gate (findings res) /\
  (gate_rank (quality_gate (summary res))
   <= gate_rank (determine_quality_gate (kept ai_task ++ kept sonar_task)))%nat /\
  Findings.code_graph res = code_graph /\ execution_time_ms res = time.
Proof.
  rewrite analyze_kept, analyze_returned.
  destruct (deduplicate_findings _) as [unique|] eqn:Hdedup; [|done].
  cbn [mbind option_bind]. intros [= <-]. cbn.
  pose proof (dedup_length_le _ _ Hdedup) as Hlen.
  split; [rewrite generate_missing_fixes_length, <- length_app; exact Hlen|].
  split; [done|]. split; [done|]. split; [|done].
  apply gate_rank_le.
  intros P [[s ->]|[s ->]].
  - rewrite generate_missing_fixes_count by apply severity_stable.
    apply (dedup_count_le _ _ _ Hdedup), severity_stable.
  - rewrite generate_missing_fixes_count by apply category_stable.
    apply (dedup_count_le _ _ _ Hdedup), category_stable.
Qed.

(** When both branches fail the run still returns: a result without
    findings, whose verdict is "passed". *)
Theorem analyze_both_failed (code_graph : pydict) (o1 o2 : branch_outcome)
    (time : Z) :
  failed o1 -> failed o2 ->
  exists res,
    analyze _generate_fix code_graph o1 o2 time = Some res /\
    findings res = [] /\ total (summary res) = 0 /\
    quality_gate (summary res) = "passed" /\
    exists line1 line2,
      _run_parallel_analysis o1 o2 = ([], [], [line1; line2]).
Proof.
  intros [->|[m1 ->]] [->|[m2 ->]]; eexists;
    (split; [reflexivity|]); repeat split; by eexists _, _.
Qed.

End Run.

(** ** The context of the AI prompt *)

Section WithBuiltins.
Context `{Builtins}.

Lemma length_omap_le {A B} (f : A -> option B) (l : list A) :
  (length (omap f l) <= length l)%nat.
Proof. induction l as [|x l IH]; cbn; [lia|]. destruct (f x); cbn; lia. Qed.

Lemma listed_inv n line v l :
  listed n line v = Some l ->
  (length l <= n)%nat /\ Forall (fun p => exists d, p = line d) l.
Proof.
  unfold listed. destruct v as [| | | |s|items|]; try done; cbn.
  - intros [= <-].
    assert (omap (fun x => match x with PDict d => Some (line d) | _ => None end)
                 (map PStr (str_chars (str_take n s))) = []) as ->.
    { induction (str_chars (str_take n s)) as [|c r IH]; [done|exact IH]. }
    split; [cbn; lia|constructor].
  - intros [= <-]. split.
    + etransitivity; [apply length_omap_le|]. rewrite length_take. lia.
    + apply Forall_forall. intros p ([]& _ & Hx)%list_elem_of_omap; try done.
      injection Hx as <-. by eexists.
Qed.

Lemma listed_listable n line v :
  listable v -> truthy v = true -> is_Some (listed n line v).
Proof.
  intros [Hf|[[l ->]|[s ->]]] Ht; [congruence| |]; by eexists.
Qed.

Lemma graph_parts_inv code_graph file_path graph parts :
  (file_path, PDict graph) ∈ code_graph ->
  graph_parts file_path graph = Some parts ->
  (1 <= length parts <= 18)%nat /\ Forall (part_shape code_graph) parts.
Proof.
  intros Hin. unfold graph_parts.
  assert (Hline : forall n line v l,
            (forall d, exists rest, line d = "  - " +:+ rest) ->
            listed n line v = Some l ->
            (length l <= n)%nat /\ Forall (part_shape code_graph) l).
  { intros n line v l Hl [Hlen Hall]%listed_inv. split; [done|].
    eapply Forall_impl; [exact Hall|]. intros p [d ->].
    right. right. right. apply Hl. }
  assert (Hf : forall d, exists rest, function_line d = "  - " +:+ rest)
    by (intros d; by eexists).
  assert (Hc : forall d, exists rest, class_line d = "  - " +:+ rest)
    by (intros d; by eexists).
  destruct (truthy (dict_get graph "functions" PNone));
    [destruct (listed 10 _ _) as [fl|] eqn:Hfl; [|done]|];
    (destruct (truthy (dict_get graph "classes" PNone));
      [destruct (listed 5 _ _) as [cl|] eqn:Hcl; [|done]|]);
    cbn; intros [= <-];
    try (destruct (Hline _ _ _ _ Hf Hfl) as [Hfn Hfs]);
    try (destruct (Hline _ _ _ _ Hc Hcl) as [Hcn Hcs]);
    (split; [cbn; rewrite ?length_app; cbn; lia|]);
    repeat first
      [ apply Forall_cons; split
      | apply Forall_app; split
      | apply Forall_nil_2
      | assumption
      | by (left; eexists _, _)
      | by (right; left)
      | by (right; right; left) ].
Qed.

Lemma part_shape_mono code_graph code_graph' part :
  (forall kv, kv ∈ code_graph -> kv ∈ code_graph') ->
  part_shape code_graph part -> part_shape code_graph' part.
Proof.
  intros Hsub [(f & g & Hin & ->)|Hrest]; [|by right].
  left. exists f, g. split; [by apply Hsub|done].
Qed.

Lemma context_parts_inv code_graph parts :
  context_parts code_graph = Some parts ->
  (length (List.filter is_dict_entry code_graph) <= length parts
   <= 18 * length (List.filter is_dict_entry code_graph))%nat /\
  Forall (part_shape code_graph) parts.
Proof.
  revert parts. induction code_graph as [|[f v] rest IH]; intros parts; cbn.
  - intros [= <-]. split; [cbn; lia|constructor].
  - assert (Hrest : forall ps, Forall (part_shape rest) ps ->
                      Forall (part_shape ((f, v) :: rest)) ps).
    { intros ps Hps. eapply Forall_impl; [exact Hps|]. intros p.
      apply part_shape_mono. intros kv Hkv. by right. }
    destruct v as [| | | | | |g]; cbn [is_dict_entry snd];
      try (intros [Hlen Hall]%IH; split; [exact Hlen|by apply Hrest]).
    destruct (graph_parts f g) as [ps|] eqn:Hg; [|done]. cbn.
    destruct (context_parts rest) as [more|]; [|done]. cbn.
    intros [= <-].
    destruct (graph_parts_inv ((f, PDict g) :: rest) f g ps) as [Hn Hs];
      [by left|done|].
    destruct (IH more eq_refl) as [Hlen Hall].
    split; [rewrite length_app; cbn [length]; lia|].
    apply Forall_app. split; [done|by apply Hrest].
Qed.

Lemma context_parts_dicts code_graph :
  context_parts (List.filter is_dict_entry code_graph) = context_parts code_graph.
Proof.
  induction code_graph as [|[f v] rest IH]; [done|].
  destruct v; cbn; try exact IH. by rewrite IH.
Qed.

Lemma context_parts_listable code_graph :
  listable_graphs code_graph -> is_Some (context_parts code_graph).
Proof.
  induction code_graph as [|[f v] rest IH]; intros Hl; [by eexists|].
  assert (Hrest : is_Some (context_parts rest)).
  { apply IH. intros f' g' Hin. apply (Hl f' g'). by right. }
  destruct v as [| | | | | |g]; cbn; try exact Hrest.
  destruct (Hl f g) as [Hf Hc]; [by left|].
  assert (is_Some (graph_parts f g)) as [ps ->].
  { unfold graph_parts.
    destruct (truthy (dict_get g "functions" PNone)) eqn:Ef.
    - destruct (listed_listable 10 function_line _ Hf Ef) as [fl ->]. cbn.
      destruct (truthy (dict_get g "classes" PNone)) eqn:Ec; [|by eexists].
      destruct (listed_listable 5 class_line _ Hc Ec) as [cl ->]. by eexists.
    - cbn. destruct (truthy (dict_get g "classes" PNone)) eqn:Ec; [|by eexists].
      destruct (listed_listable 5 class_line _ Hc Ec) as [cl ->]. by eexists. }
  destruct Hrest as [more ->]. by eexists.
Qed.

(** The context built for the AI prompt is limited: it is made of at most
    100 parts joined by newlines, at most 18 for each file whose graph is
    a dict (the file header, "Functions:" and up to 10 functions,
    "Classes:" and up to 5 classes); every part is a file header, one of
    the two captions or an item line; files whose graph is no dict leave
    no trace; and the context is built whenever the functions and classes
    of every graph are lists, strings or false. *)
Theorem build_ai_context_limits (code_graph : pydict) :
  (listable_graphs code_graph -> is_Some (_build_ai_context code_graph)) /\
  (forall ctx, _build_ai_context code_graph = Some ctx ->
     exists parts,
       ctx = str_join newline parts /\
       (length parts <= 100)%nat /\
       (length parts <= 18 * length (List.filter is_dict_entry code_graph))%nat /\
       Forall (part_shape code_graph) parts /\
       _build_ai_context (List.filter is_dict_entry code_graph) = Some ctx).
Proof.
  unfold _build_ai_context. split.
  - intros [parts ->]%context_parts_listable. by eexists.
  - intros ctx. rewrite context_parts_dicts.
    destruct (context_parts code_graph) as [parts|] eqn:Hparts; [|done]. cbn.
    intros [= <-]. destruct (context_parts_inv _ _ Hparts) as [[_ Hlen] Hall].
    exists (take 100 parts). split; [done|].
    rewrite length_take. split; [lia|]. split; [lia|].
    split; [by apply Forall_take|done].
Qed.

End WithBuiltins.

(** The context of the sample code graph: the two functions that are
    dicts and the class of a.py, and nothing for b.py. *)
Lemma build_ai_context_limits_witness :
  exists parts,
    _build_ai_context (H := sample_builtins) sample_code_graph
    = Some (str_join newline parts) /\
    (length parts <= 18)%nat.
Proof.
  destruct (proj2 (build_ai_context_limits (H := sample_builtins)
                     sample_code_graph) _ eq_refl)
    as (parts & Hctx & _ & Hlen & _).
  exists parts. split; [by rewrite <- Hctx|exact Hlen].
Defined.

(** The fix pass on one report with a fix and two without, with a fix
    generation that gives nothing. *)
Lemma generate_missing_fixes_keeps_witness :
  length (_generate_missing_fixes (fun _ _ => None)
            [report_manual; report_ai; report_sonar]) = 3%nat.
Proof.
  exact (proj1 (generate_missing_fixes_keeps (fun _ _ => None)
                  [report_manual; report_ai; report_sonar] (fun _ => true))).
Defined.

(** A run whose AI branch returns two reports of one place and whose
    SonarQube branch times out. *)
Lemma analyze_result_witness :
  exists res,
    analyze (fun _ _ => None) [] (Returned [report_manual; report_ai]) TimedOut 12
    = Some res /\
    (length (findings res) <= 2)%nat /\
    total (summary res) = Z.of_nat (length (findings res)).
Proof.
  eexists. split; [reflexivity|].
  destruct (analyze_result (fun _ _ => None) []
              (Returned [report_manual; report_ai]) TimedOut 12 _ eq_refl)
    as (Hlen & Htotal & _).
  split; [exact Hlen|exact Htotal].
Defined.

(** A run in which one branch times out and the other raises. *)
Lemma analyze_both_failed_witness :
  exists res,
    analyze (fun _ _ => None) [] TimedOut (Raised "connection refused") 12
    = Some res /\
    findings res = [] /\ quality_gate (summary res) = "passed".
Proof.
  destruct (analyze_both_failed (fun _ _ => None) [] TimedOut
              (Raised "connection refused") 12)
    as (res & Hres & Hf & _ & Hq & _).
  - by left.
  - right. by eexists.
  - exists res. split; [exact Hres|]. split; [exact Hf|exact Hq].
Defined.

End OrchestratorMore.

(* ===================================================================== *)
(** * Further properties of the job store                                 *)
(* ===================================================================== *)

Module JobMore.
Import Py JobManager JobSpec JobFacts.

(** ** Creating and reading *)

(** A created job is found under its id, pending, with an empty log, zero
    progress and both time stamps at the creation time; its result is a
    new dict object, which is empty, and the dict objects that were there
    are as they were; the job is not cancelled; a job that was stored
    under the id before is gone, and the jobs under other ids stay. *)
Theorem create_job_get (now job_id : string) (JOBS : jobs) (OBJECTS : objects) :
  let r := create_job now job_id JOBS OBJECTS in
  get_job job_id r.1.1 = Some r.2 /\
  status r.2 = "pending" /\ logs r.2 = [] /\
  OBJECTS !! result r.2 = None /\ r.1.2 !! result r.2 = Some [] /\
  (forall x d, OBJECTS !! x = Some d -> r.1.2 !! x = Some d) /\
  progress r.2 = {| current_file := ""; processed := 0; total := 0;
                    percentage := 0 |} /\
  created_at r.2 = now /\ updated_at r.2 = now /\
  is_job_cancelled job_id r.1.1 = false /\
  (forall k, k <> job_id -> get_job k r.1.1 = get_job k JOBS).
Proof.
  cbv zeta. unfold create_job, get_job, is_job_cancelled. cbn [fst snd result].
  pose proof (is_fresh (dom OBJECTS)) as Hfresh.
  apply not_elem_of_dom in Hfresh.
  rewrite !lookup_insert_eq. repeat split; try done.
  - intros x d Hx. rewrite lookup_insert_ne; [done|]. congruence.
  - intros k Hk. by rewrite lookup_insert_ne.
Qed.

(** ** Calls on an id that is not in the store *)

(** On an id that is not in the store every update returns False and
    leaves the store and the dict objects as they are; [get_job] gives
    None and [is_job_cancelled] False. *)
Theorem missing_job (now job_id : string) (JOBS : jobs) (OBJECTS : objects) :
  JOBS !! job_id = None ->
  (forall s, update_job_status now job_id s JOBS = (JOBS, false)) /\
  (forall m, update_job_log now job_id m JOBS = (JOBS, false)) /\
  (forall c p t, update_job_progress now job_id c p t JOBS = (JOBS, Some false)) /\
  (forall r, update_job_result now job_id r JOBS = (JOBS, false)) /\
  cancel_job now job_id JOBS = (JOBS, false) /\
  (forall r, complete_job now job_id r JOBS = (JOBS, false)) /\
  (forall e, fail_job now job_id e JOBS OBJECTS = (JOBS, OBJECTS, false)) /\
  get_job job_id JOBS = None /\ is_job_cancelled job_id JOBS = false.
Proof.
  intros Hnone.
  unfold update_job_status, update_job_log, update_job_progress,
    update_job_result, cancel_job, complete_job, fail_job, get_job,
    is_job_cancelled.
  rewrite Hnone. by repeat split.
Qed.

Lemma missing_job_witness :
  cancel_job "t" "job-2" finished_store = (finished_store, false) /\
  fail_job "t" "job-2" "boom" finished_store finished_objects
  = (finished_store, finished_objects, false).
Proof.
  destruct (missing_job "t" "job-2" finished_store finished_objects eq_refl)
    as (_ & _ & _ & _ & Hc & _ & Hf & _).
  split; [exact Hc|exact (Hf "boom")].
Defined.

(** ** What every call makes of a job in the store *)

(** What a call on a job in the store makes of the job. *)
Lemma run_found now o (JOBS : jobs) (OBJECTS : objects) job :
  JOBS !! target o = Some job -> creates o = false ->
  exists job',
    (run now o (JOBS, OBJECTS)).1 = <[target o := job']> JOBS /\
    logs job `prefix_of` logs job' /\
    created_at job' = created_at job.
Proof.
  destruct o as [j|j st|j m|j c p t|j r|j|j r|j e];
    cbn [target run creates fst snd]; intros Hjob Hc; try done.
  - unfold update_job_status. rewrite Hjob. eexists. split; [done|]. by split.
  - unfold update_job_log. rewrite Hjob. eexists. split; [done|].
    split; [by apply prefix_app_r|done].
  - rewrite (update_job_progress_found _ _ _ _ _ _ _ Hjob). cbv zeta.
    destruct (_ >? 0); [destruct (percent_of _ _)|];
      eexists; (split; [done|]); by split.
  - unfold update_job_result. rewrite Hjob. eexists. split; [done|]. by split.
  - rewrite (cancel_job_found _ _ _ _ Hjob).
    eexists. split; [done|]. split; [by apply prefix_app_r|done].
  - rewrite (complete_job_found _ _ _ _ _ Hjob).
    eexists. split; [done|]. split; [by apply prefix_app_r|done].
  - rewrite (fail_job_found _ _ _ _ _ _ Hjob).
    eexists. split; [done|]. split; [by apply prefix_app_r|done].
Qed.

Lemma run_missing now o (JOBS : jobs) (OBJECTS : objects) :
  JOBS !! target o = None -> creates o = false ->
  run now o (JOBS, OBJECTS) = (JOBS, OBJECTS).
Proof.
  destruct o as [j|j st|j m|j c p t|j r|j|j r|j e];
    cbn [target run creates fst snd]; intros Hnone Hc; try done.
  - unfold update_job_status. by rewrite Hnone.
  - unfold update_job_log. by rewrite Hnone.
  - unfold update_job_progress. by rewrite Hnone.
  - unfold update_job_result. by rewrite Hnone.
  - unfold cancel_job. by rewrite Hnone.
  - unfold complete_job. by rewrite Hnone.
  - unfold fail_job. by rewrite Hnone.
Qed.

(** Only [create_job] adds a job and no call removes one: after a call
    the store holds the ids it held before, and the id of a created
    job. *)
Theorem run_dom (now : string) (o : op) (JOBS : jobs) (OBJECTS : objects) :
  dom (run now o (JOBS, OBJECTS)).1
  = if creates o then {[ target o ]} ∪ dom JOBS else dom JOBS.
Proof.
  destruct (creates o) eqn:Hc.
  - destruct o; try done. cbn. by rewrite dom_insert_L.
  - destruct (JOBS !! target o) as [job|] eqn:Hjob.
    + destruct (run_found now o JOBS OBJECTS job Hjob Hc) as (job' & -> & _).
      rewrite dom_insert_L. apply elem_of_dom_2 in Hjob.
      apply subseteq_union_1_L. by apply singleton_subseteq_l.
    + by rewrite run_missing.
Qed.

(** The log of a job only grows and its creation time never changes:
    after any call but [create_job], a job of the store is still there,
    its old log is a prefix of its log, and [created_at] is what it
    was. *)
Theorem run_keeps_log (now : string) (o : op) (JOBS : jobs) (OBJECTS : objects)
    (k : string) (job : Job) :
  creates o = false -> JOBS !! k = Some job ->
  exists job', (run now o (JOBS, OBJECTS)).1 !! k = Some job' /\
    logs job `prefix_of` logs job' /\ created_at job' = created_at job.
Proof.
  intros Hc Hjob. destruct (decide (target o = k)) as [<-|Hne].
  - destruct (run_found now o JOBS OBJECTS job Hjob Hc) as (job' & -> & Hl & Hcr).
    exists job'. by rewrite lookup_insert_eq.
  - exists job. by rewrite run_other.
Qed.

Lemma run_keeps_log_witness :
  exists job',
    (run "t" (FailJob "job-1" "boom") (finished_store, finished_objects)).1
      !! "job-1" = Some job' /\
    logs finished_job `prefix_of` logs job'.
Proof.
  destruct (run_keeps_log "t" (FailJob "job-1" "boom") finished_store
              finished_objects "job-1" finished_job eq_refl eq_refl)
    as (job' & Hj & Hl & _).
  by exists job'.
Defined.

(** ** Cancellation *)

(** [is_job_cancelled] is true right after [cancel_job] on a job of the
    store, and false right after [complete_job] or [fail_job], also on a
    job that was cancelled before: the two do not look at the status they
    overwrite, so completing a cancelled job leaves it completed. *)
Theorem cancelled_after (now job_id : string) (JOBS : jobs) (OBJECTS : objects)
    (job : Job) :
  JOBS !! job_id = Some job ->
  is_job_cancelled job_id (cancel_job now job_id JOBS).1 = true /\
  (forall r, is_job_cancelled job_id (complete_job now job_id r JOBS).1 = false) /\
  (forall e, is_job_cancelled job_id
               (fail_job now job_id e JOBS OBJECTS).1.1 = false) /\
  (forall r, status <$> (complete_job now job_id r (cancel_job now job_id JOBS).1).1
                          !! job_id = Some "completed").
Proof.
  intros Hjob. unfold is_job_cancelled.
  rewrite (cancel_job_found _ _ _ _ Hjob). cbn [fst].
  split; [by rewrite lookup_insert_eq|]. split; [|split].
  - intros r. rewrite (complete_job_found _ _ _ _ _ Hjob). cbn [fst].
    by rewrite lookup_insert_eq.
  - intros e. rewrite (fail_job_found _ _ _ _ _ _ Hjob). cbn [fst].
    by rewrite lookup_insert_eq.
  - intros r. erewrite complete_job_found by apply lookup_insert_eq. cbn [fst].
    by rewrite lookup_insert_eq.
Qed.

Lemma cancelled_after_witness :
  is_job_cancelled "job-1" (cancel_job "t" "job-1" finished_store).1 = true.
Proof.
  exact (proj1 (cancelled_after "t" "job-1" finished_store finished_objects
                  finished_job eq_refl)).
Defined.

(** ** Failure *)

Lemma dict_lookup_set k v d k' :
  dict_lookup k' (dict_set k v d)
  = if String.eqb k' k then Some v else dict_lookup k' d.
Proof.
  induction d as [|[k0 w] d IH]; cbn.
  - by destruct (String.eqb k' k).
  - destruct (String.eqb_spec k k0) as [->|Hne]; cbn.
    + by destruct (String.eqb k' k0).
    + destruct (String.eqb_spec k' k0) as [->|Hne'].
      * destruct (String.eqb_spec k0 k) as [->|_]; done.
      * exact IH.
Qed.

(** [fail_job] on a job of the store adds the error to the result dict
    the job refers to and keeps what else is in it: afterwards that dict
    gives the error text under "error" and under every other key what it
    gave before, and the job still refers to it; the status is failed,
    the log has one more line, which ends in the error text, and progress
    and [created_at] are as they were. *)
Theorem fail_job_keeps_result (now job_id error : string) (JOBS : jobs)
    (OBJECTS : objects) (job : Job) (d : pydict) :
  JOBS !! job_id = Some job ->
  OBJECTS !! result job = Some d ->
  exists job' d',
    fail_job now job_id error JOBS OBJECTS
      = (<[job_id := job']> JOBS, <[result job := d']> OBJECTS, true) /\
    status job' = "failed" /\ result job' = result job /\
    dict_lookup "error" d' = Some (PStr error) /\
    (forall k, k <> "error" -> dict_lookup k d' = dict_lookup k d) /\
    logs job' = logs job ++ ["Job failed: " +:+ error] /\
    progress job' = progress job /\ created_at job' = created_at job /\
    updated_at job' = now.
Proof.
  intros Hjob Hd. rewrite (fail_job_found _ _ _ _ _ _ Hjob).
  exists (set_updated_at now
            (set_logs (logs job ++ ["Job failed: " +:+ error])
               (set_updated_at now (set_status "failed" job)))),
         (dict_set "error" (PStr error) d).
  split.
  { f_equal. f_equal. apply map_eq. intros x.
    destruct (decide (result job = x)) as [<-|Hne].
    - by rewrite lookup_alter_eq, lookup_insert_eq, Hd.
    - by rewrite lookup_alter_ne, lookup_insert_ne. }
  cbn. split; [done|]. split; [done|]. rewrite dict_lookup_set.
  split; [done|]. split; [|done]. intros k Hk. rewrite dict_lookup_set.
  by destruct (String.eqb_spec k "error").
Qed.

Lemma fail_job_keeps_result_witness :
  exists job' d',
    fail_job "t" "job-1" "boom" finished_store finished_objects
      = (<["job-1" := job']> finished_store,
         <[1%positive := d']> finished_objects, true) /\
    dict_lookup "error" d' = Some (PStr "boom") /\
    dict_lookup "total" d' = Some (PInt 0).
Proof.
  destruct (fail_job_keeps_result "t" "job-1" "boom" finished_store
              finished_objects finished_job [("total", PInt 0)] eq_refl eq_refl)
    as (job' & d' & Hf & _ & _ & He & Hk & _).
  exists job', d'. split; [exact Hf|]. split; [exact He|].
  rewrite Hk; [reflexivity|discriminate].
Defined.

(** ** The stored percentage *)

(** On a job of the store whose total is positive after the call,
    [update_job_progress] returns True and stores 100 percent when all
    is processed and 0 percent when nothing is; and for a total of at
    most 200 and a processed count between 0 and the total, the stored
    percentage lies between 0 and 100. *)
Theorem progress_percentage (now job_id : string) (current_file : option string)
    (processed total : option Z) (JOBS : jobs) (job : Job) :
  JOBS !! job_id = Some job ->
  let r := update_job_progress now job_id current_file processed total JOBS in
  let p := new_processed job processed in
  let t := new_total job total in
  0 < t ->
  (p = t -> r.2 = Some true /\
            (percentage ∘ progress) <$> r.1 !! job_id = Some 100) /\
  (p = 0 -> r.2 = Some true /\
            (percentage ∘ progress) <$> r.1 !! job_id = Some 0) /\
  (t <= 200 -> 0 <= p <= t ->
     r.2 = Some true /\
     exists pct, (percentage ∘ progress) <$> r.1 !! job_id = Some pct /\
                 0 <= pct <= 100).
Proof.
  intros Hjob r p t Ht. subst r.
  rewrite (update_job_progress_found _ _ _ _ _ _ _ Hjob). cbv zeta.
  cbn [JobManager.total JobManager.processed stored_progress]. fold p t.
  destruct (Z.gtb_spec t 0) as [_|]; [|lia].
  split; [|split].
  - intros ->. rewrite percent_of_full by done. cbn.
    by rewrite lookup_insert_eq.
  - intros ->. rewrite percent_of_zero by done. cbn.
    by rewrite lookup_insert_eq.
  - intros Hle Hp.
    destruct (percent_of_part p t) as (pct & -> & Hpct); [lia|lia|].
    cbn. rewrite lookup_insert_eq. split; [done|]. by exists pct.
Qed.

Lemma progress_percentage_witness :
  (percentage ∘ progress) <$>
    (update_job_progress "t" "job-1" None (Some 7) (Some 7) finished_store).1
      !! "job-1"
  = Some 100.
Proof.
  destruct (progress_percentage "t" "job-1" None (Some 7) (Some 7)
              finished_store finished_job eq_refl ltac:(reflexivity))
    as [Hfull _].
  exact (proj2 (Hfull eq_refl)).
Defined.

(** ** Removing old jobs *)

Section Cleanup.
Variable fromisoformat : string -> option Z.

Lemma to_remove_elem cutoff (JOBS : jobs) k :
  k ∈ omap (fun kv : string * Job =>
              if expired fromisoformat cutoff kv.2 then Some kv.1 else None)
           (map_to_list JOBS)
  <-> exists job, JOBS !! k = Some job /\ expired fromisoformat cutoff job = true.
Proof.
  rewrite list_elem_of_omap. split.
  - intros ([k' job] & Hin & Hk). cbn in Hk.
    destruct (expired _ _ job) eqn:He; [|done]. injection Hk as ->.
    exists job. split; [by apply elem_of_map_to_list|done].
  - intros (job & Hjob & He). exists (k, job).
    split; [by apply elem_of_map_to_list|]. cbn. by rewrite He.
Qed.

Lemma to_remove_nodup cutoff (JOBS : jobs) :
  NoDup (omap (fun kv : string * Job =>
                 if expired fromisoformat cutoff kv.2 then Some kv.1 else None)
              (map_to_list JOBS)).
Proof.
  pose proof (NoDup_fst_map_to_list JOBS) as Hnd.
  induction (map_to_list JOBS) as [|[k job] l IH]; cbn; [constructor|].
  rewrite fmap_cons in Hnd. apply NoDup_cons in Hnd as [Hk Hnd]. cbn in Hk.
  destruct (expired _ _ job); [|by apply IH].
  apply NoDup_cons. split; [|by apply IH].
  intros ([k' job'] & Hin & Hk')%list_elem_of_omap. cbn in Hk'.
  destruct (expired _ _ job'); [|done]. injection Hk' as ->.
  apply Hk. by apply (list_elem_of_fmap_2 fst) in Hin.
Qed.

Lemma size_foldr_delete (m : jobs) (l : list string) :
  NoDup l -> (forall k, k ∈ l -> is_Some (m !! k)) ->
  (size (foldr delete m l) + length l = size m)%nat.
Proof.
  induction l as [|k l IH]; intros Hnd Hin; cbn [foldr length]; [lia|].
  apply NoDup_cons in Hnd as [Hk Hnd].
  assert (Hl : forall k, k ∈ l -> is_Some (m !! k)).
  { intros k' Hk'. apply Hin. by right. }
  specialize (IH Hnd Hl).
  assert (Hsome : is_Some (foldr delete m l !! k)).
  { rewrite lookup_foldr_delete_not_elem_of by done. apply Hin. by left. }
  destruct Hsome as [job Hjob].
  pose proof (map_size_delete k (foldr delete m l)) as Hs.
  rewrite Hjob in Hs.
  assert (size (foldr delete m l) <> 0)%nat.
  { intros Hz%map_size_empty_inv. by rewrite Hz, lookup_empty in Hjob. }
  lia.
Qed.

(** [cleanup_old_jobs] removes exactly the jobs whose [created_at] is a
    time before the cutoff and returns their number: a job is in the
    store afterwards when it was there before and is not expired; a job
    with an empty [created_at], or one that is no time, stays whatever
    its age; the returned count is the number of jobs the store lost;
    and a second call with the same cutoff removes nothing. *)
Theorem cleanup_old_jobs_removes (cutoff : Z) (JOBS : jobs) :
  let r := cleanup_old_jobs fromisoformat cutoff JOBS in
  (forall k, r.1 !! k
             = job ← JOBS !! k;
               if expired fromisoformat cutoff job then None else Some job) /\
  (forall k job, JOBS !! k = Some job ->
     created_at job = "" \/ fromisoformat (replace_Z (created_at job)) = None ->
     r.1 !! k = Some job) /\
  r.2 = Z.of_nat (size JOBS) - Z.of_nat (size r.1) /\
  cleanup_old_jobs fromisoformat cutoff r.1 = (r.1, 0).
Proof.
  cbv zeta.
  assert (Hlook : forall k,
    (cleanup_old_jobs fromisoformat cutoff JOBS).1 !! k
    = job ← JOBS !! k;
      if expired fromisoformat cutoff job then None else Some job).
  { intros k. unfold cleanup_old_jobs. cbn [fst].
    destruct (JOBS !! k) as [job|] eqn:Hjob; cbn.
    - destruct (expired _ _ job) eqn:He.
      + apply lookup_foldr_delete, to_remove_elem. by exists job.
      + rewrite lookup_foldr_delete_not_elem_of; [done|].
        intros (job' & Hj & He')%to_remove_elem. congruence.
    - rewrite lookup_foldr_delete_not_elem_of; [done|].
      intros (job' & Hj & _)%to_remove_elem. congruence. }
  split; [exact Hlook|]. split; [|split].
  - intros k job Hjob Hc. rewrite Hlook, Hjob. cbn.
    unfold expired. destruct Hc as [->| ->]; [done|].
    by destruct (String.eqb _ _).
  - unfold cleanup_old_jobs. cbn [fst snd].
    pose proof (size_foldr_delete JOBS _ (to_remove_nodup cutoff JOBS)) as Hs.
    rewrite <- Hs; [lia|].
    intros k (job & -> & _)%to_remove_elem. by eexists.
  - set (m := (cleanup_old_jobs fromisoformat cutoff JOBS).1) in *.
    unfold cleanup_old_jobs at 1.
    assert (omap (fun kv : string * Job =>
                    if expired fromisoformat cutoff kv.2 then Some kv.1 else None)
                 (map_to_list m) = []) as ->; [|done].
    apply elem_of_nil_inv. intros k (job & Hj & He)%to_remove_elem.
    rewrite Hlook in Hj. destruct (JOBS !! k) as [job0|]; cbn in Hj; [|done].
    destruct (expired _ _ job0) eqn:He0; [done|]. congruence.
Qed.

End Cleanup.

(** On the three jobs, with the cutoff at 150: the job created at 100 is
    removed, the one created at 200 and the one whose creation time
    cannot be read stay. *)
Lemma cleanup_old_jobs_removes_witness :
  (cleanup_old_jobs sample_time 150 three_jobs).2 = 1 /\
  (cleanup_old_jobs sample_time 150 three_jobs).1 !! "old" = None /\
  (cleanup_old_jobs sample_time 150 three_jobs).1 !! "odd"
    = Some (job_created "yesterday").
Proof.
  destruct (cleanup_old_jobs_removes sample_time 150 three_jobs)
    as (Hlook & _ & Hcount & _).
  split; [|split].
  - rewrite Hcount. reflexivity.
  - rewrite Hlook. reflexivity.
  - rewrite Hlook. reflexivity.
Defined.

End JobMore.
